(** * pyEDHREC: a shallow embedding of the collection utilities

    The three scripts of the repository ([complete_deck.py],
    [add_collection_tags.py], [find_best_commanders.py]) are embedded as
    Rocq functions, one [Module] per script and a module [Shared] for the
    code that two scripts repeat.  The properties the specification states
    about them are proved or refuted in the second half of the file.

    Modelling conventions.
    - A Python [str] is a Rocq [string]: the bytes of its UTF-8 encoding.
      Operations that only look at ASCII characters ([replace] with ASCII
      patterns, the regular expression [[^a-z0-9]+], [strip("-")]) act on
      those bytes exactly as Python acts on code points, and comparing
      bytes orders strings as comparing code points does.  [str.split()]
      splits at the white space characters of Python, whose encodings
      are listed.
    - The Unicode tables Python consults ([str.lower], [str.upper],
      [unicodedata.normalize], [unicodedata.category]) are not part of the
      repository; they are the fields of the class [PyLib], and so is, in
      the class [PyRepr], the text that [str] gives for a value that is not
      a string.  [str.strip] and [int], which consult the tables for
      whitespace and digits, are the fields of the class [PyText].
      [urllib.parse.quote] works on the UTF-8 bytes and is defined here.
    - Python numbers (JSON integers and reals, and the floats computed from
      them) are rationals [Q].  The arithmetic of the scores of
      [complete_deck.py], on which the decision to suggest a card hangs,
      is that of Python's floats: every operand and every result is
      rounded to the nearest binary64 number, ties to even ([binary64]).
      Elsewhere sums and quotients are exact.  Overflow, infinities, NaN
      and integers of more than 53 bits are left out.
    - A parsed JSON payload is the tagged union [json]; a mapping is an
      association list in insertion order, as Python dictionaries are, and
      a key is read at its first entry.
    - Code that can raise returns an [outcome]; a function of the scripts
      in which nothing can raise is a plain function.
    - A remote call is an argument of the function that makes it: a
      function from the slug or name asked for to the [response]. *)

From Stdlib Require Import List String Ascii Bool Arith ZArith NArith QArith Qminmax Lia.
From Stdlib Require Import Permutation Sorted OrdersEx Lqa.
Import ListNotations.

Local Open Scope string_scope.

(** ** Exceptions *)

Inductive outcome (A : Type) : Type :=
| Returns (a : A)
| Raises.
Arguments Returns {A} a.
Arguments Raises {A}.

Definition bind {A B : Type} (m : outcome A) (k : A -> outcome B) : outcome B :=
  match m with
  | Returns a => k a
  | Raises => Raises
  end.

Notation "x <- m ;; k" := (bind m (fun x => k))
  (at level 61, m at next level, right associativity).

(** ** Python strings *)

Class PyLib : Type := {
  (** [s.lower()] *)
  str_lower : string -> string;
  (** [s.upper()] *)
  str_upper : string -> string;
  (** [unicodedata.normalize('NFD', s)] *)
  normalize_NFD : string -> string;
  (** [''.join(c for c in s if unicodedata.category(c) != 'Mn')] *)
  drop_Mn : string -> string
}.

Definition in_range (lo hi c : ascii) : bool :=
  (N_of_ascii lo <=? N_of_ascii c)%N && (N_of_ascii c <=? N_of_ascii hi)%N.

(** The character class [[a-z0-9]] of the slug regular expression. *)
Definition is_slug_alnum (c : ascii) : bool :=
  in_range "a" "z" c || in_range "0" "9" c.

Definition is_hyphen (c : ascii) : bool := Ascii.eqb c "-".

(** ASCII whitespace as [str.isspace] has it: TAB, LF, VT, FF, CR,
    FS, GS, RS, US and SPACE. *)
Definition is_space (c : ascii) : bool :=
  let n := N_of_ascii c in
  ((9 <=? n) && (n <=? 13) || (28 <=? n) && (n <=? 32))%N.

Definition is_empty (s : string) : bool :=
  match s with
  | EmptyString => true
  | String _ _ => false
  end.

Fixpoint str_forall (p : ascii -> bool) (s : string) : bool :=
  match s with
  | EmptyString => true
  | String c r => p c && str_forall p r
  end.

(** [pat in s] *)
Fixpoint contains (pat s : string) : bool :=
  prefix pat s ||
  match s with
  | EmptyString => false
  | String _ r => contains pat r
  end.

(** [s.replace(old, new)] for a non-empty [old]: occurrences are replaced
    from left to right and do not overlap.  [skip] counts the characters of
    the occurrence just replaced that are still to be passed over. *)
Fixpoint replace_from (old new : string) (skip : nat) (s : string) : string :=
  match s with
  | EmptyString => EmptyString
  | String c r =>
      match skip with
      | S k => replace_from old new k r
      | O =>
          if prefix old s
          then new ++ replace_from old new (String.length old - 1) r
          else String c (replace_from old new 0 r)
      end
  end.

Definition str_replace (old new s : string) : string :=
  replace_from old new 0 s.

(** The string of the given bytes. *)
Definition bytes (l : list N) : string :=
  fold_right (fun n s => String (ascii_of_N n) s) EmptyString l.

(** The white space of [str.split()] beyond ASCII, in UTF-8: U+0085,
    U+00A0, U+1680, U+2000 to U+200A, U+2028, U+2029, U+202F, U+205F and
    U+3000. *)
Definition wide_spaces : list string :=
  ([bytes [194; 133]; bytes [194; 160]; bytes [225; 154; 128]]
   ++ map (fun n => bytes [226; 128; n])
        [128; 129; 130; 131; 132; 133; 134; 135; 136; 137; 138]
   ++ [bytes [226; 128; 168]; bytes [226; 128; 169]; bytes [226; 128; 175];
       bytes [226; 129; 159]; bytes [227; 128; 128]])%list%N.

(** The number of bytes of the white space character that [s] begins
    with, 0 when it begins with none. *)
Definition space_width (s : string) : nat :=
  match s with
  | EmptyString => 0
  | String c _ =>
      if is_space c then 1
      else
        match find (fun w => prefix w s) wide_spaces with
        | Some w => String.length w
        | None => 0
        end
  end.

(** [s.split()]: the maximal runs of characters that are not white space.
    [cur] is the word being read, and [skip] counts the bytes of the white
    space character just met that are still to be passed over. *)
Fixpoint split_from (skip : nat) (cur s : string) : list string :=
  match s with
  | EmptyString => if is_empty cur then [] else [cur]
  | String c r =>
      match skip with
      | S k => split_from k cur r
      | O =>
          match space_width s with
          | S k =>
              if is_empty cur then split_from k EmptyString r
              else cur :: split_from k EmptyString r
          | O => split_from 0 (cur ++ String c EmptyString) r
          end
      end
  end.

Definition str_split (s : string) : list string :=
  split_from 0 EmptyString s.

(** [s.lstrip("-")], [s.rstrip("-")] and [s.strip("-")] *)
Fixpoint lstrip_hyphen (s : string) : string :=
  match s with
  | EmptyString => EmptyString
  | String c r => if is_hyphen c then lstrip_hyphen r else s
  end.

Fixpoint rstrip_hyphen (s : string) : string :=
  match s with
  | EmptyString => EmptyString
  | String c r =>
      let r' := rstrip_hyphen r in
      if is_hyphen c && is_empty r' then EmptyString else String c r'
  end.

Definition strip_hyphen (s : string) : string :=
  rstrip_hyphen (lstrip_hyphen s).

(** [re.sub(r"[^a-z0-9]+", "-", s)]: every maximal run of characters outside
    [[a-z0-9]] becomes one hyphen.  [in_run] tells that the hyphen of the
    current run is already written. *)
Fixpoint sub_non_alnum (in_run : bool) (s : string) : string :=
  match s with
  | EmptyString => EmptyString
  | String c r =>
      if is_slug_alnum c then String c (sub_non_alnum false r)
      else if in_run then sub_non_alnum true r
      else String "-" (sub_non_alnum true r)
  end.

(** The mis-decoded right single quotation mark that [slug] removes: the
    eight bytes C3 A2 E2 82 AC E2 84 A2. *)
Definition mojibake_quote : string :=
  String (ascii_of_N 195) (String (ascii_of_N 162) (String (ascii_of_N 226)
  (String (ascii_of_N 130) (String (ascii_of_N 172) (String (ascii_of_N 226)
  (String (ascii_of_N 132) (String (ascii_of_N 162) EmptyString))))))).

(** ** ASCII instance of the Unicode tables

    On ASCII text NFD normalisation changes nothing, no character is a
    combining mark, and case conversion moves the 26 letters. *)

Definition ascii_lower (c : ascii) : ascii :=
  if in_range "A" "Z" c then ascii_of_N (N_of_ascii c + 32) else c.

Definition ascii_upper (c : ascii) : ascii :=
  if in_range "a" "z" c then ascii_of_N (N_of_ascii c - 32) else c.

Fixpoint str_map (f : ascii -> ascii) (s : string) : string :=
  match s with
  | EmptyString => EmptyString
  | String c r => String (f c) (str_map f r)
  end.

Definition ascii_text : PyLib := {|
  str_lower := str_map ascii_lower;
  str_upper := str_map ascii_upper;
  normalize_NFD := fun s => s;
  drop_Mn := fun s => s
|}.

(** ** Text that is read as a number

    [str.strip] and [int] consult the Unicode tables for whitespace and
    for decimal digits; they are the fields of the class [PyText]. *)

Class PyText : Type := {
  (** [s.strip()] *)
  str_strip : string -> string;
  (** [int(s)]; [None] when it raises [ValueError] *)
  py_int : string -> option Z
}.

(** [s.split(sep)] for a separator of one ASCII character: the pieces
    between the separators, empty ones included.  [cur] is the piece
    being read. *)
Fixpoint split_on_from (sep : ascii) (cur s : string) : list string :=
  match s with
  | EmptyString => [cur]
  | String c r =>
      if Ascii.eqb c sep then cur :: split_on_from sep EmptyString r
      else split_on_from sep (cur ++ String c EmptyString) r
  end.

Definition str_split_on (sep : ascii) (s : string) : list string :=
  split_on_from sep EmptyString s.

(** [range(lo, hi)] *)
Definition py_range (lo hi : Z) : list Z :=
  map (fun i => (lo + Z.of_nat i)%Z) (seq 0 (Z.to_nat (hi - lo))).

(** A set of integers, in the order its elements came in. *)
Definition set_add (x : Z) (s : list Z) : list Z :=
  if existsb (Z.eqb x) s then s else (s ++ [x])%list.

Definition set_update (s : list Z) (xs : list Z) : list Z :=
  fold_left (fun s x => set_add x s) xs s.

(** *** ASCII instance

    On ASCII text [strip] removes the ASCII whitespace at both ends, and
    [int] reads an optional sign and decimal digits, between which single
    underscores may stand. *)

Fixpoint lstrip_space (s : string) : string :=
  match s with
  | EmptyString => EmptyString
  | String c r => if is_space c then lstrip_space r else s
  end.

Fixpoint rstrip_space (s : string) : string :=
  match s with
  | EmptyString => EmptyString
  | String c r =>
      let r' := rstrip_space r in
      if is_space c && is_empty r' then EmptyString else String c r'
  end.

Definition ascii_strip (s : string) : string := rstrip_space (lstrip_space s).

Definition digit_value (c : ascii) : option Z :=
  if in_range "0" "9" c then Some (Z.of_N (N_of_ascii c - 48)) else None.

Fixpoint read_digits (acc : Z) (after_digit : bool) (s : string) : option Z :=
  match s with
  | EmptyString => if after_digit then Some acc else None
  | String c r =>
      match digit_value c with
      | Some d => read_digits (acc * 10 + d) true r
      | None =>
          if Ascii.eqb c "_" && after_digit then read_digits acc false r
          else None
      end
  end.

Definition ascii_int (s : string) : option Z :=
  match ascii_strip s with
  | String "+" r => read_digits 0 false r
  | String "-" r => option_map Z.opp (read_digits 0 false r)
  | t => read_digits 0 false t
  end.

Definition ascii_numbers : PyText := {|
  str_strip := ascii_strip;
  py_int := ascii_int
|}.

(** ** JSON payloads *)

#[warnings="-register-all"]
Inductive json : Type :=
| JNull
| JBool (b : bool)
| JNum (q : Q)
| JStr (s : string)
| JList (l : list json)
| JDict (d : list (string * json)).

(** Induction over payloads, with the hypothesis available for every
    element of a sequence and every value of a mapping. *)
Section JsonInduction.
Variable P : json -> Prop.
Hypothesis HNull : P JNull.
Hypothesis HBool : forall b, P (JBool b).
Hypothesis HNum : forall q, P (JNum q).
Hypothesis HStr : forall s, P (JStr s).
Hypothesis HList : forall l, Forall P l -> P (JList l).
Hypothesis HDict : forall d, Forall (fun kv => P (snd kv)) d -> P (JDict d).

Fixpoint json_nested_ind (j : json) : P j :=
  match j with
  | JNull => HNull
  | JBool b => HBool b
  | JNum q => HNum q
  | JStr s => HStr s
  | JList l =>
      HList l
        ((fix elems (l : list json) : Forall P l :=
            match l with
            | [] => Forall_nil P
            | x :: r => Forall_cons x (json_nested_ind x) (elems r)
            end) l)
  | JDict d =>
      HDict d
        ((fix values (d : list (string * json))
            : Forall (fun kv => P (snd kv)) d :=
            match d with
            | [] => Forall_nil _
            | (k, v) :: r =>
                Forall_cons (P := fun kv => P (snd kv)) (k, v)
                  (json_nested_ind v) (values r)
            end) d)
  end.
End JsonInduction.

Definition Qgtb (a b : Q) : bool := negb (Qle_bool a b).
Definition Qltb (a b : Q) : bool := negb (Qle_bool b a).

(** ** Floats

    The integer nearest to [n / d], for [0 <= n] and [0 < d]; a tie goes
    to the even one. *)
Definition round_half_even (n d : Z) : Z :=
  let q := (n / d)%Z in
  match (2 * (n mod d) ?= d)%Z with
  | Lt => q
  | Gt => (q + 1)%Z
  | Eq => if Z.even q then q else (q + 1)%Z
  end.

(** The binary64 number nearest to [x], ties to even: a significand of
    53 bits, times a power of two that is not below [2^-1074]. *)
Definition binary64 (x : Q) : Q :=
  let n := Z.abs (Qnum x) in
  let d := Zpos (Qden x) in
  if (n =? 0)%Z then 0
  else
    let k := (Z.log2 n - Z.log2 d)%Z in
    let magnitude :=
      if (if (0 <=? k)%Z then (d * 2 ^ k <=? n)%Z
          else (d <=? n * 2 ^ (- k))%Z)
      then k else (k - 1)%Z in
    let e := Z.max (magnitude - 52) (-1074) in
    let m := if (0 <=? e)%Z then round_half_even n (d * 2 ^ e)
             else round_half_even (n * 2 ^ (- e)) d in
    let v := if (0 <=? e)%Z then inject_Z (m * 2 ^ e)
             else Qmake m (Z.to_pos (2 ^ (- e))) in
    Qred (if (Qnum x <? 0)%Z then Qopp v else v).

(** [a + b], [a * b] and [a / b] on floats; an operand that is an integer
    or a number of the payload becomes a float first. *)
Definition fl_add (a b : Q) : Q := binary64 (binary64 a + binary64 b).
Definition fl_mul (a b : Q) : Q := binary64 (binary64 a * binary64 b).
Definition fl_div (a b : Q) : Q := binary64 (binary64 a / binary64 b).

Arguments binary64 : simpl never.
Opaque binary64.

(** Python truth value of a payload. *)
Definition truthy (v : json) : bool :=
  match v with
  | JNull => false
  | JBool b => b
  | JNum q => negb (Qeq_bool q 0)
  | JStr s => negb (is_empty s)
  | JList l => match l with [] => false | _ => true end
  | JDict d => match d with [] => false | _ => true end
  end.

(** [key in d] and [d.get(key)]; an absent key reads as [None]. *)
Fixpoint dict_find (key : string) (d : list (string * json)) : option json :=
  match d with
  | [] => None
  | (k, v) :: r => if String.eqb k key then Some v else dict_find key r
  end.

Definition dict_has (key : string) (d : list (string * json)) : bool :=
  match dict_find key d with Some _ => true | None => false end.

Definition dict_get (key : string) (d : list (string * json)) : json :=
  match dict_find key d with Some v => v | None => JNull end.

Definition dict_get_default (key : string) (d : list (string * json))
    (default : json) : json :=
  match dict_find key d with Some v => v | None => default end.

(** [v.get(key, default)] on an arbitrary value: only mappings have [get]. *)
Definition py_get (v : json) (key : string) (default : json) : outcome json :=
  match v with
  | JDict d => Returns (dict_get_default key d default)
  | _ => Raises
  end.

(** The numbers of Python arithmetic: [bool] is a subtype of [int]. *)
Definition as_number (v : json) : option Q :=
  match v with
  | JNum q => Some q
  | JBool true => Some 1
  | JBool false => Some 0
  | _ => None
  end.

(** [a / b]: [TypeError] on operands that are not numbers,
    [ZeroDivisionError] on a zero divisor. *)
Definition py_div (a b : json) : outcome Q :=
  match as_number a, as_number b with
  | Some x, Some y => if Qeq_bool y 0 then Raises else Returns (x / y)
  | _, _ => Raises
  end.

(** [for x in v]: sequences yield their elements, mappings their keys,
    strings their characters; other values are not iterable. *)
Definition py_iter (v : json) : outcome (list json) :=
  match v with
  | JList l => Returns l
  | JDict d => Returns (map (fun kv => JStr (fst kv)) d)
  | JStr s => Returns (map (fun c => JStr (String c EmptyString))
                          (list_ascii_of_string s))
  | _ => Raises
  end.

(** [n] levels of one-element sequences around a payload. *)
Fixpoint nest (n : nat) (t : json) : json :=
  match n with
  | O => t
  | S k => JList [nest k t]
  end.

(** The mapping nodes of a payload in traversal order: a node before the
    nodes below it, mapping values and sequence elements left to right. *)
Fixpoint dict_nodes (t : json) : list (list (string * json)) :=
  match t with
  | JDict d =>
      d :: (fix values (vs : list (string * json)) :=
              match vs with
              | [] => []
              | (_, v) :: r => (dict_nodes v ++ values r)%list
              end) d
  | JList l =>
      (fix elems (l : list json) :=
         match l with
         | [] => []
         | x :: r => (dict_nodes x ++ elems r)%list
         end) l
  | _ => []
  end.

(** [str(v)]: a string is itself; the rendering of any other value is
    Python's, a field of the class [PyRepr]. *)
Class PyRepr : Type := {
  py_repr : json -> string
}.

Definition py_str {R : PyRepr} (v : json) : string :=
  match v with
  | JStr s => s
  | _ => py_repr v
  end.

(** ** Generic helpers *)

Definition double_quote : ascii := ascii_of_N 34.

(** [urllib.parse.quote(s)]: letters, digits and [_.-~/] stay, every other
    byte becomes [%XX] in upper-case hexadecimal. *)
Definition hex_digit (n : N) : ascii :=
  if (n <? 10)%N then ascii_of_N (48 + n) else ascii_of_N (55 + n).

Definition is_quote_safe (c : ascii) : bool :=
  in_range "a" "z" c || in_range "A" "Z" c || in_range "0" "9" c ||
  Ascii.eqb c "_" || Ascii.eqb c "." || Ascii.eqb c "-" || Ascii.eqb c "~" ||
  Ascii.eqb c "/".

Fixpoint url_quote (s : string) : string :=
  match s with
  | EmptyString => EmptyString
  | String c r =>
      if is_quote_safe c then String c (url_quote r)
      else String "%" (String (hex_digit (N_of_ascii c / 16))
             (String (hex_digit (N_of_ascii c mod 16)) (url_quote r)))
  end.

(** Dictionaries with string keys that the scripts build: association
    lists in insertion order; assigning to a present key keeps its place. *)
Fixpoint assoc_find {V : Type} (key : string) (l : list (string * V))
    : option V :=
  match l with
  | [] => None
  | (k, v) :: r => if String.eqb k key then Some v else assoc_find key r
  end.

Definition assoc_has {V : Type} (key : string) (l : list (string * V)) : bool :=
  match assoc_find key l with Some _ => true | None => false end.

Fixpoint assoc_set {V : Type} (key : string) (v : V) (l : list (string * V))
    : list (string * V) :=
  match l with
  | [] => [(key, v)]
  | (k, w) :: r =>
      if String.eqb k key then (k, v) :: r else (k, w) :: assoc_set key v r
  end.

Definition str_in (x : string) (l : list string) : bool :=
  existsb (String.eqb x) l.

(** A loop whose body can raise. *)
Fixpoint fold_outcome {A S : Type} (f : S -> A -> outcome S) (l : list A)
    (s : S) : outcome S :=
  match l with
  | [] => Returns s
  | x :: r => s' <- f s x ;; fold_outcome f r s'
  end.

(** A stable sort: [x] is put before the first element that does not have
    to come strictly before it, so elements that compare equal keep the
    order they had. *)
Section StableSort.
Context {A : Type} (before : A -> A -> bool).

Fixpoint insert_stable (x : A) (l : list A) : list A :=
  match l with
  | [] => [x]
  | y :: r => if before y x then y :: insert_stable x r else x :: l
  end.

Fixpoint sort_stable (l : list A) : list A :=
  match l with
  | [] => []
  | x :: r => insert_stable x (sort_stable r)
  end.
End StableSort.

(** What a remote call gave: the call itself failed (connection error,
    timeout), or a response arrived with a status code and a body that
    [r.json()] parses ([Some]) or rejects ([None]). *)
Inductive response : Type :=
| NetworkError
| Response (status : Z) (body : option json).

(** ** Code shared by the scripts

    [slug] is defined twice in the repository, with the same body, in
    [complete_deck.py] and in [find_best_commanders.py]; so is the walk
    that looks for a card's own link ([scan] inside
    [find_scryfall_in_data] and inside [find_scryfall_for_card]). *)

Module Shared.
Section WithLib.
Context {U : PyLib}.

Definition slug (s : string) : string :=
  let s := normalize_NFD s in
  let s := drop_Mn s in
  let s := str_lower s in
  let s := str_replace mojibake_quote EmptyString
             (str_replace "'" EmptyString (str_replace "'" EmptyString s)) in
  let s := str_replace "." EmptyString (str_replace ":" EmptyString (str_replace "," EmptyString s)) in
  let s := sub_non_alnum false s in
  strip_hyphen s.

(** [found] is the enclosing function's variable, threaded through the
    walk. *)
Fixpoint link_scan (target : string) (o : json) (found : json)
    : outcome json :=
  if truthy found then Returns found
  else
    match o with
    | JDict d =>
        let values :=
          (fix values (vs : list (string * json)) (found : json) :=
             match vs with
             | [] => Returns found
             | (_, v) :: r =>
                 found' <- link_scan target v found ;;
                 values r found'
             end) in
        let name := dict_get "name" d in
        if truthy name then
          match name with
          | JStr nm =>
              if String.eqb (str_lower nm) target then
                match dict_find "scryfall_uri" d with
                | Some uri => Returns uri
                | None => values d found
                end
              else values d found
          | _ => Raises
          end
        else values d found
    | JList l =>
        (fix elems (l : list json) (found : json) :=
           match l with
           | [] => Returns found
           | e :: r =>
               found' <- link_scan target e found ;;
               elems r found'
           end) l found
    | _ => Returns found
    end.

End WithLib.
End Shared.

(** ** add_collection_tags.py *)

Module AddCollectionTags.
Section WithLib.
Context {U : PyLib}.

(** A row of the inventory file: [name], [quantity], [source]. *)
Definition inventory_row : Type := (string * Z * string)%type.

(** One row of the loop of [load_inventory]. *)
Definition add_row (card_collections : list (string * list string))
    (row : inventory_row) : list (string * list string) :=
  let '(name, _, source) := row in
  let name_lower := str_lower name in
  let collection := source in
  let card_collections :=
    if assoc_has name_lower card_collections then card_collections
    else assoc_set name_lower [] card_collections in
  match assoc_find name_lower card_collections with
  | Some cs =>
      if str_in collection cs then card_collections
      else assoc_set name_lower (cs ++ [collection])%list card_collections
  | None => card_collections
  end.

Definition load_inventory (inv : list inventory_row)
    : list (string * list string) :=
  fold_left add_row inv [].

End WithLib.

Definition sanitize_collection_name (collection : string) : string :=
  let clean := str_replace ":" EmptyString
                 (str_replace "'" EmptyString (str_replace "," EmptyString collection)) in
  let clean := str_replace "-" "_" (str_replace "/" "_" clean) in
  String.concat "_" (str_split clean).

End AddCollectionTags.

(** ** find_best_commanders.py *)

Module FindBestCommanders.
Section WithLib.
Context {U : PyLib} {R : PyRepr}.

Definition MIN_MATCHES : Z := 10.

Definition find_scryfall_for_card (data : option json) (target_name : string)
    : outcome json :=
  match data with
  | None => Returns JNull
  | Some data => Shared.link_scan (str_lower target_name) data JNull
  end.

(** *** Commanders a card is played with *)

Record attachment : Type := {
  att_commander : json;
  att_percent : Q;
  att_scryfall : json
}.

(** What one mapping node adds to [commanders]. *)
Definition commander_of_node (scry : json) (d : list (string * json))
    : outcome (list attachment) :=
  match dict_get "url" d with
  | JStr url =>
      if contains "/commanders/" url then
        let name := dict_get "name" d in
        let inc := dict_get "inclusion" d in
        let pot := dict_get "potential_decks" d in
        if truthy name && truthy inc && truthy pot then
          percent <- py_div inc pot ;;
          if Qgtb percent (2 # 10) then
            Returns [ {| att_commander := name;
                         att_percent := percent;
                         att_scryfall := scry |} ]
          else Returns []
        else Returns []
      else Returns []
  | _ => Returns []
  end.

(** The body of [scan] inside [extract_commanders_from_card_json];
    [commanders] is the list it appends to. *)
Fixpoint commanders_scan (scry : json) (o : json)
    (commanders : list attachment) : outcome (list attachment) :=
  match o with
  | JDict d =>
      new <- commander_of_node scry d ;;
      (fix values (vs : list (string * json)) (commanders : list attachment) :=
         match vs with
         | [] => Returns commanders
         | (_, v) :: r =>
             commanders' <- commanders_scan scry v commanders ;;
             values r commanders'
         end) d (commanders ++ new)%list
  | JList l =>
      (fix elems (l : list json) (commanders : list attachment) :=
         match l with
         | [] => Returns commanders
         | e :: r =>
             commanders' <- commanders_scan scry e commanders ;;
             elems r commanders'
         end) l commanders
  | _ => Returns commanders
  end.

Definition extract_commanders_from_card_json (data : json)
    (card_name : string) : outcome (list attachment) :=
  scry <- find_scryfall_for_card (Some data) card_name ;;
  commanders_scan scry data [].

(** *** Cards a card works well with *)

Record synergy_card : Type := {
  sc_card : json;
  sc_synergy : Q;
  sc_with_card : string
}.

(** The body of the loop over [o["cardviews"]] in
    [extract_synergy_cards]. *)
Definition synergy_card_step (card_name : string)
    (synergy_cards : list synergy_card) (cv : json)
    : outcome (list synergy_card) :=
  match cv with
  | JDict c =>
      let nm := dict_get "name" c in
      let syn := dict_get_default "synergy" c (JNum 0) in
      if truthy nm then
        match as_number syn with
        | None => Raises
        | Some x =>
            if Qgtb x (1 # 10) then
              Returns (synergy_cards ++
                       [ {| sc_card := nm; sc_synergy := x;
                            sc_with_card := card_name |} ])%list
            else Returns synergy_cards
        end
      else Returns synergy_cards
  | _ => Raises
  end.

(** The body of [scan] inside [extract_synergy_cards]. *)
Fixpoint synergy_cards_scan (card_name : string) (o : json)
    (synergy_cards : list synergy_card) : outcome (list synergy_card) :=
  match o with
  | JDict d =>
      let header := py_str (dict_get_default "header" d (JStr EmptyString)) in
      let tag := py_str (dict_get_default "tag" d (JStr EmptyString)) in
      synergy_cards <-
        (if contains "synergy" (str_lower header)
            || contains "cards" (str_lower tag)
         then
           match dict_find "cardviews" d with
           | Some views =>
               cvs <- py_iter views ;;
               fold_outcome (synergy_card_step card_name) cvs synergy_cards
           | None => Returns synergy_cards
           end
         else Returns synergy_cards) ;;
      (fix values (vs : list (string * json))
           (synergy_cards : list synergy_card) :=
         match vs with
         | [] => Returns synergy_cards
         | (_, v) :: r =>
             synergy_cards' <- synergy_cards_scan card_name v synergy_cards ;;
             values r synergy_cards'
         end) d synergy_cards
  | JList l =>
      (fix elems (l : list json) (synergy_cards : list synergy_card) :=
         match l with
         | [] => Returns synergy_cards
         | e :: r =>
             synergy_cards' <- synergy_cards_scan card_name e synergy_cards ;;
             elems r synergy_cards'
         end) l synergy_cards
  | _ => Returns synergy_cards
  end.

Definition extract_synergy_cards (data : json) (card_name : string)
    : outcome (list synergy_card) :=
  scry <- find_scryfall_for_card (Some data) card_name ;;
  synergy_cards_scan card_name data [].

(** *** The merged card list of [export_with_formatting] *)

Record commander_card : Type := {
  cc_name : string;
  cc_percent : Q;
  cc_scryfall : json
}.

(** A row of the ranked commanders: [commander] and [cards]. *)
Record commander_row : Type := {
  cr_commander : string;
  cr_cards : list commander_card
}.

Record flat_row : Type := {
  fr_commander : string;
  fr_card : string;
  fr_percent : option Q;
  fr_scryfall : json;
  fr_source : string;
  fr_collections : string
}.

Definition source_lookup (inv_source_map : list (string * string))
    (lower : string) : string :=
  match assoc_find lower inv_source_map with
  | Some cs => cs
  | None => EmptyString
  end.

(** Part 1: the cards of the commander analysis. *)
Definition edhrec_rows (inv_source_map : list (string * string))
    (df : list commander_row) : list flat_row :=
  flat_map
    (fun row =>
       map (fun c =>
              {| fr_commander := cr_commander row;
                 fr_card := cc_name c;
                 fr_percent := Some (cc_percent c);
                 fr_scryfall := cc_scryfall c;
                 fr_source := "edhrec";
                 fr_collections :=
                   source_lookup inv_source_map (str_lower (cc_name c)) |})
         (cr_cards row))
    df.

Definition same_card (commander lower : string) (x : flat_row) : bool :=
  String.eqb (fr_commander x) commander
  && String.eqb (str_lower (fr_card x)) lower.

(** [already["source"] = "both"] on the first row that matches. *)
Fixpoint mark_both (commander lower : string) (flat : list flat_row)
    : list flat_row :=
  match flat with
  | [] => []
  | x :: r =>
      if same_card commander lower x then
        {| fr_commander := fr_commander x; fr_card := fr_card x;
           fr_percent := fr_percent x; fr_scryfall := fr_scryfall x;
           fr_source := "both"; fr_collections := fr_collections x |} :: r
      else x :: mark_both commander lower r
  end.

(** [fetch_card_json]: the parsed body of a 200 response, else [None]. *)
Definition fetch_card_json (card_page : string -> response)
    (card_name : string) : option json :=
  match card_page (Shared.slug card_name) with
  | NetworkError => None
  | Response status body => if (status =? 200)%Z then body else None
  end.

(** The body of the loop over [avg_cards] for one commander. *)
Definition average_step (card_page : string -> response)
    (inv_map : list (string * Z)) (inv_source_map : list (string * string))
    (commander : string) (flat : list flat_row) (card : string)
    : outcome (list flat_row) :=
  let lower := str_lower card in
  if negb (assoc_has lower inv_map) then Returns flat
  else
    let data := fetch_card_json card_page card in
    scry <- find_scryfall_for_card data card ;;
    let collections := source_lookup inv_source_map lower in
    if existsb (same_card commander lower) flat
    then Returns (mark_both commander lower flat)
    else Returns (flat ++
                  [ {| fr_commander := commander; fr_card := card;
                       fr_percent := None; fr_scryfall := scry;
                       fr_source := "average";
                       fr_collections := collections |} ])%list.

(** Parts 1 and 2: [flat].  [fetch_average_deck c] is the card list that
    [fetch_average_deck] returns for the commander [c]. *)
Definition merged_rows (card_page : string -> response)
    (fetch_average_deck : string -> list string)
    (inv_map : list (string * Z)) (inv_source_map : list (string * string))
    (df : list commander_row) : outcome (list flat_row) :=
  fold_outcome
    (fun flat row =>
       fold_outcome
         (average_step card_page inv_map inv_source_map (cr_commander row))
         (fetch_average_deck (cr_commander row)) flat)
    df (edhrec_rows inv_source_map df).

(** [get_sort_priority]: the tier and the key inside the tier. *)
Definition get_sort_priority (row : flat_row) : Z * Q :=
  let source := fr_source row in
  let percent := match fr_percent row with Some p => p | None => 0 end in
  if String.eqb source "both" then (1%Z, - percent)
  else if String.eqb source "edhrec" && Qgtb percent (20 # 100)
  then (2%Z, - percent)
  else if String.eqb source "average" then (3%Z, 0)
  else (4%Z, - percent).

(** [df2.groupby("commander").size()] read at a row's commander. *)
Definition commander_total (flat : list flat_row) (row : flat_row) : Z :=
  Z.of_nat (List.length
              (filter (fun x => String.eqb (fr_commander x) (fr_commander row))
                 flat)).

Definition str_ltb (a b : string) : bool :=
  match OrdersEx.String_as_OT.compare a b with
  | Lt => true
  | _ => false
  end.

(** Tuples compare component by component. *)
Definition priority_ltb (a b : Z * Q) : bool :=
  (fst a <? fst b)%Z || ((fst a =? fst b)%Z && Qltb (snd a) (snd b)).

(** [x] is strictly before [y] under
    [by=["commander_total", "commander", "sort_key"]],
    [ascending=[False, True, True]]. *)
Definition row_before (flat : list flat_row) (x y : flat_row) : bool :=
  let tx := commander_total flat x in
  let ty := commander_total flat y in
  (ty <? tx)%Z
  || ((tx =? ty)%Z
      && (str_ltb (fr_commander x) (fr_commander y)
          || (String.eqb (fr_commander x) (fr_commander y)
              && priority_ltb (get_sort_priority x) (get_sort_priority y)))).

(** The rows of the first sheet, in order.  An empty [flat] gives a frame
    without columns, and grouping it by [commander] raises. *)
Definition sorted_rows (flat : list flat_row) : outcome (list flat_row) :=
  match flat with
  | [] => Raises
  | _ => Returns (sort_stable (row_before flat) flat)
  end.

Definition export_rows (card_page : string -> response)
    (fetch_average_deck : string -> list string)
    (inv_map : list (string * Z)) (inv_source_map : list (string * string))
    (df : list commander_row) : outcome (list flat_row) :=
  flat <- merged_rows card_page fetch_average_deck inv_map inv_source_map df ;;
  sorted_rows flat.

(** *** The selection of commanders *)

Section Selection.
Context {T : PyText}.

(** The body of the loop over [parts] in [parse_selection]; [None] when
    the function returns the empty list at once, or raises, which the
    bare [except] turns into the empty list. *)
Definition selection_part (max_index : Z) (indices : list Z) (part : string)
    : option (list Z) :=
  let part := str_strip part in
  if contains "-" part then
    match str_split_on "-" part with
    | [start; end_] =>
        match py_int (str_strip start) with
        | Some s =>
            match py_int (str_strip end_) with
            | Some e =>
                let start := (s - 1)%Z in
                let end_ := (e - 1)%Z in
                if (start <? 0)%Z || (max_index <=? end_)%Z
                   || (end_ <? start)%Z
                then None
                else Some (set_update indices (py_range start (end_ + 1)))
            | None => None
            end
        | None => None
        end
    | _ => None
    end
  else
    match py_int (str_strip part) with
    | Some n =>
        let num := (n - 1)%Z in
        if (num <? 0)%Z || (max_index <=? num)%Z then None
        else Some (set_add num indices)
    | None => None
    end.

Fixpoint selection_parts (max_index : Z) (parts : list string)
    (indices : list Z) : option (list Z) :=
  match parts with
  | [] => Some indices
  | part :: r =>
      match selection_part max_index indices part with
      | Some indices' => selection_parts max_index r indices'
      | None => None
      end
  end.

Definition parse_selection (selection : string) (max_index : Z) : list Z :=
  if String.eqb (str_lower selection) "all" then py_range 0 max_index
  else
    match selection_parts max_index (str_split_on "," selection) [] with
    | Some indices => sort_stable Z.ltb indices
    | None => []
    end.

(** [l[i]] *)
Definition py_list_item {A : Type} (l : list A) (i : Z) : outcome A :=
  let n := Z.of_nat (List.length l) in
  let j := if (i <? 0)%Z then (i + n)%Z else i in
  if (j <? 0)%Z then Raises
  else
    match nth_error l (Z.to_nat j) with
    | Some x => Returns x
    | None => Raises
    end.

(** [generate_decklists_interactive], up to the call of
    [generate_decklists]: the commanders it passes on, [None] when it
    gives up on an invalid selection.  [selection] is the line the user
    types; what is printed is left out. *)
Definition generate_decklists_interactive (commander_list : list string)
    (selection : string) : outcome (option (list string)) :=
  let selection := str_strip selection in
  let selected_indices :=
    parse_selection selection (Z.of_nat (List.length commander_list)) in
  match selected_indices with
  | [] => Returns None
  | _ =>
      selected_commanders <-
        fold_outcome
          (fun acc i =>
             c <- py_list_item commander_list i ;;
             Returns (acc ++ [c])%list)
          selected_indices [] ;;
      Returns (Some selected_commanders)
  end.

End Selection.

(** *** Themes *)

Definition theme_keywords : list (string * list string) :=
  [("Tokens", ["token"; "create"; "populate"; "doubling season";
               "anointed procession"]);
   ("Sacrifice", ["sacrifice"; "aristocrats"; "blood artist"; "zulaport";
                  "mayhem devil"]);
   ("+1/+1 Counters", ["counter"; "+1/+1"; "proliferate"; "modular";
                       "evolve"]);
   ("Graveyard", ["graveyard"; "reanimate"; "flashback"; "delve"; "escape";
                  "dredge"]);
   ("Artifacts", ["artifact"; "affinity"; "metalcraft"; "improvise";
                  "treasure"]);
   ("Enchantments", ["enchantment"; "constellation"; "enchantress"; "saga"]);
   ("Spellslinger", ["instant"; "sorcery"; "prowess"; "storm"; "magecraft"]);
   ("Voltron", ["equipment"; "aura"; "voltron"; "commander damage"]);
   ("Ramp", ["ramp"; "land"; "mana"; "cultivate"; "kodama";
             "explosive vegetation"]);
   ("Card Draw", ["draw"; "card advantage"; "rhystic"; "curiosity"; "wheel"]);
   ("Tribal", ["elf"; "goblin"; "zombie"; "dragon"; "changeling"; "tribal"]);
   ("Control", ["counter"; "removal"; "board wipe"; "control";
                "cyclonic rift"]);
   ("Combo", ["infinite"; "combo"; "win condition"; "thoracle"]);
   ("Landfall", ["landfall"; "land enters"; "fetch"; "evolving wilds"]);
   ("Blink", ["blink"; "flicker"; "enters the battlefield"; "etb"])].

Record theme_row : Type := {
  th_theme : string;
  th_detected : Z;
  th_examples : string;
  th_potential : string
}.

(** [any(kw in card_name for kw in keywords)] *)
Definition has_keyword (keywords : list string) (card_name : string) : bool :=
  existsb (fun kw => contains kw card_name) keywords.

(** The body of the loop over [theme_keywords.items()] for one card: the
    state is [(theme_scores, theme_cards)]. *)
Definition theme_step (card card_name : string)
    (st : list (string * Z) * list (string * list string))
    (item : string * list string)
    : list (string * Z) * list (string * list string) :=
  let '(theme_scores, theme_cards) := st in
  let '(theme, keywords) := item in
  if has_keyword keywords card_name then
    let theme_scores :=
      match assoc_find theme theme_scores with
      | Some n => assoc_set theme (n + 1)%Z theme_scores
      | None => theme_scores
      end in
    let theme_cards :=
      match assoc_find theme theme_cards with
      | Some cs =>
          if (List.length cs <? 10)%nat
          then assoc_set theme (cs ++ [card])%list theme_cards
          else theme_cards
      | None => theme_cards
      end in
    (theme_scores, theme_cards)
  else st.

(** The body of the loop over [flat_cards]. *)
Definition theme_card_step
    (st : list (string * Z) * list (string * list string))
    (card_entry : flat_row)
    : list (string * Z) * list (string * list string) :=
  let card_name := str_lower (fr_card card_entry) in
  fold_left (theme_step (fr_card card_entry) card_name) theme_keywords st.

Definition potential_of (score : Z) : string :=
  if (10 <=? score)%Z then "Alto"
  else if (6 <=? score)%Z then "Medio" else "Bajo".

(** [theme_rows], the rows of the frame before it is sorted. *)
Definition theme_rows (flat_cards : list flat_row) : list theme_row :=
  let theme_scores := map (fun item => (fst item, 0%Z)) theme_keywords in
  let theme_cards :=
    map (fun item => (fst item, @nil string)) theme_keywords in
  let '(theme_scores, theme_cards) :=
    fold_left theme_card_step flat_cards (theme_scores, theme_cards) in
  flat_map
    (fun item =>
       let '(theme, score) := item in
       if (3 <=? score)%Z then
         [ {| th_theme := theme;
              th_detected := score;
              th_examples :=
                String.concat ", "
                  (firstn 5 (match assoc_find theme theme_cards with
                             | Some cs => cs
                             | None => []
                             end));
              th_potential := potential_of score |} ]
       else [])
    theme_scores.

(** [analyze_themes]: [out] is a frame the function can return.  The
    rows are sorted by falling count; the sort is on one column, and the
    order it leaves between rows of equal count is not fixed. *)
Definition analyze_themes (flat_cards : list flat_row)
    (out : list theme_row) : Prop :=
  Permutation (theme_rows flat_cards) out /\
  StronglySorted (fun x y => (th_detected y <= th_detected x)%Z) out.

(** *** The analysis of the inventory *)

Definition BASIC_LANDS : list string :=
  ["plains"; "island"; "swamp"; "mountain"; "forest"; "wastes"].

Record card_result : Type := {
  res_card : string;
  res_commanders : list attachment;
  res_synergies : list synergy_card
}.

(** [process_card]; its first two arguments are only printed. *)
Definition process_card (card_page : string -> response)
    (card card_lower : string) : outcome (option card_result) :=
  if str_in card_lower BASIC_LANDS then Returns None
  else
    match fetch_card_json card_page card with
    | None => Returns None
    | Some data =>
        coms <- extract_commanders_from_card_json data card ;;
        synergies <- extract_synergy_cards data card ;;
        Returns (Some {| res_card := card;
                         res_commanders := coms;
                         res_synergies := synergies |})
    end.

Record stat_card : Type := {
  stc_name : string;
  stc_percent : Q;
  stc_source : string;
  stc_scryfall : json
}.

Record commander_stat : Type := {
  st_matches : Z;
  st_percent_sum : Q;
  st_percent_count : Z;
  st_cards : list stat_card
}.

(** The keys of [commander_stats] are values of the payload: lists and
    mappings cannot be hashed, and the other values are equal as Python
    has it, a boolean being the number 0 or 1. *)
Definition key_hashable (v : json) : bool :=
  match v with
  | JList _ | JDict _ => false
  | _ => true
  end.

Definition key_eqb (a b : json) : bool :=
  match a, b with
  | JStr x, JStr y => String.eqb x y
  | JNull, JNull => true
  | _, _ =>
      match as_number a, as_number b with
      | Some x, Some y => Qeq_bool x y
      | _, _ => false
      end
  end.

Fixpoint stats_find (key : json) (l : list (json * commander_stat))
    : option commander_stat :=
  match l with
  | [] => None
  | (k, v) :: r => if key_eqb k key then Some v else stats_find key r
  end.

Fixpoint stats_set (key : json) (v : commander_stat)
    (l : list (json * commander_stat)) : list (json * commander_stat) :=
  match l with
  | [] => [(key, v)]
  | (k, w) :: r =>
      if key_eqb k key then (k, v) :: r else (k, w) :: stats_set key v r
  end.

(** The body of the loop over [result["commanders"]]. *)
Definition commander_step (card : string)
    (commander_stats : list (json * commander_stat)) (c : attachment)
    : outcome (list (json * commander_stat)) :=
  let cname := att_commander c in
  let percent := att_percent c in
  let scry := att_scryfall c in
  if negb (key_hashable cname) then Raises
  else
    let commander_stats :=
      match stats_find cname commander_stats with
      | Some _ => commander_stats
      | None =>
          stats_set cname
            {| st_matches := 0; st_percent_sum := 0; st_percent_count := 0;
               st_cards := [] |}
            commander_stats
      end in
    match stats_find cname commander_stats with
    | Some entry =>
        Returns
          (stats_set cname
             {| st_matches := st_matches entry + 1;
                st_percent_sum := st_percent_sum entry + percent;
                st_percent_count := st_percent_count entry + 1;
                st_cards :=
                  (st_cards entry ++
                   [ {| stc_name := card; stc_percent := percent;
                        stc_source := "edhrec"; stc_scryfall := scry |} ])%list
             |}
             commander_stats)
    | None => Returns commander_stats
    end.

Record recommendation : Type := {
  rec_card_owned : string;
  rec_synergy_card : string;
  rec_synergy_score : Q;
  rec_both_owned : bool
}.

(** The body of the loop over [result["synergies"]]. *)
Definition recommendation_step (inv_map : list (string * Z)) (card : string)
    (synergy_recommendations : list recommendation) (syn : synergy_card)
    : outcome (list recommendation) :=
  match sc_card syn with
  | JStr nm =>
      if assoc_has (str_lower nm) inv_map then
        Returns (synergy_recommendations ++
                 [ {| rec_card_owned := card;
                      rec_synergy_card := nm;
                      rec_synergy_score := sc_synergy syn;
                      rec_both_owned := true |} ])%list
      else Returns synergy_recommendations
  | _ => Raises
  end.

(** The body of the loop over [inv_unique.iterrows()]: a row is the pair
    of [name] and [name_lower]. *)
Definition inventory_step (card_page : string -> response)
    (inv_map : list (string * Z))
    (st : list (json * commander_stat) * list recommendation)
    (row : string * string)
    : outcome (list (json * commander_stat) * list recommendation) :=
  let '(commander_stats, synergy_recommendations) := st in
  let '(card, card_lower) := row in
  result <- process_card card_page card card_lower ;;
  match result with
  | None => Returns st
  | Some result =>
      commander_stats <-
        fold_outcome (commander_step card) (res_commanders result)
          commander_stats ;;
      synergy_recommendations <-
        fold_outcome (recommendation_step inv_map card)
          (res_synergies result) synergy_recommendations ;;
      Returns (commander_stats, synergy_recommendations)
  end.

Record ranked_row : Type := {
  rk_commander : json;
  rk_matches : Z;
  rk_avg_percent : option Q;
  rk_cards : list stat_card
}.

(** The rows of the frame, before they are sorted. *)
Definition ranked_rows (commander_stats : list (json * commander_stat))
    : list ranked_row :=
  flat_map
    (fun item =>
       let '(cname, info) := item in
       if (st_matches info <? MIN_MATCHES)%Z then []
       else
         [ {| rk_commander := cname;
              rk_matches := st_matches info;
              rk_avg_percent :=
                if (st_percent_count info =? 0)%Z then None
                else Some (st_percent_sum info
                           / inject_Z (st_percent_count info));
              rk_cards := st_cards info |} ])
    commander_stats.

(** [x] is strictly before [y] under [by=["matches", "avg_percent"]],
    [ascending=[False, False]]; a missing average comes last. *)
Definition ranked_before (x y : ranked_row) : bool :=
  (rk_matches y <? rk_matches x)%Z
  || ((rk_matches x =? rk_matches y)%Z
      && match rk_avg_percent x, rk_avg_percent y with
         | Some a, Some b => Qgtb a b
         | Some _, None => true
         | None, _ => false
         end).

(** [analyze_inventory]: [inv_unique] and [inv_map] are the globals of
    the script.  Without rows the frame has no columns, and sorting it by
    [matches] raises. *)
Definition analyze_inventory (card_page : string -> response)
    (inv_unique : list (string * string)) (inv_map : list (string * Z))
    : outcome (list ranked_row * list recommendation) :=
  st <- fold_outcome (inventory_step card_page inv_map) inv_unique
          ([], []) ;;
  let '(commander_stats, synergy_recommendations) := st in
  match ranked_rows commander_stats with
  | [] => Raises
  | rows => Returns (sort_stable ranked_before rows, synergy_recommendations)
  end.

End WithLib.

Definition sanitize_commander_name (commander : string) : string :=
  let clean := str_replace ":" EmptyString
                 (str_replace "'" EmptyString
                    (str_replace "," EmptyString commander)) in
  let clean := str_replace "-" "_" (str_replace "/" "_" clean) in
  String.concat "_" (str_split clean).

End FindBestCommanders.

(** ** complete_deck.py *)

Module CompleteDeck.
Section WithLib.
Context {U : PyLib} {R : PyRepr}.

Definition MIN_SYNERGY_SCORE : Q := 1 # 10.
Definition MAX_SUGGESTIONS : nat := 50.
Definition KEY_CARD_INCLUSION_MIN : Q := 40 # 100.
Definition KEY_CARD_PRICE_MAX : Q := 2.
Definition MIN_SCORE_THRESHOLD : Q := 5.
Definition CHECK_COLOR_IDENTITY : bool := true.

(** *** Inventory *)

Definition inventory_row : Type := (string * Z * string)%type.

Record inventory_entry : Type := {
  inv_name : string;
  inv_quantity : Z;
  inv_collections : list string
}.

(** One row of the loop of [load_inventory]. *)
Definition add_row (inv_map : list (string * inventory_entry))
    (row : inventory_row) : list (string * inventory_entry) :=
  let '(name, quantity, source) := row in
  let name_lower := str_lower name in
  let inv_map :=
    if assoc_has name_lower inv_map then inv_map
    else assoc_set name_lower
           {| inv_name := name; inv_quantity := 0; inv_collections := [] |}
           inv_map in
  match assoc_find name_lower inv_map with
  | Some e =>
      assoc_set name_lower
        {| inv_name := inv_name e;
           inv_quantity := inv_quantity e + quantity;
           inv_collections := (inv_collections e ++ [source])%list |}
        inv_map
  | None => inv_map
  end.

Definition load_inventory (inv : list inventory_row)
    : list (string * inventory_entry) :=
  fold_left add_row inv [].

(** *** Colour identity *)

(** [find_color_identity], the walk nested in [get_commander_colors];
    Python's [None] is [JNull]. *)
Fixpoint find_color_identity (obj : json) (depth : nat) : json :=
  if (10 <? depth)%nat then JNull
  else
    match obj with
    | JDict d =>
        match dict_find "coloridentity" d with
        | Some v => v
        | None =>
            let values :=
              (fix values (vs : list (string * json)) : json :=
                 match vs with
                 | [] => JNull
                 | (_, v) :: r =>
                     let result := find_color_identity v (depth + 1) in
                     if truthy result then result else values r
                 end) in
            match dict_find "colors" d with
            | Some (JList l) => JList l
            | _ => values d
            end
        end
    | JList l =>
        (fix elems (l : list json) : json :=
           match l with
           | [] => JNull
           | item :: r =>
               let result := find_color_identity item (depth + 1) in
               if truthy result then result else elems r
           end) l
    | _ => JNull
    end.

(** [c.upper()] on an element of the commander's colours. *)
Definition upper_of (c : json) : outcome string :=
  match c with
  | JStr s => Returns (str_upper s)
  | _ => Raises
  end.

Fixpoint map_outcome {A B : Type} (f : A -> outcome B) (l : list A)
    : outcome (list B) :=
  match l with
  | [] => Returns []
  | x :: r => y <- f x ;; ys <- map_outcome f r ;; Returns (y :: ys)
  end.

(** [set(v)]: the elements of an iterable, all of which must be
    hashable. *)
Definition is_hashable (v : json) : bool :=
  match v with
  | JList _ | JDict _ => false
  | _ => true
  end.

Definition py_set (v : json) : outcome (list json) :=
  items <- py_iter v ;;
  if forallb is_hashable items then Returns items else Raises.

(** [x in names] for a set of strings. *)
Definition in_str_set (names : list string) (x : json) : bool :=
  match x with
  | JStr s => str_in s names
  | _ => false
  end.

(** The [try] block of [card_is_legal_in_colors]. *)
Definition legal_lookup (scryfall_named : string -> response)
    (card_name : string) (commander_colors_set : list string)
    : outcome bool :=
  match scryfall_named card_name with
  | NetworkError => Raises
  | Response status body =>
      if (status =? 200)%Z then
        match body with
        | None => Raises
        | Some data =>
            card_colors <- py_get data "color_identity" (JList []) ;;
            card_colors_set <- py_set card_colors ;;
            Returns (forallb (in_str_set commander_colors_set)
                       card_colors_set)
        end
      else Returns true
  end.

(** [scryfall_named name] is what
    [GET https://api.scryfall.com/cards/named?exact=<quoted name>] gives. *)
Definition card_is_legal_in_colors (scryfall_named : string -> response)
    (card_name : string) (commander_colors : json) : outcome bool :=
  if negb (truthy commander_colors) then Returns true
  else
    colors <- py_iter commander_colors ;;
    commander_colors_set <- map_outcome upper_of colors ;;
    match legal_lookup scryfall_named card_name commander_colors_set with
    | Returns is_legal => Returns is_legal
    | Raises => Returns true
    end.

Definition find_scryfall_in_data (data : json) (card_name : string)
    : outcome json :=
  match data with
  | JNull => Returns (JStr EmptyString)
  | _ => Shared.link_scan (str_lower card_name) data (JStr EmptyString)
  end.

Definition generate_scryfall_url (card_name : string) : string :=
  "https://scryfall.com/search?q=" ++
  url_quote (String "!" (String double_quote card_name)
             ++ String double_quote EmptyString).


(** *** Average and budget deck *)

Record card_info : Type := {
  ci_name : string;
  ci_inclusion : Q;
  ci_num_decks : Q;
  ci_is_budget : bool;
  ci_synergy : Q;
  ci_price : json;
  ci_scryfall : json
}.

(** The body of the loop over [obj["cardviews"]] in
    [get_average_and_budget_deck]. *)
Definition cardview_step (is_budget : bool)
    (cards_info : list (string * card_info)) (card : json)
    : outcome (list (string * card_info)) :=
  match card with
  | JDict c =>
      let name := dict_get "name" c in
      if negb (truthy name) then Returns cards_info
      else
        match name with
        | JStr nm =>
            let name_lower := str_lower nm in
            let cards_info :=
              if assoc_has name_lower cards_info then cards_info
              else assoc_set name_lower
                     {| ci_name := nm; ci_inclusion := 0; ci_num_decks := 0;
                        ci_is_budget := is_budget; ci_synergy := 0;
                        ci_price := dict_get_default "price" c (JNum 0);
                        ci_scryfall :=
                          dict_get_default "scryfall_uri" c (JStr EmptyString) |}
                     cards_info in
            let inclusion := dict_get_default "inclusion" c (JNum 0) in
            let num_decks := dict_get_default "num_decks" c (JNum 0) in
            let scryfall := dict_get_default "scryfall_uri" c (JStr EmptyString) in
            match assoc_find name_lower cards_info with
            | None => Raises
            | Some e =>
                match as_number inclusion with
                | None => Raises
                | Some inc =>
                    match as_number num_decks with
                    | None => Raises
                    | Some nd =>
                        Returns
                          (assoc_set name_lower
                             {| ci_name := ci_name e;
                                ci_inclusion :=
                                  if Qgtb inc (ci_inclusion e) then inc
                                  else ci_inclusion e;
                                ci_num_decks :=
                                  if Qgtb nd (ci_num_decks e) then nd
                                  else ci_num_decks e;
                                ci_is_budget := ci_is_budget e || is_budget;
                                ci_synergy := ci_synergy e;
                                ci_price := ci_price e;
                                ci_scryfall :=
                                  if truthy scryfall
                                     && negb (truthy (ci_scryfall e))
                                  then scryfall else ci_scryfall e |}
                             cards_info)
                    end
                end
            end
        | _ => Raises
        end
  | _ => Raises
  end.

(** The body of [scan] inside [get_average_and_budget_deck]. *)
Fixpoint cardviews_scan (obj : json) (in_budget_section : bool)
    (cards_info : list (string * card_info))
    : outcome (list (string * card_info)) :=
  match obj with
  | JDict d =>
      let is_budget :=
        contains "budget"
          (str_lower (py_str (dict_get_default "tag" d (JStr EmptyString))))
        || in_budget_section in
      cards_info <-
        match dict_find "cardviews" d with
        | Some views =>
            cards <- py_iter views ;;
            fold_outcome (cardview_step is_budget) cards cards_info
        | None => Returns cards_info
        end ;;
      (fix values (vs : list (string * json))
           (cards_info : list (string * card_info)) :=
         match vs with
         | [] => Returns cards_info
         | (_, v) :: r =>
             cards_info' <- cardviews_scan v is_budget cards_info ;;
             values r cards_info'
         end) d cards_info
  | JList l =>
      (fix elems (l : list json) (cards_info : list (string * card_info)) :=
         match l with
         | [] => Returns cards_info
         | item :: r =>
             cards_info' <- cardviews_scan item in_budget_section cards_info ;;
             elems r cards_info'
         end) l cards_info
  | _ => Returns cards_info
  end.

(** [average_deck_page s] is what
    [GET https://json.edhrec.com/pages/average-decks/<s>.json] gives. *)
Definition get_average_and_budget_deck (average_deck_page : string -> response)
    (commander_name : string) : outcome (list (string * card_info)) :=
  match average_deck_page (Shared.slug commander_name) with
  | NetworkError => Returns []
  | Response status body =>
      if (status =? 200)%Z then
        match body with
        | None => Returns []
        | Some data => cardviews_scan data false []
        end
      else Returns []
  end.

(** *** Card-to-card synergies *)

Record synergy_entry : Type := {
  syn_synergy : Q;
  syn_scryfall : json
}.

(** The body of the loop over [obj["cardviews"]] in [get_card_synergies]. *)
Definition synergy_step (synergies : list (string * synergy_entry))
    (card : json) : outcome (list (string * synergy_entry)) :=
  match card with
  | JDict c =>
      let name := dict_get "name" c in
      let synergy := dict_get_default "synergy" c (JNum 0) in
      let scryfall := dict_get_default "scryfall_uri" c (JStr EmptyString) in
      if truthy name then
        match as_number synergy with
        | None => Raises
        | Some syn =>
            if Qgtb syn MIN_SYNERGY_SCORE then
              match name with
              | JStr nm =>
                  Returns
                    (assoc_set (str_lower nm)
                       {| syn_synergy := syn; syn_scryfall := scryfall |}
                       synergies)
              | _ => Raises
              end
            else Returns synergies
        end
      else Returns synergies
  | _ => Raises
  end.

(** The body of [scan] inside [get_card_synergies]. *)
Fixpoint synergies_scan (obj : json)
    (synergies : list (string * synergy_entry))
    : outcome (list (string * synergy_entry)) :=
  match obj with
  | JDict d =>
      synergies <-
        match dict_find "cardviews" d with
        | Some views =>
            cards <- py_iter views ;;
            fold_outcome synergy_step cards synergies
        | None => Returns synergies
        end ;;
      (fix values (vs : list (string * json))
           (synergies : list (string * synergy_entry)) :=
         match vs with
         | [] => Returns synergies
         | (_, v) :: r =>
             synergies' <- synergies_scan v synergies ;;
             values r synergies'
         end) d synergies
  | JList l =>
      (fix elems (l : list json) (synergies : list (string * synergy_entry)) :=
         match l with
         | [] => Returns synergies
         | item :: r =>
             synergies' <- synergies_scan item synergies ;;
             elems r synergies'
         end) l synergies
  | _ => Returns synergies
  end.

(** [card_page s] is what
    [GET https://json.edhrec.com/pages/cards/<s>.json] gives. *)
Definition get_card_synergies (card_page : string -> response)
    (card_name : string) : outcome (list (string * synergy_entry)) :=
  match card_page (Shared.slug card_name) with
  | NetworkError => Returns []
  | Response status body =>
      if (status =? 200)%Z then
        match body with
        | None => Returns []
        | Some data =>
            target_scryfall <- find_scryfall_in_data data card_name ;;
            synergies_scan data []
        end
      else Returns []
  end.

(** *** Analysis of a partial deck *)

Record deck : Type := {
  deck_commander : string;
  deck_cards : list string
}.

Record synergy_total : Type := {
  tot_score : Q;
  tot_scryfall : json
}.

(** [all_synergies[key]] of the [defaultdict]: a missing key reads as a
    fresh entry. *)
Definition total_of (all_synergies : list (string * synergy_total))
    (key : string) : synergy_total :=
  match assoc_find key all_synergies with
  | Some t => t
  | None => {| tot_score := 0; tot_scryfall := JStr EmptyString |}
  end.

(** The body of the loop over [synergies.items()]. *)
Definition add_synergy (all_synergies : list (string * synergy_total))
    (item : string * synergy_entry) : list (string * synergy_total) :=
  let '(synergy_card, data) := item in
  let t := total_of all_synergies synergy_card in
  let score := tot_score t + syn_synergy data in
  let scryfall :=
    if truthy (syn_scryfall data) && negb (truthy (tot_scryfall t))
    then syn_scryfall data else tot_scryfall t in
  assoc_set synergy_card {| tot_score := score; tot_scryfall := scryfall |}
    all_synergies.

(** The loop over [current_cards[:20]]. *)
Definition accumulate_synergies (card_page : string -> response)
    (current_cards : list string) : outcome (list (string * synergy_total)) :=
  fold_outcome
    (fun all_synergies card =>
       synergies <- get_card_synergies card_page card ;;
       Returns (fold_left add_synergy synergies all_synergies))
    (firstn 20 current_cards) [].

Definition inclusion_pct (info : card_info) : Q :=
  if Qgtb (ci_num_decks info) 0 then ci_inclusion info / ci_num_decks info
  else 0.

(** [a or b] *)
Definition py_or (a b : json) : json := if truthy a then a else b.

Definition or_generated_url (url : json) (card_name : string) : json :=
  if truthy url then url else JStr (generate_scryfall_url card_name).

Record key_card : Type := {
  kc_name : string;
  kc_inclusion : Q;
  kc_price : json;
  kc_num_decks : Q;
  kc_scryfall : json
}.

Inductive candidate : Type :=
| FromEdhrec (card_lower : string) (info : card_info)
| FromSynergy (card_lower : string) (syn_data : synergy_total).

Record suggestion : Type := {
  sg_name : string;
  sg_score : Q;
  sg_inclusion : Q;
  sg_synergy : Q;
  sg_is_budget : bool;
  sg_source : string;
  sg_collections : string;
  sg_scryfall : json
}.

(** The body of the loop over [edhrec_cards.items()]: the state is
    [(cards_to_check, key_cards_missing)]. *)
Definition edhrec_step (current_cards : list string)
    (inventory : list (string * inventory_entry))
    (st : list candidate * list key_card) (item : string * card_info)
    : outcome (list candidate * list key_card) :=
  let '(cards_to_check, key_cards_missing) := st in
  let '(card_lower, info) := item in
  if str_in card_lower current_cards then Returns st
  else if negb (assoc_has card_lower inventory) then
    if Qle_bool KEY_CARD_INCLUSION_MIN (inclusion_pct info) then
      match as_number (ci_price info) with
      | None => Raises
      | Some price =>
          if Qle_bool price KEY_CARD_PRICE_MAX then
            Returns (cards_to_check,
                     (key_cards_missing ++
                      [ {| kc_name := ci_name info;
                           kc_inclusion := inclusion_pct info;
                           kc_price := ci_price info;
                           kc_num_decks := ci_num_decks info;
                           kc_scryfall :=
                             or_generated_url (ci_scryfall info)
                               (ci_name info) |} ])%list)
          else Returns st
      end
    else Returns st
  else Returns ((cards_to_check ++ [FromEdhrec card_lower info])%list,
                key_cards_missing).

(** The body of the loop over [all_synergies.items()]. *)
Definition synergy_candidate_step (current_cards : list string)
    (edhrec_cards : list (string * card_info))
    (inventory : list (string * inventory_entry))
    (cards_to_check : list candidate) (item : string * synergy_total)
    : list candidate :=
  let '(card_lower, syn_data) := item in
  if str_in card_lower current_cards then cards_to_check
  else if assoc_has card_lower edhrec_cards then cards_to_check
  else if negb (assoc_has card_lower inventory) then cards_to_check
  else
    let synergy_score := tot_score syn_data in
    let combined_score := Qmin (fl_mul synergy_score 10) 50 in
    if Qgtb combined_score MIN_SCORE_THRESHOLD
    then (cards_to_check ++ [FromSynergy card_lower syn_data])%list
    else cards_to_check.

Definition join_collections (cs : list string) : string :=
  String.concat "; " cs.

(** The score and the record of a candidate that passed the colour check:
    [None] when the score gate drops it. *)
Definition score_candidate (inventory : list (string * inventory_entry))
    (all_synergies : list (string * synergy_total)) (c : candidate)
    : outcome (option suggestion) :=
  match c with
  | FromEdhrec card_lower info =>
      let inclusion_pct :=
        if Qgtb (ci_num_decks info) 0
        then fl_div (ci_inclusion info) (ci_num_decks info) else 0 in
      let synergy_score :=
        match assoc_find card_lower all_synergies with
        | Some t => tot_score t
        | None => 0
        end in
      let synergy_scryfall :=
        match assoc_find card_lower all_synergies with
        | Some t => tot_scryfall t
        | None => JStr EmptyString
        end in
      let is_budget := ci_is_budget info in
      let combined_score :=
        fl_add
          (fl_add (fl_mul inclusion_pct 100)
             (Qmin (fl_mul synergy_score 10) 50))
          (if is_budget then 10 else 0) in
      if Qltb combined_score MIN_SCORE_THRESHOLD then Returns None
      else
        match assoc_find card_lower inventory with
        | None => Raises
        | Some e =>
            Returns (Some
              {| sg_name := ci_name info;
                 sg_score := combined_score;
                 sg_inclusion := inclusion_pct;
                 sg_synergy := synergy_score;
                 sg_is_budget := is_budget;
                 sg_source := "EDHREC";
                 sg_collections := join_collections (inv_collections e);
                 sg_scryfall :=
                   or_generated_url (py_or (ci_scryfall info) synergy_scryfall)
                     (ci_name info) |})
        end
  | FromSynergy card_lower syn_data =>
      let synergy_score := tot_score syn_data in
      let combined_score := Qmin (fl_mul synergy_score 10) 50 in
      if Qltb combined_score MIN_SCORE_THRESHOLD then Returns None
      else
        match assoc_find card_lower inventory with
        | None => Raises
        | Some e =>
            Returns (Some
              {| sg_name := inv_name e;
                 sg_score := combined_score;
                 sg_inclusion := 0;
                 sg_synergy := synergy_score;
                 sg_is_budget := false;
                 sg_source := "Sinergia";
                 sg_collections := join_collections (inv_collections e);
                 sg_scryfall :=
                   or_generated_url (tot_scryfall syn_data) (inv_name e) |})
        end
  end.

(** The body of the loop over [cards_to_check]. *)
Definition check_step (scryfall_named : string -> response)
    (inventory : list (string * inventory_entry))
    (all_synergies : list (string * synergy_total)) (commander_colors : json)
    (suggestions : list suggestion) (c : candidate)
    : outcome (list suggestion) :=
  card_name <-
    match c with
    | FromEdhrec _ info => Returns (ci_name info)
    | FromSynergy card_lower _ =>
        match assoc_find card_lower inventory with
        | Some e => Returns (inv_name e)
        | None => Raises
        end
    end ;;
  is_legal <-
    (if CHECK_COLOR_IDENTITY && truthy commander_colors
     then card_is_legal_in_colors scryfall_named card_name commander_colors
     else Returns true) ;;
  if negb is_legal then Returns suggestions
  else
    scored <- score_candidate inventory all_synergies c ;;
    match scored with
    | Some sg => Returns (suggestions ++ [sg])%list
    | None => Returns suggestions
    end.

Record analysis : Type := {
  an_commander : string;
  an_current_size : Z;
  an_cards_needed : Z;
  an_suggestions : list suggestion;
  an_key_cards_missing : list key_card
}.

(** The suggestions before they are sorted and cut, with the key cards. *)
Definition compile_suggestions (average_deck_page card_page scryfall_named
      : string -> response)
    (d : deck) (inventory : list (string * inventory_entry))
    (commander_colors : json) : outcome (list suggestion * list key_card) :=
  let commander := deck_commander d in
  let current_cards := map str_lower (deck_cards d) in
  edhrec_cards <- get_average_and_budget_deck average_deck_page commander ;;
  all_synergies <- accumulate_synergies card_page current_cards ;;
  st <- fold_outcome (edhrec_step current_cards inventory) edhrec_cards
          ([], []) ;;
  let '(cards_to_check, key_cards_missing) := st in
  let cards_to_check :=
    fold_left (synergy_candidate_step current_cards edhrec_cards inventory)
      all_synergies cards_to_check in
  suggestions <-
    fold_outcome (check_step scryfall_named inventory all_synergies
                    commander_colors)
      cards_to_check [] ;;
  Returns (suggestions, key_cards_missing).

Definition analyze_and_complete_deck (average_deck_page card_page
      scryfall_named : string -> response)
    (d : deck) (inventory : list (string * inventory_entry))
    (commander_colors : json) : outcome analysis :=
  compiled <- compile_suggestions average_deck_page card_page scryfall_named
                d inventory commander_colors ;;
  let '(suggestions, key_cards_missing) := compiled in
  let suggestions :=
    sort_stable (fun x y => Qgtb (sg_score x) (sg_score y)) suggestions in
  let key_cards_missing :=
    sort_stable (fun x y => Qgtb (kc_inclusion x) (kc_inclusion y))
      key_cards_missing in
  Returns
    {| an_commander := deck_commander d;
       an_current_size := Z.of_nat (List.length (deck_cards d));
       an_cards_needed := 64 - Z.of_nat (List.length (deck_cards d));
       an_suggestions := firstn MAX_SUGGESTIONS suggestions;
       an_key_cards_missing := firstn 20 key_cards_missing |}.

(** *** The colours of a commander *)

Definition guess_colors_from_name (commander_name : string) : list json :=
  let name_lower := str_lower commander_name in
  if contains "atraxa" name_lower
  then [JStr "W"; JStr "U"; JStr "B"; JStr "G"]
  else if contains "muldrotha" name_lower
  then [JStr "U"; JStr "B"; JStr "G"]
  else if contains "korvold" name_lower
  then [JStr "B"; JStr "R"; JStr "G"]
  else if contains "golos" name_lower
  then [JStr "W"; JStr "U"; JStr "B"; JStr "R"; JStr "G"]
  else if contains "chulane" name_lower
  then [JStr "G"; JStr "W"; JStr "U"]
  else [JStr "W"; JStr "U"; JStr "B"; JStr "R"; JStr "G"].

(** [key in v] for a string [key]: a key of a mapping, an element of a
    sequence, a part of a string; other values are not containers. *)
Definition py_in (key : string) (v : json) : outcome bool :=
  match v with
  | JDict d => Returns (dict_has key d)
  | JList l =>
      Returns (existsb (fun x => match x with
                                 | JStr s => String.eqb s key
                                 | _ => false
                                 end) l)
  | JStr s => Returns (contains key s)
  | _ => Raises
  end.

(** [v[key]] for a string [key]: only a mapping that has the key gives a
    value. *)
Definition py_item (key : string) (v : json) : outcome json :=
  match v with
  | JDict d =>
      match dict_find key d with
      | Some x => Returns x
      | None => Raises
      end
  | _ => Raises
  end.

(** The second method of [get_commander_colors]:
    [data["container"]["json_dict"]["card"]["color_identity"]], read
    when the walk found nothing. *)
Definition container_colors (data colors : json) : outcome json :=
  if truthy colors then Returns colors
  else
    has <- py_in "container" data ;;
    if has then
      container <- py_item "container" data ;;
      has <- py_in "json_dict" container ;;
      if has then
        json_dict <- py_item "json_dict" container ;;
        has <- py_in "card" json_dict ;;
        if has then
          card_info <- py_item "card" json_dict ;;
          has <- py_in "color_identity" card_info ;;
          if has then py_item "color_identity" card_info
          else Returns colors
        else Returns colors
      else Returns colors
    else Returns colors.

(** [c.upper() if isinstance(c, str) else c] *)
Definition upper_if_text (c : json) : json :=
  match c with
  | JStr s => JStr (str_upper s)
  | _ => c
  end.

(** [commander_page s] is what
    [GET https://json.edhrec.com/pages/commanders/<s>.json] gives.  The
    whole body stands in a [try], and every failure ends in the guess. *)
Definition get_commander_colors (commander_page : string -> response)
    (commander_name : string) : list json :=
  match commander_page (Shared.slug commander_name) with
  | NetworkError => guess_colors_from_name commander_name
  | Response status body =>
      if negb (status =? 200)%Z then guess_colors_from_name commander_name
      else
        match body with
        | None => guess_colors_from_name commander_name
        | Some data =>
            match container_colors data (find_color_identity data 0) with
            | Returns (JList (c :: r)) => map upper_if_text (c :: r)
            | _ => guess_colors_from_name commander_name
            end
        end
  end.

End WithLib.
End CompleteDeck.

(** ** Properties the specification names *)

(** The slug alphabet [[a-z0-9-]]. *)
Definition is_slug_char (c : ascii) : bool := is_slug_alnum c || is_hyphen c.

(** [s.endswith(a)] for one character. *)
Fixpoint str_endswith_char (a : ascii) (s : string) : bool :=
  match s with
  | EmptyString => false
  | String c EmptyString => Ascii.eqb c a
  | String _ r => str_endswith_char a r
  end.

(** Only slug characters, no hyphen at either end, no two hyphens in a
    row. *)
Definition slug_shaped (s : string) : Prop :=
  str_forall is_slug_char s = true /\
  prefix "-" s = false /\
  str_endswith_char "-" s = false /\
  contains "--" s = false.

(** The characters the label sanitizer removes, the ones it turns into an
    underscore, and the ones it leaves alone. *)
Definition is_removed (c : ascii) : bool :=
  Ascii.eqb c "," || Ascii.eqb c "'" || Ascii.eqb c ":".

Definition is_slash_or_hyphen (c : ascii) : bool :=
  Ascii.eqb c "/" || Ascii.eqb c "-".

Definition is_kept (c : ascii) : bool :=
  negb (is_removed c || is_slash_or_hyphen c).

(** The white space characters of Python, by code point: the ones
    [str.isspace] accepts and [str.split()] splits at. *)
Definition white_points : list N :=
  [9; 10; 11; 12; 13; 28; 29; 30; 31; 32; 133; 160; 5760;
   8192; 8193; 8194; 8195; 8196; 8197; 8198; 8199; 8200; 8201; 8202;
   8232; 8233; 8239; 8287; 12288]%N.

(** The UTF-8 encoding of a code point below 65536. *)
Definition utf8_of (n : N) : string :=
  (if n <? 128 then bytes [n]
   else if n <? 2048 then bytes [192 + n / 64; 128 + n mod 64]
   else bytes [224 + n / 4096; 128 + (n / 64) mod 64; 128 + n mod 64])%N.

Definition white_chars : list string := map utf8_of white_points.

(** One white space character; a text that holds none. *)
Definition is_white (ch : string) : bool := existsb (String.eqb ch) white_chars.

Definition no_white (w : string) : bool :=
  forallb (fun ch => negb (contains ch w)) white_chars.

(** A word: not empty, without white space and without a character that
    the sanitizer removes or translates. *)
Definition plain_word (w : string) : bool :=
  negb (is_empty w) && str_forall is_kept w && no_white w.

(** The encoding of a text does not begin with a continuation byte. *)
Definition is_continuation (c : ascii) : bool :=
  ((128 <=? N_of_ascii c) && (N_of_ascii c <=? 191))%N.

Definition text_start (w : string) : bool :=
  match w with
  | EmptyString => true
  | String c _ => negb (is_continuation c)
  end.

(** No white space character begins at a byte of [w] when [s] follows
    it. *)
Fixpoint white_free_before (w s : string) : bool :=
  match w with
  | EmptyString => true
  | String _ r =>
      Nat.eqb (space_width (w ++ s)) 0 && white_free_before r s
  end.

Definition white_free (w : string) : bool := white_free_before w EmptyString.

(** The three replacements and the two translations of the sanitizer,
    before the split. *)
Definition clean_label (s : string) : string :=
  str_replace "-" "_" (str_replace "/" "_"
    (str_replace ":" EmptyString
       (str_replace "'" EmptyString (str_replace "," EmptyString s)))).

(** A payload exposes a colour identity when some mapping node has a
    [coloridentity] field or a [colors] field that is a sequence. *)
Definition has_color_field (t : json) : bool :=
  existsb
    (fun d => dict_has "coloridentity" d
              || match dict_find "colors" d with
                 | Some (JList _) => true
                 | _ => false
                 end)
    (dict_nodes t).

(** A mapping node that links to a commander page. *)
Definition is_commander_node (d : list (string * json)) : bool :=
  match dict_get "url" d with
  | JStr url => contains "/commanders/" url
  | _ => false
  end.

Definition is_number (v : json) : bool :=
  match as_number v with Some _ => true | None => false end.

Definition number_of (v : json) : Q :=
  match as_number v with Some q => q | None => 0 end.

Definition attach_percent (d : list (string * json)) : Q :=
  number_of (dict_get "inclusion" d) / number_of (dict_get "potential_decks" d).

(** The nodes that give a record, as the specification words it: name and
    both counts present, the counts positive, and more than 0.2 of the
    potential decks. *)
Definition is_positive (v : json) : bool :=
  match v with
  | JNum q => Qltb 0 q
  | _ => false
  end.

Definition stated_emits (d : list (string * json)) : bool :=
  is_commander_node d
  && dict_has "name" d
  && is_positive (dict_get "inclusion" d)
  && is_positive (dict_get "potential_decks" d)
  && Qgtb (attach_percent d) (2 # 10).

(** The nodes that give a record, as the code tests them: name and both
    counts true in Python's sense (not empty, not zero), and more than 0.2
    of the potential decks. *)
Definition emits (d : list (string * json)) : bool :=
  is_commander_node d
  && truthy (dict_get "name" d)
  && truthy (dict_get "inclusion" d)
  && truthy (dict_get "potential_decks" d)
  && Qgtb (attach_percent d) (2 # 10).

Definition attachment_of (scry : json) (d : list (string * json))
    : list FindBestCommanders.attachment :=
  if emits d then
    [ {| FindBestCommanders.att_commander := dict_get "name" d;
         FindBestCommanders.att_percent := attach_percent d;
         FindBestCommanders.att_scryfall := scry |} ]
  else [].

(** The counts of a node are numbers wherever the division is reached. *)
Definition numeric_counts (d : list (string * json)) : bool :=
  negb (is_commander_node d
        && truthy (dict_get "name" d)
        && truthy (dict_get "inclusion" d)
        && truthy (dict_get "potential_decks" d))
  || (is_number (dict_get "inclusion" d)
      && is_number (dict_get "potential_decks" d)).

(** The name of a node, where it is present and true, is text: the walk
    for the card's own link lower-cases every such name. *)
Definition name_is_text (d : list (string * json)) : bool :=
  match dict_get "name" d with
  | JStr _ => true
  | v => negb (truthy v)
  end.

(** A commander entry whose name is a number. *)
Definition number_name_node : list (string * json) :=
  [("url", JStr "/commanders/x");
   ("name", JNum 7);
   ("inclusion", JNum 5);
   ("potential_decks", JNum 10)].

(** The colour identity a lookup delivers: status 200, a body that parses
    to a mapping, and a [color_identity] (default: empty) whose elements
    can be put in a set.  Everything else is a failed lookup. *)
Definition identity_of_response (r : response) : option (list json) :=
  match r with
  | Response status (Some (JDict body)) =>
      if (status =? 200)%Z then
        match CompleteDeck.py_set
                (dict_get_default "color_identity" body (JList [])) with
        | Returns ids => Some ids
        | Raises => None
        end
      else None
  | _ => None
  end.

(** Subset with both sides upper-cased, as the specification words it. *)
Definition stated_legal {U : PyLib} (commander : list string)
    (card : list json) : bool :=
  forallb
    (fun x => match x with
              | JStr s => str_in (str_upper s) (map str_upper commander)
              | _ => false
              end)
    card.

(** ** Sample payloads *)

Definition sol_ring_node : json :=
  JDict [("name", JStr "Sol Ring");
         ("scryfall_uri", JStr "https://scryfall.com/card/sol-ring")].

Definition colors_node : json :=
  JDict [("coloridentity", JList [JStr "W"; JStr "U"])].

(** A commander entry whose two counts are negative. *)
Definition negative_counts_node : list (string * json) :=
  [("url", JStr "/commanders/atraxa-praetors-voice");
   ("name", JStr "Atraxa, Praetors' Voice");
   ("inclusion", JNum (-5));
   ("potential_decks", JNum (-10))].

(** A commander entry whose inclusion count is text. *)
Definition text_count_node : list (string * json) :=
  [("url", JStr "/commanders/atraxa-praetors-voice");
   ("name", JStr "Atraxa, Praetors' Voice");
   ("inclusion", JStr "many");
   ("potential_decks", JNum 10)].

Definition atraxa_page : json :=
  JDict [("container",
          JList [JDict [("url", JStr "/commanders/atraxa-praetors-voice");
                        ("name", JStr "Atraxa, Praetors' Voice");
                        ("inclusion", JNum 300);
                        ("potential_decks", JNum 1000)];
                 JDict [("url", JStr "/commanders/muldrotha-the-gravetide");
                        ("name", JStr "Muldrotha, the Gravetide");
                        ("inclusion", JNum 100);
                        ("potential_decks", JNum 1000)]])].

(** A lookup that answers every name with the identity [ids]. *)
Definition identity_lookup (ids : list json) : string -> response :=
  fun _ => Response 200 (Some (JDict [("color_identity", JList ids)])).

(** ** Synergy totals *)


Definition Qsum (l : list Q) : Q := fold_right Qplus 0 l.





Definition sol_ring_page : json :=
  JDict [("cardlists",
          JList [JDict [("header", JStr "High Synergy Cards");
                        ("cardviews",
                         JList [JDict [("name", JStr "Mana Vault");
                                       ("synergy", JNum (8 # 10))]])]])].

Definition only_sol_ring (slug : string) : response :=
  if String.eqb slug "sol-ring" then Response 200 (Some sol_ring_page)
  else Response 404 None.

Definition deck_of_2 : CompleteDeck.deck :=
  {| CompleteDeck.deck_commander := "Atraxa, Praetors' Voice";
     CompleteDeck.deck_cards := ["Sol Ring"; "Forest"] |}.

(** ** Suggestions *)

(** The accumulated synergy of a card, nothing when no seed reports it. *)
Definition synergy_of (all_synergies : list (string * CompleteDeck.synergy_total))
    (key : string) : Q :=
  match assoc_find key all_synergies with
  | Some t => CompleteDeck.tot_score t
  | None => 0
  end.

(** [inclusionCount / deckCount], 0 when there are no decks. *)
Definition inclusion_fraction (info : CompleteDeck.card_info) : Q :=
  if Qgtb (CompleteDeck.ci_num_decks info) 0
  then CompleteDeck.ci_inclusion info / CompleteDeck.ci_num_decks info
  else 0.

(** The inclusion fraction of the score, [inclusionCount / deckCount] as
    a float, 0 when there are no decks; and the two scores as the
    specification writes them, in the arithmetic of floats. *)
Definition score_fraction (info : CompleteDeck.card_info) : Q :=
  if Qgtb (CompleteDeck.ci_num_decks info) 0
  then fl_div (CompleteDeck.ci_inclusion info) (CompleteDeck.ci_num_decks info)
  else 0.

Definition capped_synergy (synergy_total : Q) : Q :=
  Qmin (fl_mul synergy_total 10) 50.

Definition stated_score (fraction synergy_total : Q) (budget : bool) : Q :=
  fl_add (fl_add (fl_mul fraction 100) (capped_synergy synergy_total))
    (if budget then 10 else 0).

(** A suggestion that comes from the average or budget deck of the
    commander: an entry of [edhrec_cards] that is owned and not yet in the
    deck, scored by inclusion, capped synergy and the budget bonus. *)
Definition edhrec_suggestion
    (edhrec_cards : list (string * CompleteDeck.card_info))
    (all_synergies : list (string * CompleteDeck.synergy_total))
    (current_cards : list string)
    (inventory : list (string * CompleteDeck.inventory_entry))
    (s : CompleteDeck.suggestion) : Prop :=
  exists key info,
    In (key, info) edhrec_cards /\
    str_in key current_cards = false /\
    assoc_has key inventory = true /\
    CompleteDeck.sg_source s = "EDHREC" /\
    CompleteDeck.sg_name s = CompleteDeck.ci_name info /\
    CompleteDeck.sg_inclusion s = score_fraction info /\
    CompleteDeck.sg_synergy s = synergy_of all_synergies key /\
    CompleteDeck.sg_is_budget s = CompleteDeck.ci_is_budget info /\
    CompleteDeck.sg_score s
    = stated_score (CompleteDeck.sg_inclusion s) (CompleteDeck.sg_synergy s)
        (CompleteDeck.sg_is_budget s).

(** A suggestion that only the synergies of the deck bring up. *)
Definition synergy_suggestion
    (edhrec_cards : list (string * CompleteDeck.card_info))
    (all_synergies : list (string * CompleteDeck.synergy_total))
    (current_cards : list string)
    (inventory : list (string * CompleteDeck.inventory_entry))
    (s : CompleteDeck.suggestion) : Prop :=
  exists key t,
    In (key, t) all_synergies /\
    str_in key current_cards = false /\
    assoc_has key edhrec_cards = false /\
    assoc_has key inventory = true /\
    CompleteDeck.sg_source s = "Sinergia" /\
    CompleteDeck.sg_synergy s = CompleteDeck.tot_score t /\
    CompleteDeck.sg_score s = capped_synergy (CompleteDeck.sg_synergy s).

(** What is known of a candidate that reaches the colour check. *)
Definition eligible (inventory : list (string * CompleteDeck.inventory_entry))
    (edhrec_cards : list (string * CompleteDeck.card_info))
    (all_synergies : list (string * CompleteDeck.synergy_total))
    (current_cards : list string) (c : CompleteDeck.candidate) : Prop :=
  match c with
  | CompleteDeck.FromEdhrec key info =>
      In (key, info) edhrec_cards /\
      str_in key current_cards = false /\
      assoc_has key inventory = true
  | CompleteDeck.FromSynergy key t =>
      In (key, t) all_synergies /\
      str_in key current_cards = false /\
      assoc_has key edhrec_cards = false /\
      assoc_has key inventory = true
  end.

(** ** A sample analysis *)

(** [str] of [None] and of the booleans; the sample payloads hold no other
    value where [str] is applied to something that is not text. *)
Definition sample_repr : PyRepr := {|
  py_repr := fun v =>
    match v with
    | JNull => "None"
    | JBool true => "True"
    | JBool false => "False"
    | _ => EmptyString
    end
|}.

Definition atraxa_average_page : json :=
  JDict [("container",
          JDict [("cardviews",
                  JList [JDict [("name", JStr "Arcane Signet");
                                ("inclusion", JNum 300);
                                ("num_decks", JNum 1000)];
                         JDict [("name", JStr "Command Tower");
                                ("inclusion", JNum 20);
                                ("num_decks", JNum 1000)];
                         JDict [("name", JStr "Rhystic Study");
                                ("inclusion", JNum 500);
                                ("num_decks", JNum 1000);
                                ("price", JNum 30)]])])].

Definition only_atraxa (slug : string) : response :=
  if String.eqb slug "atraxa-praetors-voice"
  then Response 200 (Some atraxa_average_page)
  else Response 404 None.

Definition sample_inventory : list (string * CompleteDeck.inventory_entry) :=
  @CompleteDeck.load_inventory ascii_text
    [("Arcane Signet", 1%Z, "SetA"); ("Command Tower", 2%Z, "SetA");
     ("Mana Vault", 1%Z, "SetB")].

Definition atraxa_colors : json :=
  JList [JStr "W"; JStr "U"; JStr "B"; JStr "G"].

Definition sample_run : outcome CompleteDeck.analysis :=
  @CompleteDeck.analyze_and_complete_deck ascii_text sample_repr
    only_atraxa only_sol_ring (identity_lookup []) deck_of_2 sample_inventory
    atraxa_colors.

Definition sample_analysis : CompleteDeck.analysis :=
  Eval vm_compute in
    match sample_run with
    | Returns a => a
    | Raises =>
        {| CompleteDeck.an_commander := EmptyString;
           CompleteDeck.an_current_size := 0;
           CompleteDeck.an_cards_needed := 0;
           CompleteDeck.an_suggestions := [];
           CompleteDeck.an_key_cards_missing := [] |}
    end.

(** A card played in 3 of 1000 decks, with an accumulated synergy of
    0.47: in exact arithmetic its score is 5. *)
Definition probe_info : CompleteDeck.card_info :=
  {| CompleteDeck.ci_name := "Probe";
     CompleteDeck.ci_inclusion := 3;
     CompleteDeck.ci_num_decks := 1000;
     CompleteDeck.ci_is_budget := false;
     CompleteDeck.ci_synergy := 0;
     CompleteDeck.ci_price := JNum 0;
     CompleteDeck.ci_scryfall := JStr EmptyString |}.

Definition probe_totals : list (string * CompleteDeck.synergy_total) :=
  [("probe", {| CompleteDeck.tot_score := 47 # 100;
                CompleteDeck.tot_scryfall := JStr EmptyString |})].

Definition probe_inventory : list (string * CompleteDeck.inventory_entry) :=
  @CompleteDeck.load_inventory ascii_text [("Probe", 1%Z, "SetA")].

(** ** The order of the merged list *)

(** [x] does not have to come after [y]. *)
Definition not_after {A : Type} (before : A -> A -> bool) (x y : A) : Prop :=
  before y x = false.

(** A strict order with ties, given by its test [ltb], and the test [eqb]
    of its ties: [ltb] never holds both ways, "not after" is transitive,
    and two elements tie exactly when neither is before the other. *)
Record weak_order {A : Type} (ltb eqb : A -> A -> bool) : Prop := {
  wo_asym : forall x y, ltb x y = true -> ltb y x = false;
  wo_trans : forall x y z, ltb y x = false -> ltb z y = false ->
                           ltb z x = false;
  wo_ties : forall x y, eqb x y = true <-> ltb x y = false /\ ltb y x = false
}.

(** Lexicographic comparison of pairs. *)
Definition lex_ltb {A B : Type} (ltA eqA : A -> A -> bool)
    (ltB : B -> B -> bool) (p q : A * B) : bool :=
  ltA (fst p) (fst q) || (eqA (fst p) (fst q) && ltB (snd p) (snd q)).

Definition lex_eqb {A B : Type} (eqA : A -> A -> bool) (eqB : B -> B -> bool)
    (p q : A * B) : bool :=
  eqA (fst p) (fst q) && eqB (snd p) (snd q).

(** The percentage of a row, 0 when it has none. *)
Definition pct (r : FindBestCommanders.flat_row) : Q :=
  match FindBestCommanders.fr_percent r with
  | Some p => p
  | None => 0
  end.

(** The tier of a row, as the specification numbers them. *)
Definition tier (r : FindBestCommanders.flat_row) : Z :=
  if String.eqb (FindBestCommanders.fr_source r) "both" then 1
  else if String.eqb (FindBestCommanders.fr_source r) "edhrec"
          && Qgtb (pct r) (20 # 100) then 2
  else if String.eqb (FindBestCommanders.fr_source r) "average" then 3
  else 4.

Definition str_lt (a b : string) : Prop := OrdersEx.String_as_OT.lt a b.

(** The number of cards the merged list holds for a commander: how often
    the commander's name occurs in the commander column. *)
Definition cards_for (flat : list FindBestCommanders.flat_row)
    (commander : string) : Z :=
  Z.of_nat (count_occ string_dec (map FindBestCommanders.fr_commander flat)
              commander).

(** [x] may stand before [y]: more cards for its commander; or as many and
    a smaller commander name; or the same commander and a smaller tier; or
    the same tier and a percentage that is not smaller. *)
Definition stated_order (flat : list FindBestCommanders.flat_row)
    (x y : FindBestCommanders.flat_row) : Prop :=
  let total := fun r => cards_for flat (FindBestCommanders.fr_commander r) in
  (total y < total x)%Z \/
  (total x = total y /\
   (str_lt (FindBestCommanders.fr_commander x)
           (FindBestCommanders.fr_commander y) \/
    (FindBestCommanders.fr_commander x = FindBestCommanders.fr_commander y /\
     ((tier x < tier y)%Z \/
      (tier x = tier y /\ pct y <= pct x))))).

(** The sort key of a row: the three columns the frame is sorted by. *)
Definition row_key (flat : list FindBestCommanders.flat_row)
    (r : FindBestCommanders.flat_row) : Z * (string * (Z * Q)) :=
  (FindBestCommanders.commander_total flat r,
   (FindBestCommanders.fr_commander r,
    FindBestCommanders.get_sort_priority r)).

Definition key_ltb : Z * (string * (Z * Q)) -> Z * (string * (Z * Q)) -> bool :=
  lex_ltb (fun a b => (b <? a)%Z) Z.eqb
    (lex_ltb FindBestCommanders.str_ltb String.eqb
       (lex_ltb Z.ltb Z.eqb Qltb)).

Definition key_eqb : Z * (string * (Z * Q)) -> Z * (string * (Z * Q)) -> bool :=
  lex_eqb Z.eqb (lex_eqb String.eqb (lex_eqb Z.eqb Qeq_bool)).

(** Rows that come from the average deck alone carry no percentage. *)
Definition average_without_percent (r : FindBestCommanders.flat_row) : Prop :=
  FindBestCommanders.fr_source r = "average" ->
  FindBestCommanders.fr_percent r = None.

(** ** A sample merge *)

Definition sample_commanders : list FindBestCommanders.commander_row :=
  [ {| FindBestCommanders.cr_commander := "Muldrotha, the Gravetide";
       FindBestCommanders.cr_cards :=
         [ {| FindBestCommanders.cc_name := "Sol Ring";
              FindBestCommanders.cc_percent := 4 # 10;
              FindBestCommanders.cc_scryfall := JNull |} ] |};
    {| FindBestCommanders.cr_commander := "Atraxa, Praetors' Voice";
       FindBestCommanders.cr_cards :=
         [ {| FindBestCommanders.cc_name := "Sol Ring";
              FindBestCommanders.cc_percent := 5 # 10;
              FindBestCommanders.cc_scryfall := JNull |};
           {| FindBestCommanders.cc_name := "Arcane Signet";
              FindBestCommanders.cc_percent := 3 # 10;
              FindBestCommanders.cc_scryfall := JNull |} ] |} ].

Definition sample_average_deck (commander : string) : list string :=
  if String.eqb commander "Atraxa, Praetors' Voice"
  then ["Arcane Signet"; "Command Tower"]
  else [].

Definition sample_inv_map : list (string * Z) :=
  [("sol ring", 1%Z); ("arcane signet", 1%Z); ("command tower", 2%Z)].

Definition sample_inv_source_map : list (string * string) :=
  [("sol ring", "SetA"); ("arcane signet", "SetA"); ("command tower", "SetB")].

Definition no_page (slug : string) : response := Response 404 None.

Definition sample_flat : list FindBestCommanders.flat_row :=
  Eval vm_compute in
    match @FindBestCommanders.merged_rows ascii_text no_page
            sample_average_deck sample_inv_map sample_inv_source_map
            sample_commanders with
    | Returns flat => flat
    | Raises => []
    end.

(** A ranking in which the commander with the larger name has more
    cards. *)
Definition sample_commanders_by_count
    : list FindBestCommanders.commander_row :=
  [ {| FindBestCommanders.cr_commander := "Atraxa, Praetors' Voice";
       FindBestCommanders.cr_cards :=
         [ {| FindBestCommanders.cc_name := "Sol Ring";
              FindBestCommanders.cc_percent := 5 # 10;
              FindBestCommanders.cc_scryfall := JNull |} ] |};
    {| FindBestCommanders.cr_commander := "Muldrotha, the Gravetide";
       FindBestCommanders.cr_cards :=
         [ {| FindBestCommanders.cc_name := "Sol Ring";
              FindBestCommanders.cc_percent := 4 # 10;
              FindBestCommanders.cc_scryfall := JNull |};
           {| FindBestCommanders.cc_name := "Arcane Signet";
              FindBestCommanders.cc_percent := 3 # 10;
              FindBestCommanders.cc_scryfall := JNull |} ] |} ].

Definition sample_flat_by_count : list FindBestCommanders.flat_row :=
  Eval vm_compute in
    match @FindBestCommanders.merged_rows ascii_text no_page
            (fun _ => []) sample_inv_map sample_inv_source_map
            sample_commanders_by_count with
    | Returns flat => flat
    | Raises => []
    end.

(** ** Inventory rows *)

(** The rows of the file whose name has the given key. *)
Definition rows_for {U : PyLib} (key : string)
    (rows : list (string * Z * string)) : list (string * Z * string) :=
  filter (fun row => String.eqb (str_lower (fst (fst row))) key) rows.

Definition row_quantity (row : string * Z * string) : Z := snd (fst row).
Definition row_source (row : string * Z * string) : string := snd row.

Definition Zsum (l : list Z) : Z := fold_right Z.add 0%Z l.

Definition repeated_label_rows : list (string * Z * string) :=
  [("Sol Ring", 1%Z, "SetA"); ("Sol Ring", 2%Z, "SetA")].

Definition two_label_rows : list (string * Z * string) :=
  [("Sol Ring", 1%Z, "SetA"); ("Sol Ring", 2%Z, "SetB")].

(** ** Percent-encoding read back *)

(** The value of a hexadecimal digit, and the byte that [%XY] stands for. *)
Definition hex_value (c : ascii) : N :=
  let n := N_of_ascii c in
  if (n <? 58)%N then (n - 48)%N else (n - 55)%N.

(** What [urllib.parse.unquote_to_bytes] reads: [%XY] is one byte, any
    other character is itself. *)
Fixpoint url_unquote (s : string) : string :=
  match s with
  | EmptyString => EmptyString
  | String c r =>
      if Ascii.eqb c "%" then
        match r with
        | String d1 (String d2 r') =>
            String (ascii_of_N (16 * hex_value d1 + hex_value d2))
              (url_unquote r')
        | _ => String c (url_unquote r)
        end
      else String c (url_unquote r)
  end.

(** ** What a walk may return *)

(** A mapping node whose name, lower-cased, is the target and whose link
    is [uri]. *)
Definition links_target {U : PyLib} (target : string) (uri : json)
    (d : list (string * json)) : Prop :=
  (exists nm, dict_get "name" d = JStr nm /\ str_lower nm = target) /\
  dict_find "scryfall_uri" d = Some uri.

(** A mapping node that exposes [v] as its colour identity. *)
Definition exposes_colors (v : json) (d : list (string * json)) : Prop :=
  dict_find "coloridentity" d = Some v \/
  (dict_find "colors" d = Some v /\ exists l, v = JList l).

(** An entry of the average and budget table is filed under the
    lower-cased form of its name, with counts that are not negative and a
    synergy of 0. *)
Definition card_info_ok {U : PyLib} (kv : string * CompleteDeck.card_info)
    : Prop :=
  fst kv = str_lower (CompleteDeck.ci_name (snd kv)) /\
  0 <= CompleteDeck.ci_inclusion (snd kv) /\
  0 <= CompleteDeck.ci_num_decks (snd kv) /\
  CompleteDeck.ci_synergy (snd kv) = 0.

(** ** Key cards the collection lacks *)

(** A key card: an entry of the average or budget deck that is neither in
    the deck nor in the collection, played in at least 40% of the decks
    and priced at no more than 2. *)
Definition unowned_staple
    (edhrec_cards : list (string * CompleteDeck.card_info))
    (current_cards : list string)
    (inventory : list (string * CompleteDeck.inventory_entry))
    (k : CompleteDeck.key_card) : Prop :=
  exists key info price,
    In (key, info) edhrec_cards /\
    str_in key current_cards = false /\
    assoc_has key inventory = false /\
    CompleteDeck.kc_name k = CompleteDeck.ci_name info /\
    CompleteDeck.kc_inclusion k = inclusion_fraction info /\
    CompleteDeck.KEY_CARD_INCLUSION_MIN <= CompleteDeck.kc_inclusion k /\
    as_number (CompleteDeck.kc_price k) = Some price /\
    price <= CompleteDeck.KEY_CARD_PRICE_MAX.

(** ** Candidates and suggestions *)

(** A candidate that only the synergies bring up is queued with a capped
    score strictly above the threshold. *)
Definition above_threshold (c : CompleteDeck.candidate) : Prop :=
  match c with
  | CompleteDeck.FromEdhrec _ _ => True
  | CompleteDeck.FromSynergy _ t =>
      CompleteDeck.MIN_SCORE_THRESHOLD
      < Qmin (fl_mul (CompleteDeck.tot_score t) 10) 50
  end.

(** The two kinds of suggestion, by their source mark. *)
Definition marked_suggestion (s : CompleteDeck.suggestion) : Prop :=
  (CompleteDeck.sg_source s = "EDHREC" /\
   CompleteDeck.MIN_SCORE_THRESHOLD <= CompleteDeck.sg_score s) \/
  (CompleteDeck.sg_source s = "Sinergia" /\
   CompleteDeck.MIN_SCORE_THRESHOLD < CompleteDeck.sg_score s /\
   CompleteDeck.sg_score s <= 50 /\
   CompleteDeck.sg_inclusion s = 0 /\
   CompleteDeck.sg_is_budget s = false).

(** A record of [extract_synergy_cards]: a named card, a synergy above
    0.1, and the card the page belongs to. *)
Definition synergy_record_ok (card_name : string)
    (sc : FindBestCommanders.synergy_card) : Prop :=
  truthy (FindBestCommanders.sc_card sc) = true /\
  1 # 10 < FindBestCommanders.sc_synergy sc /\
  FindBestCommanders.sc_with_card sc = card_name.

(** ** More samples *)

Definition sample_average_table : list (string * CompleteDeck.card_info) :=
  match @CompleteDeck.get_average_and_budget_deck ascii_text sample_repr
          only_atraxa (CompleteDeck.deck_commander deck_of_2) with
  | Returns t => t
  | Raises => []
  end.

Definition sample_totals : list (string * CompleteDeck.synergy_total) :=
  match @CompleteDeck.accumulate_synergies ascii_text only_sol_ring
          (map (@str_lower ascii_text) (CompleteDeck.deck_cards deck_of_2)) with
  | Returns t => t
  | Raises => []
  end.

Definition sol_ring_synergy_cards : list FindBestCommanders.synergy_card :=
  match @FindBestCommanders.extract_synergy_cards ascii_text sample_repr
          sol_ring_page "Sol Ring" with
  | Returns l => l
  | Raises => []
  end.

(** ** The merge, row by row *)

(** [y] is the row [x], but for a source mark that may have become
    [both]. *)
Definition same_but_mark (x y : FindBestCommanders.flat_row) : Prop :=
  FindBestCommanders.fr_commander y = FindBestCommanders.fr_commander x /\
  FindBestCommanders.fr_card y = FindBestCommanders.fr_card x /\
  FindBestCommanders.fr_percent y = FindBestCommanders.fr_percent x /\
  FindBestCommanders.fr_scryfall y = FindBestCommanders.fr_scryfall x /\
  FindBestCommanders.fr_collections y = FindBestCommanders.fr_collections x /\
  (FindBestCommanders.fr_source y = FindBestCommanders.fr_source x \/
   FindBestCommanders.fr_source y = "both").

(** A row that the average decks add: an owned card of the average deck of
    one of the commanders, without percentage. *)
Definition added_row {U : PyLib} (fetch_average_deck : string -> list string)
    (inv_map : list (string * Z)) (inv_source_map : list (string * string))
    (df : list FindBestCommanders.commander_row)
    (r : FindBestCommanders.flat_row) : Prop :=
  FindBestCommanders.fr_source r = "average" /\
  FindBestCommanders.fr_percent r = None /\
  assoc_has (str_lower (FindBestCommanders.fr_card r)) inv_map = true /\
  FindBestCommanders.fr_collections r
  = FindBestCommanders.source_lookup inv_source_map
      (str_lower (FindBestCommanders.fr_card r)) /\
  exists row,
    In row df /\
    FindBestCommanders.fr_commander r = FindBestCommanders.cr_commander row /\
    In (FindBestCommanders.fr_card r)
      (fetch_average_deck (FindBestCommanders.cr_commander row)).

(** ** Themes *)

(** The cards of the list whose lower-cased name holds a keyword. *)
Definition theme_matches {U : PyLib} (keywords : list string)
    (flat_cards : list FindBestCommanders.flat_row) : list string :=
  map FindBestCommanders.fr_card
    (filter
       (fun r =>
          FindBestCommanders.has_keyword keywords
            (str_lower (FindBestCommanders.fr_card r)))
       flat_cards).

(** A row of the theme frame: the theme is one of the fifteen, the count
    is the number of matching cards and is at least 3, the examples are
    the first five of them, and the label follows the count. *)
Definition theme_row_ok {U : PyLib}
    (flat_cards : list FindBestCommanders.flat_row)
    (row : FindBestCommanders.theme_row) : Prop :=
  exists keywords,
    In (FindBestCommanders.th_theme row, keywords)
      FindBestCommanders.theme_keywords /\
    FindBestCommanders.th_detected row
    = Z.of_nat (List.length (theme_matches keywords flat_cards)) /\
    (3 <= FindBestCommanders.th_detected row)%Z /\
    FindBestCommanders.th_examples row
    = String.concat ", " (firstn 5 (theme_matches keywords flat_cards)) /\
    FindBestCommanders.th_potential row
    = (if (10 <=? FindBestCommanders.th_detected row)%Z then "Alto"
       else if (6 <=? FindBestCommanders.th_detected row)%Z then "Medio"
       else "Bajo").

Definition bump_score (keywords : list string) (card_name : string)
    (o : option Z) : option Z :=
  if FindBestCommanders.has_keyword keywords card_name
  then option_map (fun n => (n + 1)%Z) o else o.

Definition bump_cards (keywords : list string) (card card_name : string)
    (o : option (list string)) : option (list string) :=
  if FindBestCommanders.has_keyword keywords card_name
  then option_map
         (fun cs => if (List.length cs <? 10)%nat then (cs ++ [card])%list
                    else cs) o
  else o.

Definition sample_theme_cards : list FindBestCommanders.flat_row :=
  map (fun c =>
         {| FindBestCommanders.fr_commander := "Atraxa, Praetors' Voice";
            FindBestCommanders.fr_card := c;
            FindBestCommanders.fr_percent := None;
            FindBestCommanders.fr_scryfall := JNull;
            FindBestCommanders.fr_source := "edhrec";
            FindBestCommanders.fr_collections := EmptyString |})
    ["Treasure Map"; "Goblin Token Maker"; "Treasure Vault";
     "Elvish Mystic"; "Treasure Cruise"; "Dragon's Hoard"].

Definition sample_theme_frame : list FindBestCommanders.theme_row :=
  Eval vm_compute in @FindBestCommanders.theme_rows ascii_text sample_theme_cards.

(** ** The ranking of commanders *)

(** A card in the list of a ranked commander: a card of the inventory
    that is not a basic land, played with the commander in more than 20%
    of its decks. *)
Definition ranked_card_ok (inv_unique : list (string * string))
    (c : FindBestCommanders.stat_card) : Prop :=
  FindBestCommanders.stc_source c = "edhrec" /\
  2 # 10 < FindBestCommanders.stc_percent c /\
  exists lower,
    In (FindBestCommanders.stc_name c, lower) inv_unique /\
    str_in lower FindBestCommanders.BASIC_LANDS = false.

(** What the statistics of a commander hold while the inventory is
    read. *)
Definition commander_stat_ok (inv_unique : list (string * string))
    (kv : json * FindBestCommanders.commander_stat) : Prop :=
  FindBestCommanders.key_hashable (fst kv) = true /\
  FindBestCommanders.st_matches (snd kv)
  = Z.of_nat (List.length (FindBestCommanders.st_cards (snd kv))) /\
  FindBestCommanders.st_percent_count (snd kv)
  = FindBestCommanders.st_matches (snd kv) /\
  FindBestCommanders.st_percent_sum (snd kv)
  == Qsum (map FindBestCommanders.stc_percent
             (FindBestCommanders.st_cards (snd kv))) /\
  Forall (ranked_card_ok inv_unique) (FindBestCommanders.st_cards (snd kv)).

(** A row of the ranking: at least ten cards, as many as the row lists,
    and their mean percentage, which is above 20%. *)
Definition ranked_row_ok (inv_unique : list (string * string))
    (r : FindBestCommanders.ranked_row) : Prop :=
  FindBestCommanders.key_hashable (FindBestCommanders.rk_commander r)
  = true /\
  (FindBestCommanders.MIN_MATCHES <= FindBestCommanders.rk_matches r)%Z /\
  FindBestCommanders.rk_matches r
  = Z.of_nat (List.length (FindBestCommanders.rk_cards r)) /\
  Forall (ranked_card_ok inv_unique) (FindBestCommanders.rk_cards r) /\
  exists avg,
    FindBestCommanders.rk_avg_percent r = Some avg /\
    avg == Qsum (map FindBestCommanders.stc_percent
                   (FindBestCommanders.rk_cards r))
           / inject_Z (FindBestCommanders.rk_matches r) /\
    2 # 10 < avg.

(** A recommended pair: a card of the inventory that is not a basic land,
    and an owned card that its page lists with a synergy above 0.1. *)
Definition recommendation_ok {U : PyLib} (inv_unique : list (string * string))
    (inv_map : list (string * Z)) (r : FindBestCommanders.recommendation)
    : Prop :=
  FindBestCommanders.rec_both_owned r = true /\
  assoc_has (str_lower (FindBestCommanders.rec_synergy_card r)) inv_map
  = true /\
  1 # 10 < FindBestCommanders.rec_synergy_score r /\
  exists lower,
    In (FindBestCommanders.rec_card_owned r, lower) inv_unique /\
    str_in lower FindBestCommanders.BASIC_LANDS = false.

(** The order of the ranking: more cards first, and among commanders
    with as many cards the larger mean first. *)
Definition ranked_order (x y : FindBestCommanders.ranked_row) : Prop :=
  (FindBestCommanders.rk_matches y < FindBestCommanders.rk_matches x)%Z \/
  (FindBestCommanders.rk_matches x = FindBestCommanders.rk_matches y /\
   forall a b,
     FindBestCommanders.rk_avg_percent x = Some a ->
     FindBestCommanders.rk_avg_percent y = Some b -> b <= a).

Definition avg_ltb (x y : option Q) : bool :=
  match x, y with
  | Some a, Some b => Qgtb a b
  | Some _, None => true
  | None, _ => false
  end.

Definition avg_eqb (x y : option Q) : bool :=
  match x, y with
  | Some a, Some b => Qeq_bool a b
  | None, None => true
  | _, _ => false
  end.

(** A page on which a card is played with one commander in 30% of its
    decks, and an inventory of ten such cards. *)
Definition ten_cards : list (string * string) :=
  map (fun n => (String (ascii_of_nat (65 + n)) "-card",
                 String (ascii_of_nat (97 + n)) "-card"))
    (seq 0 10) ++ [("Forest", "forest")].

Definition atraxa_everywhere (slug : string) : response :=
  Response 200 (Some atraxa_page).

Definition sample_ranking
    : list FindBestCommanders.ranked_row
      * list FindBestCommanders.recommendation :=
  match @FindBestCommanders.analyze_inventory ascii_text sample_repr
          atraxa_everywhere ten_cards [] with
  | Returns r => r
  | Raises => ([], [])
  end.

(** * Proofs *)

(** ** Strings *)

Ltac by_ascii_cases c :=
  destruct c as [[] [] [] [] [] [] [] []]; vm_compute; congruence.

Lemma bind_returns {A : Type} (m : outcome A) :
  bind m (fun x => Returns x) = m.
Proof. destruct m; reflexivity. Qed.

Lemma is_hyphen_eq c : is_hyphen c = true -> c = "-"%char.
Proof. unfold is_hyphen. apply Ascii.eqb_eq. Qed.

Lemma prefix_cons a p c r :
  prefix (String a p) (String c r) = Ascii.eqb a c && prefix p r.
Proof.
  simpl. destruct (ascii_dec a c) as [->|n].
  - now rewrite Ascii.eqb_refl.
  - apply Ascii.eqb_neq in n. now rewrite n.
Qed.

Lemma prefix_empty s : prefix EmptyString s = true.
Proof. destruct s; reflexivity. Qed.

Lemma contains_cons p c r :
  contains p (String c r) = prefix p (String c r) || contains p r.
Proof. reflexivity. Qed.

Lemma str_app_assoc (a b c : string) : (a ++ b) ++ c = a ++ (b ++ c).
Proof. induction a as [|x a IH]; simpl; [reflexivity|now rewrite IH]. Qed.

Lemma str_app_empty_r (a : string) : a ++ EmptyString = a.
Proof. induction a as [|x a IH]; simpl; [reflexivity|now rewrite IH]. Qed.

Lemma str_forall_app p a b :
  str_forall p (a ++ b) = str_forall p a && str_forall p b.
Proof.
  induction a as [|x a IH]; simpl; [reflexivity|].
  now rewrite IH, andb_assoc.
Qed.

Lemma str_forall_impl (p q : ascii -> bool) s :
  (forall c, p c = true -> q c = true) ->
  str_forall p s = true -> str_forall q s = true.
Proof.
  intros Hpq. induction s as [|c r IH]; simpl; [auto|].
  intros H. apply andb_prop in H. destruct H as [Hc Hr].
  rewrite (Hpq _ Hc). simpl. auto.
Qed.

Lemma str_forall_true p s :
  (forall c, p c = true) -> str_forall p s = true.
Proof.
  intros H. induction s as [|c r IH]; simpl; [reflexivity|].
  now rewrite H, IH.
Qed.

(** *** [replace] *)

Lemma str_replace_absent a p new s :
  str_forall (fun c => negb (Ascii.eqb a c)) s = true ->
  str_replace (String a p) new s = s.
Proof.
  unfold str_replace.
  induction s as [|c r IH]; [reflexivity|].
  intros H. simpl in H. apply andb_prop in H. destruct H as [Hc Hr].
  cbn [replace_from]. rewrite prefix_cons.
  apply negb_true_iff in Hc. rewrite Hc. simpl. now rewrite IH.
Qed.

Lemma replace_char_cons a new c r :
  str_replace (String a EmptyString) new (String c r) =
  (if Ascii.eqb a c then new else String c EmptyString)
  ++ str_replace (String a EmptyString) new r.
Proof.
  unfold str_replace. cbn [replace_from]. rewrite prefix_cons, prefix_empty.
  rewrite andb_true_r. destruct (Ascii.eqb a c); reflexivity.
Qed.

Lemma replace_char_app a new x y :
  str_replace (String a EmptyString) new (x ++ y) =
  str_replace (String a EmptyString) new x
  ++ str_replace (String a EmptyString) new y.
Proof.
  induction x as [|c r IH]; [reflexivity|].
  cbn [append]. rewrite !replace_char_cons, IH, str_app_assoc. reflexivity.
Qed.

Lemma replace_char_forall a new p s :
  str_forall p new = true ->
  str_forall (fun c => Ascii.eqb a c || p c) s = true ->
  str_forall p (str_replace (String a EmptyString) new s) = true.
Proof.
  intros Hn. induction s as [|c r IH]; [reflexivity|].
  simpl str_forall. intros H. apply andb_prop in H. destruct H as [Hc Hr].
  rewrite replace_char_cons, str_forall_app, (IH Hr), andb_true_r.
  destruct (Ascii.eqb a c); [exact Hn|]. simpl in *. now rewrite Hc.
Qed.

Lemma replace_slug_chars a p new s :
  is_slug_char a = false ->
  str_forall is_slug_char s = true ->
  str_replace (String a p) new s = s.
Proof.
  intros Ha Hs. apply str_replace_absent.
  revert Hs. apply str_forall_impl. intros c Hc.
  apply negb_true_iff. destruct (Ascii.eqb a c) eqn:E; [|reflexivity].
  apply Ascii.eqb_eq in E. congruence.
Qed.

(** *** The regular expression of [slug] *)

Lemma sub_non_alnum_chars s : forall b,
  str_forall is_slug_char (sub_non_alnum b s) = true.
Proof.
  induction s as [|c r IH]; intros b; simpl; [reflexivity|].
  destruct (is_slug_alnum c) eqn:E.
  - simpl. unfold is_slug_char at 1. rewrite E. simpl. apply IH.
  - destruct b; [apply IH|]. simpl. apply IH.
Qed.

Lemma sub_non_alnum_in_run_start s :
  prefix "-" (sub_non_alnum true s) = false.
Proof.
  induction s as [|c r IH]; simpl; [reflexivity|].
  destruct (is_slug_alnum c) eqn:E; [|exact IH].
  rewrite prefix_cons. destruct (Ascii.eqb "-" c) eqn:F; [|reflexivity].
  apply Ascii.eqb_eq in F. subst c. discriminate E.
Qed.

Lemma sub_non_alnum_no_double s : forall b,
  contains "--" (sub_non_alnum b s) = false.
Proof.
  induction s as [|c r IH]; intros b; [reflexivity|].
  cbn [sub_non_alnum].
  destruct (is_slug_alnum c) eqn:E.
  - rewrite contains_cons, prefix_cons, IH.
    destruct (Ascii.eqb "-" c) eqn:F; [|reflexivity].
    apply Ascii.eqb_eq in F. subst c. discriminate E.
  - destruct b; [apply IH|].
    rewrite contains_cons, prefix_cons, IH, sub_non_alnum_in_run_start.
    reflexivity.
Qed.

Lemma sub_non_alnum_fixed s : forall b,
  str_forall is_slug_char s = true ->
  contains "--" s = false ->
  (b = true -> prefix "-" s = false) ->
  sub_non_alnum b s = s.
Proof.
  induction s as [|c r IH]; intros b Hs Hd Hb; [reflexivity|].
  simpl in Hs. apply andb_prop in Hs. destruct Hs as [Hc Hr].
  rewrite contains_cons in Hd. apply orb_false_elim in Hd.
  destruct Hd as [Hp Hd].
  cbn [sub_non_alnum]. destruct (is_slug_alnum c) eqn:E.
  - f_equal. apply IH; auto. discriminate.
  - unfold is_slug_char in Hc. rewrite E in Hc. simpl in Hc.
    apply is_hyphen_eq in Hc. subst c.
    destruct b.
    + specialize (Hb eq_refl).
      rewrite prefix_cons, prefix_empty, Ascii.eqb_refl in Hb.
      discriminate Hb.
    + f_equal. rewrite prefix_cons, Ascii.eqb_refl in Hp.
      apply IH; auto.
Qed.

(** *** [strip] *)

Lemma lstrip_forall p s :
  str_forall p s = true -> str_forall p (lstrip_hyphen s) = true.
Proof.
  induction s as [|c r IH]; simpl; [auto|].
  intros H. destruct (is_hyphen c); [|exact H].
  apply andb_prop in H. apply IH, H.
Qed.

Lemma lstrip_no_double s :
  contains "--" s = false -> contains "--" (lstrip_hyphen s) = false.
Proof.
  induction s as [|c r IH]; [auto|].
  intros H. cbn [lstrip_hyphen]. destruct (is_hyphen c); [|exact H].
  rewrite contains_cons in H. apply orb_false_elim in H. apply IH, H.
Qed.

Lemma lstrip_start s : prefix "-" (lstrip_hyphen s) = false.
Proof.
  induction s as [|c r IH]; [reflexivity|].
  cbn [lstrip_hyphen]. destruct (is_hyphen c) eqn:E; [exact IH|].
  rewrite prefix_cons. unfold is_hyphen in E.
  rewrite Ascii.eqb_sym, E. reflexivity.
Qed.

Lemma lstrip_fixed s : prefix "-" s = false -> lstrip_hyphen s = s.
Proof.
  destruct s as [|c r]; [reflexivity|].
  rewrite prefix_cons, prefix_empty, andb_true_r. intros H.
  cbn [lstrip_hyphen]. unfold is_hyphen. now rewrite Ascii.eqb_sym, H.
Qed.

Lemma rstrip_forall p s :
  str_forall p s = true -> str_forall p (rstrip_hyphen s) = true.
Proof.
  induction s as [|c r IH]; simpl; [auto|].
  intros H. apply andb_prop in H. destruct H as [Hc Hr].
  destruct (is_hyphen c && is_empty (rstrip_hyphen r)); [reflexivity|].
  simpl. rewrite Hc. apply IH, Hr.
Qed.

Lemma rstrip_start s :
  prefix "-" s = false -> prefix "-" (rstrip_hyphen s) = false.
Proof.
  destruct s as [|c r]; [auto|].
  cbn [rstrip_hyphen]. intros H.
  destruct (is_hyphen c && is_empty (rstrip_hyphen r)); [reflexivity|].
  rewrite prefix_cons in *. rewrite prefix_empty in *. exact H.
Qed.

Lemma rstrip_no_double s :
  contains "--" s = false -> contains "--" (rstrip_hyphen s) = false.
Proof.
  induction s as [|c r IH]; [auto|].
  intros H. cbn [rstrip_hyphen].
  destruct (is_hyphen c && is_empty (rstrip_hyphen r)); [reflexivity|].
  rewrite contains_cons in H. apply orb_false_elim in H. destruct H as [H1 H2].
  rewrite contains_cons, (IH H2), orb_false_r.
  rewrite prefix_cons in *.
  destruct (Ascii.eqb "-" c); [|reflexivity]. simpl in *.
  destruct (prefix "-" (rstrip_hyphen r)) eqn:E; [|reflexivity].
  destruct (prefix "-" r) eqn:F; [discriminate H1|].
  apply rstrip_start in F. congruence.
Qed.

Lemma rstrip_end s : str_endswith_char "-" (rstrip_hyphen s) = false.
Proof.
  induction s as [|c r IH]; [reflexivity|].
  cbn [rstrip_hyphen].
  destruct (is_hyphen c) eqn:E; simpl.
  - destruct (rstrip_hyphen r) eqn:F; [reflexivity|]. simpl. exact IH.
  - destruct (rstrip_hyphen r) eqn:F; [exact E|]. exact IH.
Qed.

Lemma rstrip_fixed s : str_endswith_char "-" s = false -> rstrip_hyphen s = s.
Proof.
  induction s as [|c r IH]; [reflexivity|].
  intros H. cbn [rstrip_hyphen].
  destruct r as [|c' r'].
  - simpl in *. unfold is_hyphen. now rewrite H.
  - rewrite IH by exact H. rewrite andb_false_r. reflexivity.
Qed.

(** *** [slug] *)

Section SlugProperties.
Context {U : PyLib}.

Lemma slug_is_shaped x : slug_shaped (Shared.slug x).
Proof.
  unfold Shared.slug, strip_hyphen.
  set (t := sub_non_alnum false _).
  repeat split.
  - apply rstrip_forall, lstrip_forall, sub_non_alnum_chars.
  - apply rstrip_start, lstrip_start.
  - apply rstrip_end.
  - apply rstrip_no_double, lstrip_no_double, sub_non_alnum_no_double.
Qed.

(** What the Unicode tables do to text that is already in the slug
    alphabet: nothing. *)
Hypothesis NFD_slug_chars :
  forall y, str_forall is_slug_char y = true -> normalize_NFD y = y.
Hypothesis Mn_slug_chars :
  forall y, str_forall is_slug_char y = true -> drop_Mn y = y.
Hypothesis lower_slug_chars :
  forall y, str_forall is_slug_char y = true -> str_lower y = y.

Lemma slug_fixes_shaped y : slug_shaped y -> Shared.slug y = y.
Proof.
  intros (Hc & Hs & He & Hd). unfold Shared.slug.
  rewrite NFD_slug_chars, Mn_slug_chars, lower_slug_chars by exact Hc.
  unfold mojibake_quote.
  repeat (rewrite (replace_slug_chars _ _ _ y); [ | reflexivity | exact Hc ]).
  rewrite sub_non_alnum_fixed by (auto; discriminate).
  unfold strip_hyphen. rewrite lstrip_fixed by exact Hs.
  apply rstrip_fixed, He.
Qed.

(** C7: [slug] is idempotent, and a slug holds only characters of
    [[a-z0-9-]], neither starts nor ends with a hyphen, and has no two
    hyphens in a row.  Idempotence uses that NFD normalisation, the removal
    of combining marks and lower-casing leave text of the slug alphabet
    unchanged; the shape of the output holds for any Unicode tables. *)
Theorem slug_idempotent_and_shaped x :
  Shared.slug (Shared.slug x) = Shared.slug x /\
  str_forall is_slug_char (Shared.slug x) = true /\
  prefix "-" (Shared.slug x) = false /\
  str_endswith_char "-" (Shared.slug x) = false /\
  contains "--" (Shared.slug x) = false.
Proof.
  split; [apply slug_fixes_shaped, slug_is_shaped | apply slug_is_shaped].
Qed.

End SlugProperties.

Lemma ascii_lower_slug_chars y :
  str_forall is_slug_char y = true -> str_map ascii_lower y = y.
Proof.
  induction y as [|c r IH]; [reflexivity|].
  simpl. intros H. apply andb_prop in H. destruct H as [Hc Hr].
  rewrite (IH Hr). f_equal. revert Hc. by_ascii_cases c.
Qed.

Lemma slug_idempotent_and_shaped_witness :
  @Shared.slug ascii_text (@Shared.slug ascii_text "Atraxa, Praetors' Voice")
    = @Shared.slug ascii_text "Atraxa, Praetors' Voice" /\
  str_forall is_slug_char (@Shared.slug ascii_text "Atraxa, Praetors' Voice")
    = true /\
  prefix "-" (@Shared.slug ascii_text "Atraxa, Praetors' Voice") = false /\
  str_endswith_char "-" (@Shared.slug ascii_text "Atraxa, Praetors' Voice")
    = false /\
  contains "--" (@Shared.slug ascii_text "Atraxa, Praetors' Voice") = false.
Proof.
  apply (@slug_idempotent_and_shaped ascii_text
           (fun y _ => eq_refl) (fun y _ => eq_refl) ascii_lower_slug_chars).
Defined.

Example slug_atraxa :
  @Shared.slug ascii_text "Atraxa, Praetors' Voice" = "atraxa-praetors-voice".
Proof. reflexivity. Qed.

Example slug_empty : @Shared.slug ascii_text EmptyString = EmptyString.
Proof. reflexivity. Qed.

(** *** The label sanitizers *)

Lemma sanitize_unfold s :
  AddCollectionTags.sanitize_collection_name s =
  String.concat "_" (str_split (clean_label s)).
Proof. reflexivity. Qed.

Lemma clean_label_app x y :
  clean_label (x ++ y) = clean_label x ++ clean_label y.
Proof. unfold clean_label. now rewrite !replace_char_app. Qed.

Lemma clean_label_keeps s :
  str_forall is_kept s = true -> clean_label s = s.
Proof.
  intros H. unfold clean_label.
  repeat (rewrite (str_replace_absent _ _ _ s);
          [ | revert H; apply str_forall_impl; intros c; by_ascii_cases c ]).
  reflexivity.
Qed.

Lemma clean_label_chars s : str_forall is_kept (clean_label s) = true.
Proof.
  unfold clean_label.
  repeat (apply replace_char_forall; [ reflexivity | ]).
  apply str_forall_true. intros c. by_ascii_cases c.
Qed.

Lemma concat_chars p sep l :
  str_forall p sep = true ->
  Forall (fun w => str_forall p w = true) l ->
  str_forall p (String.concat sep l) = true.
Proof.
  intros Hsep. induction 1 as [|w l Hw Hl IH]; [reflexivity|].
  cbn [String.concat]. destruct l as [|w' l']; [exact Hw|].
  rewrite !str_forall_app, Hw, Hsep. exact IH.
Qed.

Lemma is_empty_app a b : is_empty a = false -> is_empty (a ++ b) = false.
Proof. destruct a; simpl; congruence. Qed.

(** **** Where a white space character begins *)

Lemma prefix_app_r w : forall t s,
  prefix w t = true -> prefix w (t ++ s) = true.
Proof.
  induction w as [|a w IH]; intros t s H; [apply prefix_empty|].
  destruct t as [|c r]; [discriminate|].
  cbn [append]. rewrite prefix_cons in *.
  apply andb_prop in H. destruct H as [-> H]. now rewrite (IH _ _ H).
Qed.

(** A pattern that begins [t ++ s] lies in [t], or runs over its end. *)
Lemma prefix_straddle w : forall t s,
  prefix w (t ++ s) = true ->
  prefix w t = true \/
  exists w2, w = t ++ w2 /\ is_empty w2 = false /\ prefix w2 s = true.
Proof.
  induction w as [|a w IH]; intros t s H; [left; apply prefix_empty|].
  destruct t as [|c r].
  - right. exists (String a w). auto.
  - cbn [append] in H. rewrite prefix_cons in H.
    apply andb_prop in H. destruct H as [Ea Hp].
    apply Ascii.eqb_eq in Ea. subst c.
    destruct (IH r s Hp) as [L|(w2 & -> & N & P)].
    + left. now rewrite prefix_cons, Ascii.eqb_refl, L.
    + right. exists w2. auto.
Qed.

Lemma forallb_negb {A : Type} (f : A -> bool) l :
  forallb (fun x => negb (f x)) l = negb (existsb f l).
Proof.
  induction l as [|x l IH]; [reflexivity|].
  cbn [forallb existsb]. rewrite IH. now destruct (f x), (existsb f l).
Qed.

Lemma forallb_andb {A : Type} (f g : A -> bool) l :
  forallb (fun x => f x && g x) l = forallb f l && forallb g l.
Proof.
  induction l as [|x l IH]; [reflexivity|].
  cbn [forallb]. rewrite IH.
  destruct (f x), (g x), (forallb f l), (forallb g l); reflexivity.
Qed.

Lemma forallb_pointwise {A : Type} (f g : A -> bool) l :
  (forall x, f x = g x) -> forallb f l = forallb g l.
Proof.
  intros H. induction l as [|x l IH]; [reflexivity|].
  cbn [forallb]. now rewrite H, IH.
Qed.

Lemma find_width l s :
  forallb (fun w => negb (is_empty w)) l = true ->
  Nat.eqb match find (fun w => prefix w s) l with
          | Some w => String.length w
          | None => 0%nat
          end 0
  = negb (existsb (fun w => prefix w s) l).
Proof.
  induction l as [|w l IH]; [reflexivity|]. cbn [forallb find existsb].
  intros H. apply andb_prop in H. destruct H as [Hw Hl].
  destruct (prefix w s); [|now apply IH].
  destruct w; [discriminate|reflexivity].
Qed.

(** Every wide white space character is a lead byte that is no ASCII
    white space, followed by continuation bytes. *)
Lemma wide_spaces_shape :
  forallb
    (fun w =>
       match w with
       | EmptyString => false
       | String c t => negb (is_space c) && str_forall is_continuation t
       end)
    wide_spaces = true.
Proof. vm_compute. reflexivity. Qed.

Lemma wide_spaces_not_empty :
  forallb (fun w => negb (is_empty w)) wide_spaces = true.
Proof. vm_compute. reflexivity. Qed.

Lemma space_width_zero c r :
  Nat.eqb (space_width (String c r)) 0
  = negb (is_space c)
    && negb (existsb (fun w => prefix w (String c r)) wide_spaces).
Proof.
  unfold space_width. destruct (is_space c); [reflexivity|].
  cbn [negb andb]. apply find_width, wide_spaces_not_empty.
Qed.

Lemma white_chars_split :
  white_chars
  = (map (fun n => String (ascii_of_N n) EmptyString)
       [9; 10; 11; 12; 13; 28; 29; 30; 31; 32]%N ++ wide_spaces)%list.
Proof. vm_compute. reflexivity. Qed.

Lemma ascii_white c r :
  existsb (fun ch => prefix ch (String c r))
    (map (fun n => String (ascii_of_N n) EmptyString)
       [9; 10; 11; 12; 13; 28; 29; 30; 31; 32]%N)
  = is_space c.
Proof.
  cbn [map existsb]. rewrite !prefix_cons, !prefix_empty, !andb_true_r.
  by_ascii_cases c.
Qed.

(** The white space characters of the specification are the ones the
    split looks for. *)
Lemma white_at s :
  forallb (fun ch => negb (prefix ch s)) white_chars
  = Nat.eqb (space_width s) 0.
Proof.
  destruct s as [|c r]; [vm_compute; reflexivity|].
  rewrite space_width_zero, forallb_negb, white_chars_split, existsb_app.
  rewrite ascii_white. now destruct (is_space c).
Qed.

Lemma no_white_free w : no_white w = white_free w.
Proof.
  unfold no_white, white_free.
  induction w as [|c r IH]; [vm_compute; reflexivity|].
  cbn [white_free_before]. rewrite str_app_empty_r, <- IH, <- white_at.
  rewrite <- forallb_andb. apply forallb_pointwise. intros ch.
  rewrite contains_cons. now destruct (prefix ch (String c r)).
Qed.

(** A white space character at the head of a text is seen with its
    width. *)
Lemma white_char_width ch s :
  is_white ch = true ->
  exists c p,
    ch = String c p /\ space_width (ch ++ s) = S (String.length p).
Proof.
  intros H. unfold is_white in H. apply existsb_exists in H.
  destruct H as (x & Hin & Heq). apply String.eqb_eq in Heq. subst x.
  cbv in Hin.
  repeat (destruct Hin as [<-|Hin];
          [eexists _, _; split;
           [reflexivity|destruct s; vm_compute; reflexivity]|]).
  destruct Hin.
Qed.

Lemma white_char_chars ch :
  is_white ch = true ->
  str_forall is_kept ch = true /\ is_empty ch = false /\
  forall s, text_start (ch ++ s) = true.
Proof.
  intros H. unfold is_white in H. apply existsb_exists in H.
  destruct H as (x & Hin & Heq). apply String.eqb_eq in Heq. subst x.
  cbv in Hin.
  repeat (destruct Hin as [<-|Hin];
          [split; [|split]; [vm_compute; reflexivity ..|intros s; reflexivity]
          |]).
  destruct Hin.
Qed.

(** **** The split *)

Lemma split_from_skip p : forall cur s,
  split_from (String.length p) cur (p ++ s) = split_from 0 cur s.
Proof.
  induction p as [|c p IH]; intros cur s; [reflexivity|].
  cbn [String.length append split_from]. apply IH.
Qed.

Lemma split_from_white ch cur s :
  is_white ch = true ->
  split_from 0 cur (ch ++ s)
  = ((if is_empty cur then [] else [cur]) ++ split_from 0 EmptyString s)%list.
Proof.
  intros H. destruct (white_char_width ch s H) as (c & p & -> & W).
  cbn [append] in *. cbn [split_from]. rewrite W, split_from_skip.
  now destruct (is_empty cur).
Qed.

Lemma concat_empty_cons a l s :
  String.concat EmptyString (a :: l) ++ s
  = a ++ (String.concat EmptyString l ++ s).
Proof.
  destruct l as [|b l]; [reflexivity|].
  cbn [String.concat]. now rewrite str_app_assoc.
Qed.

Lemma split_from_run seps : forall cur s,
  forallb is_white seps = true -> seps <> [] ->
  split_from 0 cur (String.concat EmptyString seps ++ s)
  = ((if is_empty cur then [] else [cur]) ++ split_from 0 EmptyString s)%list.
Proof.
  induction seps as [|ch l IH]; intros cur s H N; [congruence|].
  cbn [forallb] in H. apply andb_prop in H. destruct H as [Hc Hl].
  rewrite concat_empty_cons, (split_from_white _ _ _ Hc).
  destruct l as [|b l']; [reflexivity|].
  rewrite (IH EmptyString s Hl) by discriminate. reflexivity.
Qed.

Lemma split_from_word w : forall cur s,
  white_free_before w s = true ->
  split_from 0 cur (w ++ s) = split_from 0 (cur ++ w) s.
Proof.
  induction w as [|c r IH]; intros cur s H.
  - cbn [append]. now rewrite str_app_empty_r.
  - cbn [white_free_before] in H. apply andb_prop in H.
    destruct H as [W Hr]. apply Nat.eqb_eq in W.
    cbn [append] in *. cbn [split_from]. rewrite W, (IH _ _ Hr).
    now rewrite str_app_assoc.
Qed.

Lemma split_single w :
  is_empty w = false -> white_free w = true -> str_split w = [w].
Proof.
  intros Hne Hw. unfold str_split.
  rewrite <- (str_app_empty_r w) at 1.
  rewrite split_from_word by exact Hw. cbn. now rewrite Hne.
Qed.

(** Every character of a word of the split is a character of the
    input. *)
Lemma split_from_chars p s : forall skip cur,
  str_forall p cur = true -> str_forall p s = true ->
  Forall (fun w => str_forall p w = true) (split_from skip cur s).
Proof.
  induction s as [|c r IH]; intros skip cur Hcur Hs.
  - cbn. destruct (is_empty cur); constructor; auto.
  - simpl in Hs. apply andb_prop in Hs. destruct Hs as [Hc Hr].
    cbn [split_from]. destruct skip as [|k]; [|now apply IH].
    destruct (space_width (String c r)).
    + apply IH; [|exact Hr]. rewrite str_forall_app, Hcur. simpl.
      now rewrite Hc.
    + destruct (is_empty cur); [now apply IH|].
      constructor; [exact Hcur|now apply IH].
Qed.

(** **** No word of the split holds white space *)

Lemma space_width_app_mono c r s :
  space_width (String c r ++ s) = 0%nat -> space_width (String c r) = 0%nat.
Proof.
  intros H. apply Nat.eqb_eq in H. apply Nat.eqb_eq.
  cbn [append] in H. rewrite space_width_zero in *.
  apply andb_prop in H. destruct H as [-> H]. cbn [andb].
  apply negb_true_iff in H. apply negb_true_iff.
  destruct (existsb (fun w => prefix w (String c r)) wide_spaces) eqn:E;
    [|reflexivity].
  apply existsb_exists in E. destruct E as (w & Hw & Hp).
  rewrite <- H. symmetry. apply existsb_exists. exists w.
  split; [exact Hw|]. apply (prefix_app_r w (String c r) s Hp).
Qed.

Lemma white_free_before_weaken w s :
  white_free_before w s = true -> white_free w = true.
Proof.
  unfold white_free. induction w as [|c r IH]; [reflexivity|].
  cbn [white_free_before]. intros H. apply andb_prop in H.
  destruct H as [W Hr]. apply Nat.eqb_eq in W.
  rewrite (IH Hr), andb_true_r, str_app_empty_r. apply Nat.eqb_eq.
  now apply (space_width_app_mono c r s).
Qed.

Lemma white_free_before_snoc cur c r :
  white_free_before cur (String c r) = true ->
  space_width (String c r) = 0%nat ->
  white_free_before (cur ++ String c EmptyString) r = true.
Proof.
  intros H W. induction cur as [|x cur IH].
  - cbn [append white_free_before]. now rewrite W.
  - cbn [append white_free_before] in *. apply andb_prop in H.
    destruct H as [Hx Hc]. rewrite (IH Hc), andb_true_r.
    rewrite str_app_assoc. exact Hx.
Qed.

Lemma split_from_free s : forall skip cur,
  white_free_before cur s = true -> (skip <> 0%nat -> cur = EmptyString) ->
  Forall (fun w => white_free w = true) (split_from skip cur s).
Proof.
  induction s as [|c r IH]; intros skip cur H Hs.
  - cbn. destruct (is_empty cur); constructor; [exact H|constructor].
  - cbn [split_from]. destruct skip as [|k].
    + destruct (space_width (String c r)) as [|k] eqn:W.
      * apply IH; [now apply white_free_before_snoc|congruence].
      * destruct (is_empty cur); [now apply IH|].
        constructor; [now apply (white_free_before_weaken _ _ H)|].
        now apply IH.
    + rewrite (Hs ltac:(discriminate)). now apply IH.
Qed.

Lemma white_free_before_app a b s :
  white_free_before (a ++ b) s
  = white_free_before a (b ++ s) && white_free_before b s.
Proof.
  induction a as [|c a IH]; [reflexivity|].
  cbn [append white_free_before]. rewrite IH, str_app_assoc.
  now rewrite andb_assoc.
Qed.

(** A white space character cannot end in a text that follows. *)
Lemma white_free_cont a s :
  white_free a = true -> text_start s = true ->
  white_free_before a s = true.
Proof.
  unfold white_free. intros H Hs. induction a as [|c r IH]; [reflexivity|].
  cbn [white_free_before] in *. apply andb_prop in H. destruct H as [W Hr].
  rewrite (IH Hr), andb_true_r. rewrite str_app_empty_r in W.
  cbn [append]. rewrite space_width_zero in *.
  apply andb_prop in W. destruct W as [-> W]. cbn [andb].
  apply negb_true_iff in W. apply negb_true_iff.
  destruct (existsb (fun w => prefix w (String c (r ++ s))) wide_spaces)
    eqn:E; [|reflexivity].
  apply existsb_exists in E. destruct E as (w & Hw & Hp).
  destruct (prefix_straddle w (String c r) s Hp) as [L|(w2 & -> & N & P)].
  - rewrite <- W. symmetry. apply existsb_exists. now exists w.
  - pose proof wide_spaces_shape as Sh. rewrite forallb_forall in Sh.
    specialize (Sh _ Hw). cbn [append] in Sh.
    apply andb_prop in Sh. destruct Sh as [_ Sh].
    rewrite str_forall_app in Sh. apply andb_prop in Sh.
    destruct Sh as [_ Sh]. destruct w2 as [|c2 w2]; [discriminate|].
    destruct s as [|c' s]; [discriminate|].
    rewrite prefix_cons in P. apply andb_prop in P. destruct P as [Ec _].
    apply Ascii.eqb_eq in Ec. subst c'. cbn in Sh, Hs.
    apply andb_prop in Sh. destruct Sh as [Sh _].
    unfold is_continuation in *. rewrite Sh in Hs. discriminate.
Qed.

Lemma white_free_join a b :
  white_free a = true -> white_free b = true ->
  white_free (a ++ "_" ++ b) = true.
Proof.
  intros Ha Hb. unfold white_free. rewrite white_free_before_app.
  rewrite (white_free_cont a _ Ha) by reflexivity.
  cbn [append white_free_before andb]. fold (white_free b). rewrite Hb.
  rewrite andb_true_r. vm_compute. reflexivity.
Qed.

Lemma white_free_concat l :
  Forall (fun w => white_free w = true) l ->
  white_free (String.concat "_" l) = true.
Proof.
  induction 1 as [|w l Hw Hl IH]; [reflexivity|].
  cbn [String.concat]. destruct l as [|w' l']; [exact Hw|].
  now apply white_free_join.
Qed.

Lemma sanitize_chars s :
  str_forall is_kept (AddCollectionTags.sanitize_collection_name s) = true /\
  no_white (AddCollectionTags.sanitize_collection_name s) = true.
Proof.
  rewrite sanitize_unfold, no_white_free. split.
  - apply concat_chars; [reflexivity|].
    apply split_from_chars; [reflexivity|apply clean_label_chars].
  - apply white_free_concat, split_from_free; [reflexivity|congruence].
Qed.

Lemma plain_word_inv w :
  plain_word w = true ->
  is_empty w = false /\ str_forall is_kept w = true /\ white_free w = true.
Proof.
  unfold plain_word. intros H. apply andb_prop in H. destruct H as [H H3].
  apply andb_prop in H. destruct H as [H1 H2].
  apply negb_true_iff in H1. rewrite no_white_free in H3. auto.
Qed.

Lemma white_run_chars seps :
  forallb is_white seps = true ->
  str_forall is_kept (String.concat EmptyString seps) = true.
Proof.
  intros H. apply concat_chars; [reflexivity|].
  apply Forall_forall. intros ch Hin. rewrite forallb_forall in H.
  apply (white_char_chars ch (H _ Hin)).
Qed.

Lemma white_run_start seps s :
  forallb is_white seps = true -> seps <> [] ->
  text_start (String.concat EmptyString seps ++ s) = true.
Proof.
  destruct seps as [|ch l]; [congruence|]. intros H _.
  cbn [forallb] in H. apply andb_prop in H. destruct H as [Hc _].
  rewrite concat_empty_cons. apply (white_char_chars ch Hc).
Qed.

(** A run of white space between two words becomes one underscore. *)
Lemma sanitize_separator w1 w2 seps :
  plain_word w1 = true -> plain_word w2 = true ->
  forallb is_white seps = true -> seps <> [] ->
  AddCollectionTags.sanitize_collection_name
    (w1 ++ String.concat EmptyString seps ++ w2)
  = w1 ++ "_" ++ w2.
Proof.
  intros H1 H2 Hs Hn.
  destruct (plain_word_inv _ H1) as (N1 & K1 & F1).
  destruct (plain_word_inv _ H2) as (N2 & K2 & F2).
  rewrite sanitize_unfold, !clean_label_app.
  rewrite (clean_label_keeps w1), (clean_label_keeps w2),
    (clean_label_keeps (String.concat EmptyString seps))
    by (assumption || now apply white_run_chars).
  unfold str_split.
  rewrite split_from_word
    by (apply white_free_cont; [exact F1|now apply white_run_start]).
  cbn [append]. rewrite split_from_run by assumption. rewrite N1.
  cbn [app]. fold (str_split w2). rewrite split_single by assumption.
  reflexivity.
Qed.

(** White space around a word is dropped. *)
Lemma sanitize_trims w seps1 seps2 :
  plain_word w = true ->
  forallb is_white seps1 = true -> forallb is_white seps2 = true ->
  AddCollectionTags.sanitize_collection_name
    (String.concat EmptyString seps1 ++ w ++ String.concat EmptyString seps2)
  = w.
Proof.
  intros H S1 S2.
  destruct (plain_word_inv _ H) as (N & K & F).
  rewrite sanitize_unfold, !clean_label_app.
  rewrite (clean_label_keeps w), !(clean_label_keeps (String.concat _ _))
    by (assumption || now apply white_run_chars).
  unfold str_split.
  assert (split_from 0 EmptyString
            (String.concat EmptyString seps1
             ++ w ++ String.concat EmptyString seps2)
          = split_from 0 EmptyString
              (w ++ String.concat EmptyString seps2)) as ->.
  { destruct seps1 as [|ch l]; [reflexivity|].
    now rewrite split_from_run by (assumption || discriminate). }
  destruct seps2 as [|ch l].
  - cbn [String.concat]. rewrite split_from_word by exact F.
    cbn. now rewrite N.
  - remember (ch :: l) as seps eqn:E.
    assert (seps <> []) as Hn by (subst seps; discriminate).
    rewrite <- (str_app_empty_r (String.concat EmptyString seps)).
    rewrite split_from_word
      by (apply white_free_cont; [exact F|now apply white_run_start]).
    cbn [append]. rewrite split_from_run by assumption.
    now rewrite N.
Qed.

(** A slash or a hyphen between two words becomes an underscore; a comma,
    an apostrophe or a colon disappears. *)
Lemma sanitize_char w1 w2 c :
  plain_word w1 = true -> plain_word w2 = true ->
  is_removed c || is_slash_or_hyphen c = true ->
  (is_removed c = true -> text_start w2 = true) ->
  AddCollectionTags.sanitize_collection_name (w1 ++ String c w2)
    = if is_removed c then w1 ++ w2 else w1 ++ "_" ++ w2.
Proof.
  intros H1 H2 Hc Ht.
  destruct (plain_word_inv _ H1) as (N1 & K1 & F1).
  destruct (plain_word_inv _ H2) as (N2 & K2 & F2).
  rewrite sanitize_unfold.
  change (String c w2) with (String c EmptyString ++ w2).
  rewrite !clean_label_app.
  rewrite (clean_label_keeps w1), (clean_label_keeps w2) by assumption.
  assert (clean_label (String c EmptyString)
          = if is_removed c then EmptyString else "_") as ->.
  { revert Hc. clear. by_ascii_cases c. }
  destruct (is_removed c).
  - cbn [append]. rewrite split_single;
      [ reflexivity | now apply is_empty_app | ].
    unfold white_free. rewrite white_free_before_app.
    fold (white_free w2). rewrite F2, andb_true_r.
    apply white_free_cont; [exact F1|].
    rewrite str_app_empty_r. now apply Ht.
  - rewrite split_single;
      [ reflexivity | now apply is_empty_app | now apply white_free_join ].
Qed.

(** C9, as stated, fails on its own example: the period of the label is
    kept. *)
Lemma sanitize_example_is_not_the_stated_tag :
  String.eqb
    (AddCollectionTags.sanitize_collection_name "Commander's Precons, Vol. 2")
    "Commanders_Precons_Vol_2" = false.
Proof. vm_compute. reflexivity. Qed.

(** C9, amended: sanitization removes commas, apostrophes and colons, turns
    each slash and each hyphen into an underscore, turns every run of
    white space between two words into one underscore and drops white
    space at the ends; no comma, apostrophe, colon, slash, hyphen or white
    space is left in a tag; the period is kept, so the example label
    becomes [Commanders_Precons_Vol._2].  White space is what Python's
    [split()] takes for it, the characters beyond ASCII included; a word
    holds none, and where a removed character joins two words the second
    one begins with a whole character. *)
Theorem sanitize_collection_name_amended :
  AddCollectionTags.sanitize_collection_name "Commander's Precons, Vol. 2"
    = "Commanders_Precons_Vol._2" /\
  (forall s,
     str_forall is_kept (AddCollectionTags.sanitize_collection_name s)
       = true /\
     no_white (AddCollectionTags.sanitize_collection_name s) = true) /\
  (forall w1 w2 seps,
     plain_word w1 = true -> plain_word w2 = true ->
     forallb is_white seps = true -> seps <> [] ->
     AddCollectionTags.sanitize_collection_name
       (w1 ++ String.concat EmptyString seps ++ w2)
       = w1 ++ "_" ++ w2 /\
     AddCollectionTags.sanitize_collection_name
       (String.concat EmptyString seps ++ w1
        ++ String.concat EmptyString seps) = w1) /\
  (forall w1 w2 c,
     plain_word w1 = true -> plain_word w2 = true ->
     (is_slash_or_hyphen c = true ->
      AddCollectionTags.sanitize_collection_name (w1 ++ String c w2)
        = w1 ++ "_" ++ w2) /\
     (is_removed c = true -> text_start w2 = true ->
      AddCollectionTags.sanitize_collection_name (w1 ++ String c w2)
        = w1 ++ w2)).
Proof.
  split; [vm_compute; reflexivity|]. split; [exact sanitize_chars|]. split.
  - intros w1 w2 seps H1 H2 Hs Hn. split.
    + now apply sanitize_separator.
    + now apply sanitize_trims.
  - intros w1 w2 c H1 H2. split.
    + intros Hc.
      assert (is_removed c = false) as Hr by (revert Hc; by_ascii_cases c).
      rewrite sanitize_char
        by (assumption || (now rewrite Hc, orb_true_r) || congruence).
      now rewrite Hr.
    + intros Hc Ht.
      rewrite sanitize_char by (assumption || (now rewrite Hc) || auto).
      now rewrite Hc.
Qed.

Lemma sanitize_collection_name_amended_witness :
  AddCollectionTags.sanitize_collection_name
    ("Vol." ++ String.concat EmptyString [" "; bytes [194; 160]%N] ++ "2")
    = "Vol." ++ "_" ++ "2" /\
  AddCollectionTags.sanitize_collection_name ("Set" ++ String "/" "A")
    = "Set" ++ "_" ++ "A" /\
  AddCollectionTags.sanitize_collection_name ("Vol" ++ String ":" "2")
    = "Vol" ++ "2".
Proof.
  pose proof sanitize_collection_name_amended as (_ & _ & Hsep & Hchar).
  split; [|split].
  - apply (proj1 (Hsep "Vol." "2" [" "; bytes [194; 160]%N]
                    eq_refl eq_refl eq_refl ltac:(discriminate))).
  - apply (proj1 (Hchar "Set" "A" "/"%char eq_refl eq_refl) eq_refl).
  - apply (proj2 (Hchar "Vol" "2" ":"%char eq_refl eq_refl) eq_refl eq_refl).
Defined.

(** A no-break space (U+00A0) and an em space (U+2003) split a label as a
    blank does; a zero-width space (U+200B) does not. *)
Example sanitize_splits_at_wide_spaces :
  AddCollectionTags.sanitize_collection_name
    ("A" ++ bytes [194; 160]%N ++ "B C" ++ bytes [226; 128; 131]%N ++ "D")
  = "A_B_C_D" /\
  AddCollectionTags.sanitize_collection_name
    ("A" ++ bytes [226; 128; 139]%N ++ "B")
  = "A" ++ bytes [226; 128; 139]%N ++ "B".
Proof. split; vm_compute; reflexivity. Qed.

(** C10: the two sanitizers are the same function. *)
Theorem sanitizers_agree (s : string) :
  AddCollectionTags.sanitize_collection_name s
    = FindBestCommanders.sanitize_commander_name s.
Proof. reflexivity. Qed.

Corollary sanitize_commander_name_example :
  FindBestCommanders.sanitize_commander_name "Atraxa, Praetors' Voice"
    = "Atraxa_Praetors_Voice".
Proof. reflexivity. Qed.

(** ** The payload walks *)

Section Walks.
Context {U : PyLib}.

(** *** The colour identity walk is capped *)

Lemma find_color_identity_cap t d :
  (10 < d)%nat -> CompleteDeck.find_color_identity t d = JNull.
Proof.
  intros H. apply Nat.ltb_lt in H.
  destruct t; simpl; rewrite H; reflexivity.
Qed.

Lemma find_color_identity_nest t : forall n d,
  (10 < d + n)%nat -> CompleteDeck.find_color_identity (nest n t) d = JNull.
Proof.
  induction n as [|k IH]; intros d H.
  - apply find_color_identity_cap. lia.
  - cbn [nest CompleteDeck.find_color_identity].
    destruct (10 <? d)%nat; [reflexivity|].
    rewrite IH by lia. reflexivity.
Qed.

Lemma find_color_identity_absent t : forall d,
  has_color_field t = false -> CompleteDeck.find_color_identity t d = JNull.
Proof.
  unfold has_color_field.
  induction t as [| | | |l IH|fs IH] using json_nested_ind; intros depth H;
    try (simpl; destruct (10 <? depth)%nat; reflexivity).
  - cbn [CompleteDeck.find_color_identity].
    destruct (10 <? depth)%nat; [reflexivity|].
    simpl in H. revert H.
    induction IH as [|x r Hx Hr IHr]; intros H; [reflexivity|].
    rewrite existsb_app in H. apply orb_false_elim in H.
    destruct H as [H1 H2]. rewrite (Hx _ H1). simpl. apply IHr, H2.
  - cbn [CompleteDeck.find_color_identity].
    destruct (10 <? depth)%nat; [reflexivity|].
    cbn [dict_nodes existsb] in H. apply orb_false_elim in H.
    destruct H as [Hd H]. apply orb_false_elim in Hd. destruct Hd as [Hc Hl].
    unfold dict_has in Hc.
    destruct (dict_find "coloridentity" fs); [discriminate|].
    assert (Hloop :
      (fix values (vs : list (string * json)) : json :=
         match vs with
         | [] => JNull
         | (_, v) :: r =>
             if truthy (CompleteDeck.find_color_identity v (depth + 1))
             then CompleteDeck.find_color_identity v (depth + 1)
             else values r
         end) fs = JNull).
    { clear Hl. revert H.
      induction IH as [|[k v] r Hx Hr IHr]; intros H; [reflexivity|].
      rewrite existsb_app in H. apply orb_false_elim in H.
      destruct H as [H1 H2]. simpl in Hx. rewrite (Hx _ H1). simpl.
      apply IHr, H2. }
    destruct (dict_find "colors" fs) as [[| | | |l|]|]; try exact Hloop.
    discriminate.
Qed.

(** *** The other walks are not *)

Lemma link_scan_nest target t : forall n,
  Shared.link_scan target (nest n t) JNull = Shared.link_scan target t JNull.
Proof.
  induction n as [|k IH]; [reflexivity|].
  cbn [nest]. rewrite <- IH.
  cbn [Shared.link_scan truthy]. apply bind_returns.
Qed.

Lemma commanders_scan_nest scry t : forall n acc,
  FindBestCommanders.commanders_scan scry (nest n t) acc
  = FindBestCommanders.commanders_scan scry t acc.
Proof.
  induction n as [|k IH]; intros acc; [reflexivity|].
  cbn [nest]. rewrite <- IH.
  cbn [FindBestCommanders.commanders_scan]. apply bind_returns.
Qed.

Lemma synergies_scan_nest t : forall n acc,
  CompleteDeck.synergies_scan (nest n t) acc
  = CompleteDeck.synergies_scan t acc.
Proof.
  induction n as [|k IH]; intros acc; [reflexivity|].
  cbn [nest]. rewrite <- IH.
  cbn [CompleteDeck.synergies_scan]. apply bind_returns.
Qed.

Lemma cardviews_scan_nest {R : PyRepr} t : forall n budget acc,
  CompleteDeck.cardviews_scan (nest n t) budget acc
  = CompleteDeck.cardviews_scan t budget acc.
Proof.
  induction n as [|k IH]; intros budget acc; [reflexivity|].
  cbn [nest]. rewrite <- IH.
  cbn [CompleteDeck.cardviews_scan]. apply bind_returns.
Qed.

Lemma synergy_cards_scan_nest {R : PyRepr} card t : forall n acc,
  FindBestCommanders.synergy_cards_scan card (nest n t) acc
  = FindBestCommanders.synergy_cards_scan card t acc.
Proof.
  induction n as [|k IH]; intros acc; [reflexivity|].
  cbn [nest]. rewrite <- IH.
  cbn [FindBestCommanders.synergy_cards_scan]. apply bind_returns.
Qed.

(** C4, amended: only the colour-identity walk carries the depth cap of 10.
    It inspects nothing below depth 10 and gives [None] when no node
    exposes a colour field; it is a total function, so it cannot raise.
    The walks for a card's own link, for commander attachments, for
    synergy entries and for card views go through the whole payload,
    however deep. *)
Theorem extractor_walks_amended {R : PyRepr} :
  (forall t d, (10 < d)%nat -> CompleteDeck.find_color_identity t d = JNull) /\
  (forall t n, (10 < n)%nat ->
     CompleteDeck.find_color_identity (nest n t) 0 = JNull) /\
  (forall t d, has_color_field t = false ->
     CompleteDeck.find_color_identity t d = JNull) /\
  (forall n t target,
     Shared.link_scan target (nest n t) JNull
     = Shared.link_scan target t JNull) /\
  (forall n t scry acc,
     FindBestCommanders.commanders_scan scry (nest n t) acc
     = FindBestCommanders.commanders_scan scry t acc) /\
  (forall n t acc,
     CompleteDeck.synergies_scan (nest n t) acc
     = CompleteDeck.synergies_scan t acc) /\
  (forall n t card acc,
     FindBestCommanders.synergy_cards_scan card (nest n t) acc
     = FindBestCommanders.synergy_cards_scan card t acc) /\
  (forall n t budget acc,
     CompleteDeck.cardviews_scan (nest n t) budget acc
     = CompleteDeck.cardviews_scan t budget acc).
Proof.
  repeat split.
  - apply find_color_identity_cap.
  - intros t n H. apply find_color_identity_nest. lia.
  - intros t d. apply find_color_identity_absent.
  - intros n t target. apply link_scan_nest.
  - intros n t scry acc. apply commanders_scan_nest.
  - intros n t acc. apply synergies_scan_nest.
  - intros n t card acc. apply synergy_cards_scan_nest.
  - intros n t budget acc. apply cardviews_scan_nest.
Qed.

(** *** Commander attachments *)

Lemma truthy_number_nonzero v q :
  as_number v = Some q -> truthy v = true -> Qeq_bool q 0 = false.
Proof.
  destruct v as [| [] | x | | |]; simpl; try discriminate.
  - intros [= <-] _. reflexivity.
  - intros [= <-] H. now apply negb_true_iff in H.
Qed.

Lemma commander_of_node_spec scry d :
  numeric_counts d = true ->
  FindBestCommanders.commander_of_node scry d
  = Returns (attachment_of scry d).
Proof.
  unfold numeric_counts, FindBestCommanders.commander_of_node, attachment_of,
    emits, attach_percent, is_commander_node.
  destruct (dict_get "url" d) as [| | |url| |]; try reflexivity.
  destruct (contains "/commanders/" url); [|reflexivity].
  cbn [andb negb orb].
  destruct (truthy (dict_get "name" d)); [|reflexivity].
  destruct (truthy (dict_get "inclusion" d)) eqn:Ti; [|reflexivity].
  destruct (truthy (dict_get "potential_decks" d)) eqn:Tp; [|reflexivity].
  cbn [andb negb orb]. unfold is_number, number_of, py_div.
  destruct (as_number (dict_get "inclusion" d)) as [x|] eqn:Ei;
    [|discriminate].
  destruct (as_number (dict_get "potential_decks" d)) as [y|] eqn:Ep;
    [|discriminate].
  intros _. rewrite (truthy_number_nonzero _ _ Ep Tp). cbn [bind].
  destruct (Qgtb (x / y) (2 # 10)); reflexivity.
Qed.

Lemma commanders_scan_spec scry o : forall acc,
  forallb numeric_counts (dict_nodes o) = true ->
  FindBestCommanders.commanders_scan scry o acc
  = Returns (acc ++ flat_map (attachment_of scry) (dict_nodes o))%list.
Proof.
  induction o as [| | | |l IH|d IH] using json_nested_ind; intros acc H;
    try (simpl; now rewrite app_nil_r).
  - simpl in *. revert acc H.
    induction IH as [|x r Hx Hr IHr]; intros acc H.
    + now rewrite app_nil_r.
    + rewrite forallb_app in H. apply andb_prop in H. destruct H as [H1 H2].
      rewrite (Hx _ H1). cbn [bind]. rewrite (IHr _ H2).
      now rewrite flat_map_app, app_assoc.
  - cbn [FindBestCommanders.commanders_scan dict_nodes] in *.
    cbn [forallb] in H. apply andb_prop in H. destruct H as [Hd H].
    rewrite (commander_of_node_spec _ _ Hd). cbn [bind flat_map].
    rewrite app_assoc. generalize (acc ++ attachment_of scry d)%list.
    clear Hd. revert H.
    induction IH as [|[k v] r Hx Hr IHr]; intros H acc'.
    + now rewrite app_nil_r.
    + rewrite forallb_app in H. apply andb_prop in H. destruct H as [H1 H2].
      simpl in Hx. rewrite (Hx _ H1). cbn [bind]. rewrite (IHr H2).
      now rewrite flat_map_app, app_assoc.
Qed.

Lemma attachment_of_percent scry d :
  Forall (fun a => Qgtb (FindBestCommanders.att_percent a) (2 # 10) = true)
    (attachment_of scry d).
Proof.
  unfold attachment_of. destruct (emits d) eqn:E; constructor; [|constructor].
  unfold emits in E. apply andb_prop in E. apply E.
Qed.

(** The walk for the card's own link returns on a payload whose names are
    text. *)
Lemma link_scan_returns target o : forall found,
  forallb name_is_text (dict_nodes o) = true ->
  exists r, Shared.link_scan target o found = Returns r.
Proof.
  induction o as [|b|q|str|l IH|d IH] using json_nested_ind; intros found H;
    try (cbn [Shared.link_scan]; destruct (truthy found); eauto; fail).
  - cbn [Shared.link_scan dict_nodes] in *.
    destruct (truthy found); [eauto|]. revert found H.
    induction IH as [|x rest Hx Hr IHr]; intros found H; [eauto|].
    rewrite forallb_app in H. apply andb_prop in H. destruct H as [H1 H2].
    destruct (Hx found H1) as (f1 & ->). cbn [bind]. now apply IHr.
  - cbn [Shared.link_scan dict_nodes forallb] in *.
    destruct (truthy found); [eauto|].
    apply andb_prop in H. destruct H as [Hd H].
    assert (forall found,
      exists r,
        (fix values (vs : list (string * json)) (found : json) :=
           match vs with
           | [] => Returns found
           | (_, v) :: r =>
               found' <- Shared.link_scan target v found ;; values r found'
           end) d found = Returns r) as Hvalues.
    { clear found Hd. revert H.
      induction IH as [|[k v] rest Hx Hr IHr]; intros H found; [eauto|].
      rewrite forallb_app in H. apply andb_prop in H. destruct H as [H1 H2].
      cbn [snd] in Hx. destruct (Hx found H1) as (f1 & ->). cbn [bind].
      now apply IHr. }
    unfold name_is_text in Hd.
    destruct (dict_get "name" d) as [| | |nm| |] eqn:En;
      cbn [truthy negb] in Hd |- *;
      try (apply negb_true_iff in Hd; rewrite Hd; apply Hvalues);
      try apply Hvalues.
    destruct (negb (is_empty nm)); [|apply Hvalues].
    destruct (String.eqb (str_lower nm) target); [|apply Hvalues].
    destruct (dict_find "scryfall_uri" d); [eauto|apply Hvalues].
Qed.

(** C5, amended: on a payload in which every name that is present and
    true is text, and whose counts are numbers wherever they are divided,
    the extractor returns, in traversal order, one record for exactly
    those mapping nodes whose [url] is a string containing [/commanders/]
    and whose name, inclusion count and potential-deck count are true in
    Python's sense (present, not empty, not zero), with
    [attachPercent = inclusionCount / potentialDeckCount] above 0.2; no
    record has a percentage of 0.2 or less.  Each record carries the
    card's own link, which the extractor looks up first. *)
Theorem commander_attachments_amended data card :
  forallb name_is_text (dict_nodes data) = true ->
  forallb numeric_counts (dict_nodes data) = true ->
  exists scry,
    FindBestCommanders.find_scryfall_for_card (Some data) card
      = Returns scry /\
    FindBestCommanders.extract_commanders_from_card_json data card
      = Returns (flat_map (attachment_of scry) (dict_nodes data)) /\
    Forall (fun a => Qgtb (FindBestCommanders.att_percent a) (2 # 10) = true)
      (flat_map (attachment_of scry) (dict_nodes data)).
Proof.
  intros Ht Hn.
  destruct (link_scan_returns (str_lower card) data JNull Ht) as (scry & Hs).
  exists scry. split; [exact Hs|]. split.
  - unfold FindBestCommanders.extract_commanders_from_card_json.
    cbn [FindBestCommanders.find_scryfall_for_card]. rewrite Hs.
    cbn [bind]. now rewrite commanders_scan_spec.
  - apply Forall_flat_map, Forall_forall. intros d _.
    apply attachment_of_percent.
Qed.

End Walks.

(** C4, as stated, fails: the walk for a card's own link finds a node
    twelve levels down, where a cap of 10 would give [None] as the colour
    walk does; and the commander walk raises on a count that is text. *)
Lemma own_link_walk_is_not_capped :
  @FindBestCommanders.find_scryfall_for_card ascii_text
    (Some (nest 12 sol_ring_node)) "Sol Ring"
    = Returns (JStr "https://scryfall.com/card/sol-ring") /\
  CompleteDeck.find_color_identity (nest 12 colors_node) 0 = JNull /\
  @FindBestCommanders.extract_commanders_from_card_json ascii_text
    (JDict text_count_node) "Sol Ring" = Raises.
Proof. repeat split. Qed.

Lemma extractor_walks_amended_witness :
  CompleteDeck.find_color_identity (JDict []) 0 = JNull /\
  CompleteDeck.find_color_identity (nest 11 colors_node) 0 = JNull /\
  CompleteDeck.find_color_identity (nest 10 colors_node) 0
    = JList [JStr "W"; JStr "U"].
Proof.
  pose proof (@extractor_walks_amended ascii_text sample_repr)
    as (_ & Hnest & Habs & _).
  split; [|split].
  - apply (Habs (JDict []) 0%nat eq_refl).
  - apply (Hnest colors_node 11%nat). repeat constructor.
  - reflexivity.
Defined.

(** C5, as stated, fails: two negative counts are not positive, yet the
    node gives a record. *)
Lemma negative_counts_give_a_record :
  @FindBestCommanders.extract_commanders_from_card_json ascii_text
    (JDict negative_counts_node) "Sol Ring"
    = Returns [ {| FindBestCommanders.att_commander :=
                     JStr "Atraxa, Praetors' Voice";
                   FindBestCommanders.att_percent := (-5) / (-10);
                   FindBestCommanders.att_scryfall := JNull |} ] /\
  stated_emits negative_counts_node = false.
Proof. split; reflexivity. Qed.

Lemma commander_attachments_amended_witness :
  exists scry,
    @FindBestCommanders.find_scryfall_for_card ascii_text (Some atraxa_page)
      "Sol Ring" = Returns scry /\
    @FindBestCommanders.extract_commanders_from_card_json ascii_text
      atraxa_page "Sol Ring"
      = Returns (flat_map (attachment_of scry) (dict_nodes atraxa_page)) /\
    Forall (fun a => Qgtb (FindBestCommanders.att_percent a) (2 # 10) = true)
      (flat_map (attachment_of scry) (dict_nodes atraxa_page)).
Proof.
  apply (@commander_attachments_amended ascii_text atraxa_page "Sol Ring"
           eq_refl eq_refl).
Defined.

(** Without the condition on the names the extractor can raise before it
    scans: a commander entry whose name is a number has numeric counts,
    and would give a record, but the walk for the card's own link fails
    on the name. *)
Example number_name_raises :
  numeric_counts number_name_node = true /\
  emits number_name_node = true /\
  name_is_text number_name_node = false /\
  @FindBestCommanders.extract_commanders_from_card_json ascii_text
    (JDict number_name_node) "Sol Ring" = Raises.
Proof. repeat split; reflexivity. Qed.

Example atraxa_page_attachments :
  @FindBestCommanders.extract_commanders_from_card_json ascii_text
    atraxa_page "Sol Ring"
    = Returns [ {| FindBestCommanders.att_commander :=
                     JStr "Atraxa, Praetors' Voice";
                   FindBestCommanders.att_percent := 300 / 1000;
                   FindBestCommanders.att_scryfall := JNull |} ].
Proof. reflexivity. Qed.

(** ** Colour legality *)

Section Legality.
Context {U : PyLib}.
Variable scryfall_named : string -> response.

Lemma map_outcome_upper names :
  CompleteDeck.map_outcome CompleteDeck.upper_of (map JStr names)
  = Returns (map str_upper names).
Proof.
  induction names as [|n r IH]; [reflexivity|].
  cbn [map CompleteDeck.map_outcome CompleteDeck.upper_of bind].
  now rewrite IH.
Qed.

Lemma str_in_In x l : str_in x l = true <-> In x l.
Proof.
  unfold str_in. rewrite existsb_exists. split.
  - intros (y & Hy & E). apply String.eqb_eq in E. now subst.
  - intros H. exists x. split; [exact H|apply String.eqb_refl].
Qed.

Lemma in_str_set_spec names ids :
  forallb (CompleteDeck.in_str_set names) ids = true <->
  (forall x, In x ids -> exists s, x = JStr s /\ In s names).
Proof.
  rewrite forallb_forall. split; intros H x Hx.
  - specialize (H x Hx). destruct x; try discriminate.
    eexists. split; [reflexivity|]. now apply str_in_In.
  - destruct (H x Hx) as (s & -> & Hs). now apply str_in_In.
Qed.

Lemma legal_lookup_spec card set :
  CompleteDeck.legal_lookup scryfall_named card set
  = match scryfall_named card with
    | NetworkError => Raises
    | Response status body =>
        if (status =? 200)%Z then
          match identity_of_response (scryfall_named card) with
          | Some ids => Returns (forallb (CompleteDeck.in_str_set set) ids)
          | None => Raises
          end
        else Returns true
    end.
Proof.
  unfold CompleteDeck.legal_lookup, identity_of_response.
  destruct (scryfall_named card) as [|status body]; [reflexivity|].
  destruct (status =? 200)%Z; [|reflexivity].
  destruct body as [[| | | | |b]|]; try reflexivity.
  cbn [py_get bind].
  destruct (CompleteDeck.py_set _); reflexivity.
Qed.

(** The verdict on a commander whose colours are the strings [names]. *)
Lemma card_is_legal_on_strings card names :
  CompleteDeck.card_is_legal_in_colors scryfall_named card
    (JList (map JStr names))
  = Returns
      match names with
      | [] => true
      | _ :: _ =>
          match identity_of_response (scryfall_named card) with
          | Some ids =>
              forallb (CompleteDeck.in_str_set (map str_upper names)) ids
          | None => true
          end
      end.
Proof.
  destruct names as [|n r]; [reflexivity|].
  unfold CompleteDeck.card_is_legal_in_colors.
  cbn [truthy map negb py_iter bind].
  change (JStr n :: map JStr r) with (map JStr (n :: r)).
  rewrite map_outcome_upper. cbn [bind]. rewrite legal_lookup_spec.
  unfold identity_of_response.
  destruct (scryfall_named card) as [|status body]; [reflexivity|].
  destruct (status =? 200)%Z; [|destruct body as [[]|]; reflexivity].
  destruct body as [[| | | | |b]|]; try reflexivity.
  destruct (CompleteDeck.py_set _); reflexivity.
Qed.

(** C3, amended: the check returns true when the commander's colours are
    empty or absent.  For a commander whose colours are strings it never
    raises; it returns true on every failed lookup (call failed, status
    other than 200, body that does not parse or does not hold a usable
    identity); and when the lookup delivers an identity it returns whether
    each of its elements, compared as received, is among the commander's
    colours in upper case: only the commander's side is upper-cased. *)
Theorem color_legality_amended card :
  (forall colors, truthy colors = false ->
     CompleteDeck.card_is_legal_in_colors scryfall_named card colors
       = Returns true) /\
  (forall names, exists b,
     CompleteDeck.card_is_legal_in_colors scryfall_named card
       (JList (map JStr names)) = Returns b /\
     (identity_of_response (scryfall_named card) = None -> b = true) /\
     (forall ids,
        identity_of_response (scryfall_named card) = Some ids ->
        names <> [] ->
        (b = true <->
         forall x, In x ids ->
           exists s, x = JStr s /\ In s (map str_upper names)))).
Proof.
  split.
  - intros colors H. unfold CompleteDeck.card_is_legal_in_colors.
    now rewrite H.
  - intros names. eexists. split; [apply card_is_legal_on_strings|].
    split.
    + intros ->. now destruct names.
    + intros ids -> Hne. destruct names as [|n r]; [contradiction|].
      apply in_str_set_spec.
Qed.

End Legality.

(** C3, as stated, fails: a candidate identity in lower case is a subset
    of the commander's once both sides are upper-cased, and the check
    rejects it. *)
Lemma lower_case_identity_is_rejected :
  @CompleteDeck.card_is_legal_in_colors ascii_text
    (identity_lookup [JStr "u"]) "Opt" (JList [JStr "U"]) = Returns false /\
  @stated_legal ascii_text ["U"] [JStr "u"] = true.
Proof. split; reflexivity. Qed.

Lemma color_legality_amended_witness :
  @CompleteDeck.card_is_legal_in_colors ascii_text
    (identity_lookup [JStr "U"; JStr "B"]) "Baleful Strix" JNull
    = Returns true.
Proof.
  apply (proj1 (@color_legality_amended ascii_text
                  (identity_lookup [JStr "U"; JStr "B"]) "Baleful Strix")
           JNull eq_refl).
Defined.

(** Property 4 of the specification. *)
Example legality_examples :
  @CompleteDeck.card_is_legal_in_colors ascii_text
    (identity_lookup [JStr "U"; JStr "B"]) "Baleful Strix"
    (JList [JStr "W"; JStr "U"; JStr "B"; JStr "G"]) = Returns true /\
  @CompleteDeck.card_is_legal_in_colors ascii_text
    (identity_lookup [JStr "U"; JStr "B"; JStr "R"]) "Nicol Bolas"
    (JList [JStr "W"; JStr "U"; JStr "B"; JStr "G"]) = Returns false /\
  @CompleteDeck.card_is_legal_in_colors ascii_text
    (fun _ => Response 503 None) "Nicol Bolas"
    (JList [JStr "W"; JStr "U"; JStr "B"; JStr "G"]) = Returns true /\
  @CompleteDeck.card_is_legal_in_colors ascii_text
    (fun _ => NetworkError) "Nicol Bolas"
    (JList [JStr "W"; JStr "U"; JStr "B"; JStr "G"]) = Returns true.
Proof. repeat split. Qed.

(** The set of the commander's colours is built before the [try]: a colour
    that is not a string makes the check raise. *)
Example legality_raises_on_a_colour_that_is_not_text :
  @CompleteDeck.card_is_legal_in_colors ascii_text
    (identity_lookup [JStr "U"]) "Opt" (JList [JNum 1]) = Raises.
Proof. reflexivity. Qed.

(** ** Association lists *)

Lemma assoc_find_set {V : Type} c k (v : V) l :
  assoc_find c (assoc_set k v l)
  = if String.eqb k c then Some v else assoc_find c l.
Proof.
  induction l as [|[k' w] r IH]; [reflexivity|].
  cbn [assoc_set]. destruct (String.eqb k' k) eqn:E.
  - apply String.eqb_eq in E. subst k'. cbn [assoc_find].
    destruct (String.eqb k c); reflexivity.
  - cbn [assoc_find]. rewrite IH.
    destruct (String.eqb k' c) eqn:F; [|reflexivity].
    destruct (String.eqb k c) eqn:G; [|reflexivity].
    apply String.eqb_eq in F, G. subst. rewrite String.eqb_refl in E.
    discriminate.
Qed.

Lemma assoc_set_keys {V : Type} k (v : V) l :
  map fst (assoc_set k v l)
  = if assoc_has k l then map fst l else (map fst l ++ [k])%list.
Proof.
  unfold assoc_has. induction l as [|[k' w] r IH]; [reflexivity|].
  cbn [assoc_set assoc_find]. destruct (String.eqb k' k); [reflexivity|].
  cbn [map fst]. rewrite IH. destruct (assoc_find k r); reflexivity.
Qed.

Lemma assoc_find_In {V : Type} k (v : V) l :
  assoc_find k l = Some v -> In (k, v) l.
Proof.
  induction l as [|[k' w] r IH]; [discriminate|].
  cbn [assoc_find]. destruct (String.eqb k' k) eqn:E.
  - apply String.eqb_eq in E. intros [= ->]. subst. now left.
  - intros H. right. auto.
Qed.

Lemma assoc_find_not_In {V : Type} k (l : list (string * V)) :
  assoc_find k l = None -> ~ In k (map fst l).
Proof.
  induction l as [|[k' w] r IH]; [auto|].
  cbn [assoc_find]. destruct (String.eqb k' k) eqn:E; [discriminate|].
  intros H [F|F]; [|now apply IH].
  simpl in F. subst. rewrite String.eqb_refl in E. discriminate.
Qed.

Lemma assoc_set_nodup {V : Type} k (v : V) l :
  NoDup (map fst l) -> NoDup (map fst (assoc_set k v l)).
Proof.
  intros H. rewrite assoc_set_keys. unfold assoc_has.
  destruct (assoc_find k l) eqn:E; [exact H|].
  apply NoDup_app; [exact H | repeat constructor; auto |].
  intros x Hx [<-|[]]. now apply assoc_find_not_In in E.
Qed.

Lemma assoc_set_In {V : Type} k (v : V) l x :
  In x (assoc_set k v l) -> x = (k, v) \/ In x l.
Proof.
  induction l as [|[k' w] r IH]; simpl.
  - intros [<-|[]]. now left.
  - destruct (String.eqb k' k) eqn:E.
    + apply String.eqb_eq in E. subst. intros [<-|H]; auto.
    + intros [<-|H]; auto. destruct (IH H); auto.
Qed.

(** ** Loops that can raise *)

Lemma fold_outcome_invariant {A S : Type} (P : S -> Prop)
    (f : S -> A -> outcome S) l :
  (forall s x s', In x l -> P s -> f s x = Returns s' -> P s') ->
  forall s s', P s -> fold_outcome f l s = Returns s' -> P s'.
Proof.
  induction l as [|x r IH]; intros Hf s s' Hs.
  - now intros [= <-].
  - cbn [fold_outcome]. destruct (f s x) as [s1|] eqn:E; [|discriminate].
    cbn [bind]. apply IH.
    + intros s0 y s0' Hy. apply Hf. now right.
    + eapply Hf; eauto. now left.
Qed.

Lemma fold_left_invariant {A S : Type} (P : S -> Prop) (f : S -> A -> S) l :
  (forall s x, In x l -> P s -> P (f s x)) ->
  forall s, P s -> P (fold_left f l s).
Proof.
  induction l as [|x r IH]; intros Hf s Hs; [exact Hs|].
  cbn [fold_left]. apply IH.
  - intros s0 y Hy. apply Hf. now right.
  - apply Hf; [now left|exact Hs].
Qed.

(** ** Synergy totals *)

Section Synergies.
Context {U : PyLib}.
Variable card_page : string -> response.

(** A property of the table that every step keeps is kept by the walk. *)
Lemma synergies_scan_invariant
    (P : list (string * CompleteDeck.synergy_entry) -> Prop) :
  (forall s card s', P s -> CompleteDeck.synergy_step s card = Returns s' ->
                     P s') ->
  forall o s s', P s -> CompleteDeck.synergies_scan o s = Returns s' -> P s'.
Proof.
  intros Hstep.
  induction o as [|b|q|str|l IH|d IH] using json_nested_ind; intros s s' Hs;
    try (simpl; now intros [= <-]).
  - simpl. revert s Hs.
    induction IH as [|x r Hx Hr IHr]; intros s Hs.
    + now intros [= <-].
    + destruct (CompleteDeck.synergies_scan x s) as [s1|] eqn:E;
        [|discriminate].
      cbn [bind]. apply IHr. eapply Hx; eauto.
  - cbn [CompleteDeck.synergies_scan].
    match goal with |- bind ?m _ = _ -> _ => destruct m as [s1|] eqn:E end;
      [|discriminate].
    cbn [bind].
    assert (P s1) as Hs1.
    { destruct (dict_find "cardviews" d) as [views|];
        [|now injection E as <-].
      destruct (py_iter views) as [cards|]; [|discriminate].
      cbn [bind] in E. revert E. apply fold_outcome_invariant; eauto. }
    clear E Hs. revert s1 Hs1.
    induction IH as [|[k v] r Hx Hr IHr]; intros s1 Hs1.
    + now intros [= <-].
    + destruct (CompleteDeck.synergies_scan v s1) as [s2|] eqn:E;
        [|discriminate].
      cbn [bind]. apply IHr. simpl in Hx. eapply Hx; eauto.
Qed.

Lemma synergy_step_cases s card s' :
  CompleteDeck.synergy_step s card = Returns s' ->
  s' = s \/
  exists k e, s' = assoc_set k e s /\
              Qgtb (CompleteDeck.syn_synergy e)
                CompleteDeck.MIN_SYNERGY_SCORE = true.
Proof.
  unfold CompleteDeck.synergy_step.
  destruct card as [| | | | |c]; try discriminate.
  destruct (truthy (dict_get "name" c)); [|intros [= <-]; now left].
  destruct (as_number _) as [syn|]; [|discriminate].
  destruct (Qgtb syn CompleteDeck.MIN_SYNERGY_SCORE) eqn:G;
    [|intros [= <-]; now left].
  destruct (dict_get "name" c); try discriminate.
  intros [= <-]. right. eexists _, _. split; [reflexivity|exact G].
Qed.

Lemma get_card_synergies_invariant
    (P : list (string * CompleteDeck.synergy_entry) -> Prop) seed syn :
  P [] ->
  (forall s k e,
     P s ->
     Qgtb (CompleteDeck.syn_synergy e) CompleteDeck.MIN_SYNERGY_SCORE = true ->
     P (assoc_set k e s)) ->
  CompleteDeck.get_card_synergies card_page seed = Returns syn -> P syn.
Proof.
  intros H0 Hset. unfold CompleteDeck.get_card_synergies.
  destruct (card_page _) as [|status body]; [now intros [= <-]|].
  destruct (status =? 200)%Z; [|now intros [= <-]].
  destruct body as [data|]; [|now intros [= <-]].
  destruct (CompleteDeck.find_scryfall_in_data data seed); [|discriminate].
  cbn [bind]. apply synergies_scan_invariant; [|exact H0].
  intros s card s' Hs Hstep.
  destruct (synergy_step_cases _ _ _ Hstep) as [->|(k & e & -> & G)]; auto.
Qed.

Lemma get_card_synergies_nodup seed syn :
  CompleteDeck.get_card_synergies card_page seed = Returns syn ->
  NoDup (map fst syn).
Proof.
  apply (get_card_synergies_invariant (fun s => NoDup (map fst s)));
    [constructor|].
  intros s k e H _. now apply assoc_set_nodup.
Qed.

Lemma get_card_synergies_above seed syn c e :
  CompleteDeck.get_card_synergies card_page seed = Returns syn ->
  assoc_find c syn = Some e ->
  Qgtb (CompleteDeck.syn_synergy e) CompleteDeck.MIN_SYNERGY_SCORE = true.
Proof.
  intros H F. apply assoc_find_In in F.
  assert (Forall (fun kv => Qgtb (CompleteDeck.syn_synergy (snd kv))
                              CompleteDeck.MIN_SYNERGY_SCORE = true) syn) as A.
  { revert H.
    apply (get_card_synergies_invariant
             (Forall (fun kv => Qgtb (CompleteDeck.syn_synergy (snd kv))
                                  CompleteDeck.MIN_SYNERGY_SCORE = true)));
      [constructor|].
    intros s k e' Hs G. apply Forall_forall. intros x Hx.
    destruct (assoc_set_In _ _ _ _ Hx) as [->|Hin]; [exact G|].
    rewrite Forall_forall in Hs. now apply Hs. }
  rewrite Forall_forall in A. apply (A _ F).
Qed.

Lemma assoc_find_none {V : Type} c (l : list (string * V)) :
  ~ In c (map fst l) -> assoc_find c l = None.
Proof.
  induction l as [|[k v] r IH]; [reflexivity|].
  cbn [assoc_find map fst]. intros H.
  destruct (String.eqb k c) eqn:E.
  - apply String.eqb_eq in E. subst. exfalso. apply H. now left.
  - apply IH. intros F. apply H. now right.
Qed.





End Synergies.



Example synergy_total_of_two :
  @CompleteDeck.accumulate_synergies ascii_text only_sol_ring
    (map (@str_lower ascii_text) (CompleteDeck.deck_cards deck_of_2))
  = Returns [("mana vault",
              {| CompleteDeck.tot_score := 0 + (8 # 10);
                 CompleteDeck.tot_scryfall := JStr EmptyString |})].
Proof. reflexivity. Qed.

(** ** Sorting *)

Section StableSortFacts.
Context {A : Type} (before : A -> A -> bool).

Lemma insert_stable_perm x l :
  Permutation (x :: l) (insert_stable before x l).
Proof.
  induction l as [|y r IH]; [reflexivity|].
  cbn [insert_stable]. destruct (before y x); [|reflexivity].
  rewrite perm_swap. now constructor.
Qed.

Lemma sort_stable_perm l : Permutation l (sort_stable before l).
Proof.
  induction l as [|x r IH]; [constructor|].
  cbn [sort_stable]. rewrite <- insert_stable_perm. now constructor.
Qed.

Lemma sort_stable_In x l : In x (sort_stable before l) <-> In x l.
Proof.
  split; apply Permutation_in;
    [symmetry|]; apply sort_stable_perm.
Qed.

End StableSortFacts.

Lemma firstn_incl {A : Type} n (l : list A) x : In x (firstn n l) -> In x l.
Proof.
  revert l. induction n as [|n IH]; intros l; [simpl; contradiction|].
  destruct l as [|y r]; simpl; [auto|]. intros [->|H]; auto.
Qed.

(** ** Suggestions and their scores *)

Section Scoring.
Context {U : PyLib} {R : PyRepr}.
Variables average_deck_page card_page scryfall_named : string -> response.
Variable inventory : list (string * CompleteDeck.inventory_entry).

Lemma edhrec_step_eligible edhrec_cards all current st item st' :
  In item edhrec_cards ->
  Forall (eligible inventory edhrec_cards all current) (fst st) ->
  CompleteDeck.edhrec_step current inventory st item = Returns st' ->
  Forall (eligible inventory edhrec_cards all current) (fst st').
Proof.
  destruct st as [checks keys], item as [key info]. cbn [fst].
  intros Hin Hst. unfold CompleteDeck.edhrec_step.
  destruct (str_in key current) eqn:Ec; [now intros [= <-]|].
  destruct (assoc_has key inventory) eqn:Ei; cbn [negb].
  - intros [= <-]. cbn [fst]. apply Forall_app. split; [exact Hst|].
    repeat constructor; assumption.
  - destruct (Qle_bool _ _); [|now intros [= <-]].
    destruct (as_number _); [|discriminate].
    destruct (Qle_bool _ _); now intros [= <-].
Qed.

Lemma synergy_candidate_step_eligible edhrec_cards all current checks item :
  In item all ->
  Forall (eligible inventory edhrec_cards all current) checks ->
  Forall (eligible inventory edhrec_cards all current)
    (CompleteDeck.synergy_candidate_step current edhrec_cards inventory
       checks item).
Proof.
  destruct item as [key t]. intros Hin Hst.
  unfold CompleteDeck.synergy_candidate_step.
  destruct (str_in key current) eqn:Ec; [exact Hst|].
  destruct (assoc_has key edhrec_cards) eqn:Ee; [exact Hst|].
  destruct (assoc_has key inventory) eqn:Ei; cbn [negb]; [|exact Hst].
  destruct (Qgtb _ _); [|exact Hst].
  apply Forall_app. split; [exact Hst|]. repeat constructor; assumption.
Qed.

Lemma score_candidate_spec edhrec_cards all current c sg :
  eligible inventory edhrec_cards all current c ->
  CompleteDeck.score_candidate inventory all c = Returns (Some sg) ->
  Qltb (CompleteDeck.sg_score sg) CompleteDeck.MIN_SCORE_THRESHOLD = false /\
  (edhrec_suggestion edhrec_cards all current inventory sg \/
   synergy_suggestion edhrec_cards all current inventory sg).
Proof.
  destruct c as [key info|key t]; cbn [eligible CompleteDeck.score_candidate].
  - intros (Hin & Hc & Hi).
    destruct (Qltb _ _) eqn:G; [discriminate|].
    destruct (assoc_find key inventory) as [e|]; [|discriminate].
    intros [= <-]. split; [exact G|]. left.
    exists key, info. cbn. repeat split; auto.
  - intros (Hin & Hc & He & Hi).
    destruct (Qltb _ _) eqn:G; [discriminate|].
    destruct (assoc_find key inventory) as [e|]; [|discriminate].
    intros [= <-]. split; [exact G|]. right.
    exists key, t. cbn. repeat split; auto.
Qed.

Lemma check_step_scores edhrec_cards all current colors sugs c sugs' :
  eligible inventory edhrec_cards all current c ->
  CompleteDeck.check_step scryfall_named inventory all colors sugs c
    = Returns sugs' ->
  sugs' = sugs \/
  exists sg,
    sugs' = (sugs ++ [sg])%list /\
    Qltb (CompleteDeck.sg_score sg) CompleteDeck.MIN_SCORE_THRESHOLD = false /\
    (edhrec_suggestion edhrec_cards all current inventory sg \/
     synergy_suggestion edhrec_cards all current inventory sg).
Proof.
  intros Hc. unfold CompleteDeck.check_step.
  match goal with |- bind ?m _ = _ -> _ => destruct m as [name|] end;
    [|discriminate].
  cbn [bind].
  match goal with |- bind ?m _ = _ -> _ => destruct m as [legal|] end;
    [|discriminate].
  cbn [bind]. destruct legal; cbn [negb]; [|intros [= <-]; now left].
  destruct (CompleteDeck.score_candidate inventory all c) as [[sg|]|] eqn:E;
    cbn [bind]; try discriminate; intros [= <-]; [|now left].
  right. exists sg. split; [reflexivity|].
  eapply score_candidate_spec; eauto.
Qed.

(** The score gate on one candidate: it always returns when the card is
    owned, drops a score below 5 and keeps any other with the score of the
    formula. *)
Lemma score_candidate_edhrec all key info :
  assoc_has key inventory = true ->
  let score :=
    stated_score (score_fraction info) (synergy_of all key)
      (CompleteDeck.ci_is_budget info) in
  if Qltb score CompleteDeck.MIN_SCORE_THRESHOLD
  then CompleteDeck.score_candidate inventory all
         (CompleteDeck.FromEdhrec key info) = Returns None
  else exists sg,
         CompleteDeck.score_candidate inventory all
           (CompleteDeck.FromEdhrec key info) = Returns (Some sg) /\
         CompleteDeck.sg_score sg = score.
Proof.
  unfold assoc_has. intros Hi. cbn zeta.
  cbn [CompleteDeck.score_candidate].
  fold (synergy_of all key). fold (score_fraction info).
  fold (capped_synergy (synergy_of all key)).
  fold (stated_score (score_fraction info) (synergy_of all key)
          (CompleteDeck.ci_is_budget info)).
  destruct (Qltb _ _); [reflexivity|].
  destruct (assoc_find key inventory); [|discriminate].
  eexists. split; reflexivity.
Qed.

Lemma score_candidate_synergy all key t :
  assoc_has key inventory = true ->
  let score := capped_synergy (CompleteDeck.tot_score t) in
  if Qltb score CompleteDeck.MIN_SCORE_THRESHOLD
  then CompleteDeck.score_candidate inventory all
         (CompleteDeck.FromSynergy key t) = Returns None
  else exists sg,
         CompleteDeck.score_candidate inventory all
           (CompleteDeck.FromSynergy key t) = Returns (Some sg) /\
         CompleteDeck.sg_score sg = score.
Proof.
  unfold assoc_has. intros Hi. cbn zeta.
  cbn [CompleteDeck.score_candidate].
  fold (capped_synergy (CompleteDeck.tot_score t)).
  destruct (Qltb _ _); [reflexivity|].
  destruct (assoc_find key inventory); [|discriminate].
  eexists. split; reflexivity.
Qed.

Lemma suggestions_of_analysis d colors a :
  CompleteDeck.analyze_and_complete_deck average_deck_page card_page
    scryfall_named d inventory colors = Returns a ->
  exists edhrec_cards all_synergies,
    CompleteDeck.get_average_and_budget_deck average_deck_page
      (CompleteDeck.deck_commander d) = Returns edhrec_cards /\
    CompleteDeck.accumulate_synergies card_page
      (map str_lower (CompleteDeck.deck_cards d)) = Returns all_synergies /\
    forall s, In s (CompleteDeck.an_suggestions a) ->
      Qltb (CompleteDeck.sg_score s) CompleteDeck.MIN_SCORE_THRESHOLD = false /\
      (edhrec_suggestion edhrec_cards all_synergies
         (map str_lower (CompleteDeck.deck_cards d)) inventory s \/
       synergy_suggestion edhrec_cards all_synergies
         (map str_lower (CompleteDeck.deck_cards d)) inventory s).
Proof.
  unfold CompleteDeck.analyze_and_complete_deck,
    CompleteDeck.compile_suggestions.
  set (current := map str_lower (CompleteDeck.deck_cards d)).
  destruct (CompleteDeck.get_average_and_budget_deck _ _)
    as [edhrec_cards|]; [|discriminate].
  cbn [bind].
  destruct (CompleteDeck.accumulate_synergies _ _) as [all|];
    [|discriminate].
  cbn [bind].
  destruct (fold_outcome (CompleteDeck.edhrec_step current inventory)
              edhrec_cards ([], [])) as [[checks keys]|] eqn:E1;
    [|discriminate].
  cbn [bind].
  match goal with
  | |- bind (bind (fold_outcome ?f ?l []) _) _ = _ -> _ =>
      destruct (fold_outcome f l []) as [sugs|] eqn:E2; [|discriminate];
      assert (Forall (eligible inventory edhrec_cards all current) l) as Hl
  end.
  { apply fold_left_invariant.
    - intros s x Hx. now apply synergy_candidate_step_eligible.
    - change checks with (fst (checks, keys)).
      revert E1.
      apply (fold_outcome_invariant
               (fun st => Forall (eligible inventory edhrec_cards all current) (fst st))).
      + intros st item st' Hin. now apply edhrec_step_eligible.
      + constructor. }
  cbn [bind]. intros [= <-]. cbn [CompleteDeck.an_suggestions].
  exists edhrec_cards, all. split; [reflexivity|]. split; [reflexivity|].
  intros s Hs.
  apply (firstn_incl CompleteDeck.MAX_SUGGESTIONS
           (sort_stable
              (fun x y => Qgtb (CompleteDeck.sg_score x)
                            (CompleteDeck.sg_score y)) sugs)) in Hs.
  apply sort_stable_In in Hs.
  revert s Hs. apply Forall_forall.
  revert E2.
  apply (fold_outcome_invariant
           (Forall (fun s =>
              Qltb (CompleteDeck.sg_score s) CompleteDeck.MIN_SCORE_THRESHOLD
                = false /\
              (edhrec_suggestion edhrec_cards all current inventory s \/
               synergy_suggestion edhrec_cards all current inventory s))));
    [|constructor].
  intros sugs0 c sugs' Hc Hsugs Hstep.
  rewrite Forall_forall in Hl.
  destruct (check_step_scores _ _ _ _ _ _ _ (Hl _ Hc) Hstep)
    as [->|(sg & -> & Hsg)]; [exact Hsugs|].
  apply Forall_app. split; [exact Hsugs|].
  constructor; [exact Hsg|constructor].
Qed.

(** C1: the score of an owned candidate from the average or budget deck
    is [inclusionFraction * 100 + min(synergyTotal * 10, 50) + (10 if
    budget)], where [inclusionFraction] is [inclusionCount / deckCount], or
    0 without decks; the score of a candidate that only the synergies bring
    up is [min(synergyTotal * 10, 50)]; a score below 5 drops the
    candidate.  The arithmetic is that of Python's floats, every product,
    quotient and sum rounded to binary64.  So every suggestion of an
    analysis that returns is an owned card outside the deck, with one of
    these two scores and at least 5. *)
Theorem suggestion_scores :
  (forall all key info,
     assoc_has key inventory = true ->
     let score :=
       stated_score (score_fraction info) (synergy_of all key)
         (CompleteDeck.ci_is_budget info) in
     if Qltb score CompleteDeck.MIN_SCORE_THRESHOLD
     then CompleteDeck.score_candidate inventory all
            (CompleteDeck.FromEdhrec key info) = Returns None
     else exists sg,
            CompleteDeck.score_candidate inventory all
              (CompleteDeck.FromEdhrec key info) = Returns (Some sg) /\
            CompleteDeck.sg_score sg = score) /\
  (forall all key t,
     assoc_has key inventory = true ->
     let score := capped_synergy (CompleteDeck.tot_score t) in
     if Qltb score CompleteDeck.MIN_SCORE_THRESHOLD
     then CompleteDeck.score_candidate inventory all
            (CompleteDeck.FromSynergy key t) = Returns None
     else exists sg,
            CompleteDeck.score_candidate inventory all
              (CompleteDeck.FromSynergy key t) = Returns (Some sg) /\
            CompleteDeck.sg_score sg = score) /\
  (forall info,
     CompleteDeck.ci_num_decks info == 0 -> score_fraction info = 0) /\
  (forall d colors a,
     CompleteDeck.analyze_and_complete_deck average_deck_page card_page
       scryfall_named d inventory colors = Returns a ->
     exists edhrec_cards all_synergies,
       CompleteDeck.get_average_and_budget_deck average_deck_page
         (CompleteDeck.deck_commander d) = Returns edhrec_cards /\
       CompleteDeck.accumulate_synergies card_page
         (map str_lower (CompleteDeck.deck_cards d)) = Returns all_synergies /\
       forall s, In s (CompleteDeck.an_suggestions a) ->
         Qltb (CompleteDeck.sg_score s) CompleteDeck.MIN_SCORE_THRESHOLD
           = false /\
         (edhrec_suggestion edhrec_cards all_synergies
            (map str_lower (CompleteDeck.deck_cards d)) inventory s \/
          synergy_suggestion edhrec_cards all_synergies
            (map str_lower (CompleteDeck.deck_cards d)) inventory s)).
Proof.
  split; [exact score_candidate_edhrec|].
  split; [exact score_candidate_synergy|].
  split; [|exact suggestions_of_analysis].
  intros info H. unfold score_fraction, Qgtb.
  assert (Qle_bool (CompleteDeck.ci_num_decks info) 0 = true) as ->
    by (apply Qle_bool_iff; rewrite H; apply Qle_refl).
  reflexivity.
Qed.

End Scoring.

Example sample_run_returns : sample_run = Returns sample_analysis.
Proof. vm_compute. reflexivity. Qed.

(** Property 5 of the specification: an inclusion of 0.3 scores 30 and
    stays, an inclusion of 0.02 scores 2 and is dropped; Mana Vault comes
    from the synergies alone, with 0.8 * 10 = 8. *)
Example sample_suggestions :
  map (fun s => (CompleteDeck.sg_name s, Qred (CompleteDeck.sg_score s),
                 CompleteDeck.sg_source s))
    (CompleteDeck.an_suggestions sample_analysis)
  = [("Arcane Signet", 30, "EDHREC"); ("Mana Vault", 8, "Sinergia")].
Proof. vm_compute. reflexivity. Qed.

(** Rounding decides at the threshold: a card played in 3 of 1000 decks
    with a synergy total of 0.47 would score 5 in exact arithmetic; the
    floats give 4.999999999999999, and the card is dropped. *)
Example rounding_drops_an_exact_five :
  CompleteDeck.score_candidate probe_inventory probe_totals
    (CompleteDeck.FromEdhrec "probe" probe_info) = Returns None /\
  stated_score (score_fraction probe_info) (47 # 100) false
  = 5629499534213119 # 1125899906842624 /\
  fl_mul (47 # 100) 10 = 1322932390540083 # 281474976710656 /\
  (3 # 1000) * 100 + (47 # 100) * 10 == 5.
Proof. repeat split; vm_compute; reflexivity. Qed.

Lemma suggestion_scores_witness :
  exists edhrec_cards all_synergies,
    @CompleteDeck.get_average_and_budget_deck ascii_text sample_repr
      only_atraxa (CompleteDeck.deck_commander deck_of_2)
      = Returns edhrec_cards /\
    @CompleteDeck.accumulate_synergies ascii_text only_sol_ring
      (map (@str_lower ascii_text) (CompleteDeck.deck_cards deck_of_2))
      = Returns all_synergies /\
    forall s, In s (CompleteDeck.an_suggestions sample_analysis) ->
      Qltb (CompleteDeck.sg_score s) CompleteDeck.MIN_SCORE_THRESHOLD = false /\
      (edhrec_suggestion edhrec_cards all_synergies
         (map (@str_lower ascii_text) (CompleteDeck.deck_cards deck_of_2))
         sample_inventory s \/
       synergy_suggestion edhrec_cards all_synergies
         (map (@str_lower ascii_text) (CompleteDeck.deck_cards deck_of_2))
         sample_inventory s).
Proof.
  apply (proj2 (proj2 (proj2
           (@suggestion_scores ascii_text sample_repr only_atraxa
              only_sol_ring (identity_lookup []) sample_inventory)))
           deck_of_2 atraxa_colors sample_analysis).
  vm_compute. reflexivity.
Defined.

(** ** The order of the merged list *)

Section StableSortSorted.
Context {A : Type} (before : A -> A -> bool).
Hypothesis before_asym : forall x y, before x y = true -> before y x = false.
Hypothesis before_trans :
  forall x y z, before y x = false -> before z y = false -> before z x = false.

Lemma insert_stable_sorted x l :
  StronglySorted (not_after before) l ->
  StronglySorted (not_after before) (insert_stable before x l).
Proof.
  induction 1 as [|y r Hr IH Hy]; cbn [insert_stable].
  - repeat constructor.
  - destruct (before y x) eqn:E.
    + constructor; [exact IH|].
      apply Forall_forall. intros z Hz.
      apply (Permutation_in _ (Permutation_sym (insert_stable_perm before x r)))
        in Hz.
      destruct Hz as [<-|Hz]; [now apply before_asym|].
      rewrite Forall_forall in Hy. now apply Hy.
    + constructor; [now constructor|].
      constructor; [exact E|].
      apply Forall_forall. intros z Hz. rewrite Forall_forall in Hy.
      apply (before_trans x y z); [exact E|now apply Hy].
Qed.

Lemma sort_stable_sorted l :
  StronglySorted (not_after before) (sort_stable before l).
Proof.
  induction l as [|x r IH]; [constructor|].
  cbn [sort_stable]. now apply insert_stable_sorted.
Qed.

End StableSortSorted.

Lemma StronglySorted_nth {A : Type} (R : A -> A -> Prop) l :
  StronglySorted R l ->
  forall i j x y, (i < j)%nat ->
    nth_error l i = Some x -> nth_error l j = Some y -> R x y.
Proof.
  induction 1 as [|a r Hr IH Ha]; intros i j x y Hij Hi Hj.
  - destruct i; discriminate.
  - destruct j as [|j]; [lia|]. cbn [nth_error] in Hj.
    destruct i as [|i].
    + injection Hi as <-. rewrite Forall_forall in Ha.
      apply Ha. eapply nth_error_In; eauto.
    + cbn [nth_error] in Hi. apply (IH i j); auto. lia.
Qed.

(** *** Weak orders *)

Lemma weak_order_lex {A B : Type} (ltA eqA : A -> A -> bool)
    (ltB eqB : B -> B -> bool) :
  weak_order ltA eqA -> weak_order ltB eqB ->
  weak_order (lex_ltb ltA eqA ltB) (lex_eqb eqA eqB).
Proof.
  intros [asA trA tiA] [asB trB tiB].
  assert (forall x y, eqA x y = true -> eqA y x = true) as symA.
  { intros x y H. apply tiA. apply tiA in H. tauto. }
  assert (forall x y, eqA x y = false ->
                      ltA x y = false -> ltA y x = true) as totA.
  { intros x y He Hl. destruct (ltA y x) eqn:F; [reflexivity|].
    assert (eqA x y = true) by (apply tiA; auto). congruence. }
  split; unfold lex_ltb, lex_eqb.
  - intros [a b] [a' b']; cbn [fst snd]. intros H.
    apply orb_true_iff in H. destruct H as [H|H].
    + rewrite (asA _ _ H). cbn [orb].
      destruct (eqA a' a) eqn:E; [|reflexivity].
      apply tiA in E. destruct E. congruence.
    + apply andb_prop in H. destruct H as [He Hb].
      pose proof (proj1 (tiA _ _) He) as [H1 H2].
      rewrite H2, (symA _ _ He), (asB _ _ Hb). reflexivity.
  - intros [a b] [a' b'] [a'' b'']; cbn [fst snd]. intros H1 H2.
    apply orb_false_elim in H1, H2. destruct H1 as [L1 M1], H2 as [L2 M2].
    rewrite (trA _ _ _ L1 L2). cbn [orb].
    destruct (eqA a'' a) eqn:E; [|reflexivity]. cbn [andb].
    apply tiA in E. destruct E as [E1 E2].
    assert (eqA a' a = true) as F1.
    { apply tiA. split; [exact L1|]. apply (trA _ _ _ L2 E2). }
    assert (eqA a'' a' = true) as F2.
    { apply tiA. split; [exact L2|]. apply (trA _ _ _ E2 L1). }
    rewrite F1 in M1. rewrite F2 in M2. cbn [andb] in M1, M2.
    apply (trB _ _ _ M1 M2).
  - intros [a b] [a' b']; cbn [fst snd]. split.
    + intros H. apply andb_prop in H. destruct H as [Ha Hb].
      pose proof (proj1 (tiA _ _) Ha) as [H1 H2].
      pose proof (proj1 (tiB _ _) Hb) as [H3 H4].
      rewrite H1, H2, H3, H4, !andb_false_r. auto.
    + intros [H1 H2].
      apply orb_false_elim in H1, H2. destruct H1 as [L1 M1], H2 as [L2 M2].
      assert (eqA a a' = true) as E by (apply tiA; auto).
      rewrite E, (symA _ _ E) in *. cbn [andb] in *.
      apply tiB. auto.
Qed.

Lemma weak_order_Z_desc : weak_order (fun a b => (b <? a)%Z) Z.eqb.
Proof.
  split; intros; rewrite ?Z.ltb_lt, ?Z.ltb_ge, ?Z.eqb_eq in *; lia.
Qed.

Lemma weak_order_Z : weak_order Z.ltb Z.eqb.
Proof.
  split; intros; rewrite ?Z.ltb_lt, ?Z.ltb_ge, ?Z.eqb_eq in *; lia.
Qed.

Lemma Qltb_false a b : Qltb a b = false <-> b <= a.
Proof.
  unfold Qltb. rewrite negb_false_iff. apply Qle_bool_iff.
Qed.

Lemma Qltb_true a b : Qltb a b = true <-> a < b.
Proof.
  unfold Qltb. rewrite negb_true_iff. split.
  - intros H. apply Qnot_le_lt. intros F. apply Qle_bool_iff in F. congruence.
  - intros H. destruct (Qle_bool b a) eqn:E; [|reflexivity].
    apply Qle_bool_iff in E. exfalso. apply (Qlt_irrefl a).
    eapply Qlt_le_trans; eauto.
Qed.

Lemma weak_order_Q : weak_order Qltb Qeq_bool.
Proof.
  split.
  - intros x y H. apply Qltb_true in H. apply Qltb_false.
    now apply Qlt_le_weak.
  - intros x y z H1 H2. apply Qltb_false in H1, H2. apply Qltb_false.
    eapply Qle_trans; eauto.
  - intros x y. rewrite Qeq_bool_iff, !Qltb_false. split.
    + intros H. rewrite H. split; apply Qle_refl.
    + intros [H1 H2]. now apply Qle_antisym.
Qed.

Lemma str_ltb_true a b : FindBestCommanders.str_ltb a b = true <-> str_lt a b.
Proof.
  unfold FindBestCommanders.str_ltb, str_lt, OrdersEx.String_as_OT.lt.
  destruct (OrdersEx.String_as_OT.compare a b); split; congruence.
Qed.

Lemma str_order_cases a b : str_lt a b \/ a = b \/ str_lt b a.
Proof.
  destruct (OrdersEx.String_as_OT.compare_spec a b); auto.
Qed.

Lemma str_lt_irrefl a : ~ str_lt a a.
Proof. apply (StrictOrder_Irreflexive (R := OrdersEx.String_as_OT.lt)). Qed.

Lemma str_lt_trans a b c : str_lt a b -> str_lt b c -> str_lt a c.
Proof. apply (StrictOrder_Transitive (R := OrdersEx.String_as_OT.lt)). Qed.

Lemma str_ltb_false a b :
  FindBestCommanders.str_ltb a b = false <-> (a = b \/ str_lt b a).
Proof.
  split.
  - intros H. destruct (str_order_cases a b) as [L|[E|G]]; auto.
    apply str_ltb_true in L. congruence.
  - intros H. destruct (FindBestCommanders.str_ltb a b) eqn:E; [|reflexivity].
    apply str_ltb_true in E. exfalso. destruct H as [->|G].
    + now apply str_lt_irrefl in E.
    + apply (str_lt_irrefl a). eapply str_lt_trans; eauto.
Qed.

Lemma weak_order_string : weak_order FindBestCommanders.str_ltb String.eqb.
Proof.
  split.
  - intros x y H. apply str_ltb_true in H. apply str_ltb_false. now right.
  - intros x y z H1 H2. apply str_ltb_false in H1, H2. apply str_ltb_false.
    destruct H1 as [->|H1], H2 as [->|H2]; auto.
    right. eapply str_lt_trans; eauto.
  - intros x y. rewrite String.eqb_eq, !str_ltb_false. split.
    + intros ->. auto.
    + intros [[->|H1] [E|H2]]; auto.
      exfalso. apply (str_lt_irrefl x). eapply str_lt_trans; eauto.
Qed.

Lemma weak_order_key : weak_order key_ltb key_eqb.
Proof.
  unfold key_ltb, key_eqb.
  repeat apply weak_order_lex;
    auto using weak_order_Z_desc, weak_order_Z, weak_order_string,
      weak_order_Q.
Qed.

Lemma row_before_key flat x y :
  FindBestCommanders.row_before flat x y
  = key_ltb (row_key flat x) (row_key flat y).
Proof. reflexivity. Qed.

Lemma fst_priority r : fst (FindBestCommanders.get_sort_priority r) = tier r.
Proof.
  unfold FindBestCommanders.get_sort_priority, tier, pct.
  destruct (String.eqb _ "both"); [reflexivity|].
  destruct (String.eqb _ "edhrec" && _); [reflexivity|].
  destruct (String.eqb _ "average"); reflexivity.
Qed.

Lemma snd_priority r :
  average_without_percent r ->
  snd (FindBestCommanders.get_sort_priority r) == - pct r.
Proof.
  unfold average_without_percent, FindBestCommanders.get_sort_priority, pct.
  intros H.
  destruct (String.eqb _ "both"); [reflexivity|].
  destruct (String.eqb _ "edhrec" && _); [reflexivity|].
  destruct (String.eqb _ "average") eqn:E; [|reflexivity].
  apply String.eqb_eq in E. rewrite (H E). reflexivity.
Qed.

(** The column [commander_total] holds, for each row, the number of rows
    of its commander. *)
Lemma commander_total_counts flat r :
  FindBestCommanders.commander_total flat r
  = cards_for flat (FindBestCommanders.fr_commander r).
Proof.
  unfold FindBestCommanders.commander_total, cards_for. f_equal.
  induction flat as [|x l IH]; [reflexivity|].
  cbn [filter map count_occ].
  destruct (string_dec (FindBestCommanders.fr_commander x)
              (FindBestCommanders.fr_commander r)) as [E|N].
  - rewrite E, String.eqb_refl. cbn [List.length]. now rewrite IH.
  - apply String.eqb_neq in N. now rewrite N.
Qed.

(** A row that the sort does not put after another may stand before it. *)
Lemma not_before_stated flat x y :
  average_without_percent x -> average_without_percent y ->
  FindBestCommanders.row_before flat y x = false ->
  stated_order flat x y.
Proof.
  intros Ax Ay. rewrite row_before_key.
  unfold key_ltb, lex_ltb, row_key, stated_order. cbn [fst snd].
  rewrite !fst_priority, !commander_total_counts.
  intros H. apply orb_false_elim in H. destruct H as [H1 H].
  apply Z.ltb_ge in H1.
  destruct (Z.eqb_spec
              (cards_for flat (FindBestCommanders.fr_commander y))
              (cards_for flat (FindBestCommanders.fr_commander x)))
    as [Et|Nt]; [|left; lia].
  right. split; [now symmetry|]. cbn [andb] in H.
  apply orb_false_elim in H. destruct H as [H2 H].
  apply str_ltb_false in H2. destruct H2 as [Ec|Lc]; [|now left].
  right. split; [now symmetry|].
  rewrite Ec, String.eqb_refl in H. cbn [andb] in H.
  apply orb_false_elim in H. destruct H as [H3 H].
  apply Z.ltb_ge in H3.
  destruct (Z.eqb_spec (tier y) (tier x)) as [Ei|Ni]; [|left; lia].
  right. split; [now symmetry|]. cbn [andb] in H.
  apply Qltb_false in H.
  rewrite (snd_priority _ Ax), (snd_priority _ Ay) in H. lra.
Qed.

Lemma row_before_asym flat x y :
  FindBestCommanders.row_before flat x y = true ->
  FindBestCommanders.row_before flat y x = false.
Proof. rewrite !row_before_key. apply (wo_asym _ _ weak_order_key). Qed.

Lemma row_before_trans flat x y z :
  FindBestCommanders.row_before flat y x = false ->
  FindBestCommanders.row_before flat z y = false ->
  FindBestCommanders.row_before flat z x = false.
Proof. rewrite !row_before_key. apply (wo_trans _ _ weak_order_key). Qed.

Section Merge.
Context {U : PyLib}.
Variable card_page : string -> response.
Variable fetch_average_deck : string -> list string.
Variable inv_map : list (string * Z).
Variable inv_source_map : list (string * string).

Lemma mark_both_average commander lower flat :
  Forall average_without_percent flat ->
  Forall average_without_percent
    (FindBestCommanders.mark_both commander lower flat).
Proof.
  induction 1 as [|x r Hx Hr IH]; cbn [FindBestCommanders.mark_both];
    [constructor|].
  destruct (FindBestCommanders.same_card commander lower x).
  - constructor; [|exact Hr]. intros F. discriminate F.
  - now constructor.
Qed.

Lemma average_step_average commander flat card flat' :
  Forall average_without_percent flat ->
  FindBestCommanders.average_step card_page inv_map inv_source_map commander
    flat card = Returns flat' ->
  Forall average_without_percent flat'.
Proof.
  intros H. unfold FindBestCommanders.average_step.
  destruct (assoc_has _ inv_map); cbn [negb]; [|now intros [= <-]].
  destruct (FindBestCommanders.find_scryfall_for_card _ _); [|discriminate].
  cbn [bind]. destruct (existsb _ flat); intros [= <-].
  - now apply mark_both_average.
  - apply Forall_app. split; [exact H|].
    constructor; [|constructor]. intros _. reflexivity.
Qed.

Lemma edhrec_rows_average df :
  Forall average_without_percent
    (FindBestCommanders.edhrec_rows inv_source_map df).
Proof.
  unfold FindBestCommanders.edhrec_rows.
  apply Forall_flat_map, Forall_forall. intros row _.
  apply Forall_map, Forall_forall. intros c _ F. discriminate F.
Qed.

Lemma merged_rows_average df flat :
  FindBestCommanders.merged_rows card_page fetch_average_deck inv_map
    inv_source_map df = Returns flat ->
  Forall average_without_percent flat.
Proof.
  unfold FindBestCommanders.merged_rows.
  apply (fold_outcome_invariant (Forall average_without_percent));
    [|apply edhrec_rows_average].
  intros flat0 row flat' _ H0.
  apply (fold_outcome_invariant (Forall average_without_percent));
    [|exact H0].
  intros flat1 card flat1' _. apply average_step_average.
Qed.

(** C2: when the merge of the two sources returns a list that is not
    empty, the export returns its rows in this order: more cards for the
    commander first, then the smaller commander name, then the smaller
    tier (1 for "both", 2 for "edhrec" above 0.20, 3 for "average", 4 for
    the rest), then the larger percentage.  So for one commander a row
    marked "both" stands before every row marked "average", whatever the
    percentages. *)
Theorem merged_list_order df flat :
  FindBestCommanders.merged_rows card_page fetch_average_deck inv_map
    inv_source_map df = Returns flat ->
  flat <> [] ->
  exists out,
    FindBestCommanders.export_rows card_page fetch_average_deck inv_map
      inv_source_map df = Returns out /\
    Permutation flat out /\
    StronglySorted (stated_order flat) out /\
    (forall i j x y,
       nth_error out i = Some x -> nth_error out j = Some y ->
       FindBestCommanders.fr_commander x = FindBestCommanders.fr_commander y ->
       FindBestCommanders.fr_source x = "both" ->
       FindBestCommanders.fr_source y = "average" ->
       (i < j)%nat).
Proof.
  intros Hm Hne.
  pose proof (merged_rows_average _ _ Hm) as Havg.
  exists (sort_stable (FindBestCommanders.row_before flat) flat).
  assert (Permutation flat
            (sort_stable (FindBestCommanders.row_before flat) flat)) as Hperm
    by apply sort_stable_perm.
  assert (StronglySorted (stated_order flat)
            (sort_stable (FindBestCommanders.row_before flat) flat)) as Hsorted.
  { assert (Forall average_without_percent
              (sort_stable (FindBestCommanders.row_before flat) flat)) as Ha.
    { apply Forall_forall. intros r Hr. rewrite Forall_forall in Havg.
      apply Havg. now apply sort_stable_In in Hr. }
    pose proof (sort_stable_sorted (FindBestCommanders.row_before flat)
                  (row_before_asym flat) (row_before_trans flat) flat) as S.
    revert Ha S.
    generalize (sort_stable (FindBestCommanders.row_before flat) flat).
    intros l Ha S. induction S as [|a r Sr IH Hr]; [constructor|].
    inversion Ha as [|? ? Aa Ar]; subst.
    constructor; [now apply IH|].
    rewrite Forall_forall in *. intros z Hz.
    apply not_before_stated; [exact Aa | now apply Ar | exact (Hr z Hz)]. }
  split; [|split; [exact Hperm|split; [exact Hsorted|]]].
  - unfold FindBestCommanders.export_rows. rewrite Hm. cbn [bind].
    unfold FindBestCommanders.sorted_rows. destruct flat; [contradiction|].
    reflexivity.
  - intros i j x y Hi Hj Hc Hx Hy.
    destruct (Nat.lt_trichotomy i j) as [L|[E|G]]; [exact L| |]; exfalso.
    + subst j. rewrite Hi in Hj. injection Hj as <-. congruence.
    + pose proof (StronglySorted_nth _ _ Hsorted _ _ _ _ G Hj Hi) as O.
      unfold stated_order in O. cbn zeta in O.
      assert (tier x = 1%Z) as Tx by (unfold tier; now rewrite Hx).
      assert (tier y = 3%Z) as Ty by (unfold tier; now rewrite Hy).
      rewrite Tx, Ty, Hc in O.
      destruct O as [O|(_ & [O|(_ & [O|(O & _)])])]; try lia.
      now apply str_lt_irrefl in O.
Qed.

End Merge.

Example sample_flat_is_the_merge :
  @FindBestCommanders.merged_rows ascii_text no_page sample_average_deck
    sample_inv_map sample_inv_source_map sample_commanders
  = Returns sample_flat.
Proof. vm_compute. reflexivity. Qed.

(** The card found in both sources (0.3) stands before the card of the
    commander analysis alone (0.5), the card of the average deck comes
    third, and the commander with fewer cards comes last. *)
Example sample_export :
  match @FindBestCommanders.export_rows ascii_text no_page
          sample_average_deck sample_inv_map sample_inv_source_map
          sample_commanders with
  | Returns out =>
      map (fun r => (FindBestCommanders.fr_commander r,
                     FindBestCommanders.fr_card r,
                     FindBestCommanders.fr_source r)) out
  | Raises => []
  end
  = [("Atraxa, Praetors' Voice", "Arcane Signet", "both");
     ("Atraxa, Praetors' Voice", "Sol Ring", "edhrec");
     ("Atraxa, Praetors' Voice", "Command Tower", "average");
     ("Muldrotha, the Gravetide", "Sol Ring", "edhrec")].
Proof. vm_compute. reflexivity. Qed.

Lemma merged_list_order_witness :
  exists out,
    @FindBestCommanders.export_rows ascii_text no_page (fun _ => [])
      sample_inv_map sample_inv_source_map sample_commanders_by_count
      = Returns out /\
    Permutation sample_flat_by_count out /\
    StronglySorted (stated_order sample_flat_by_count) out /\
    (forall i j x y,
       nth_error out i = Some x -> nth_error out j = Some y ->
       FindBestCommanders.fr_commander x = FindBestCommanders.fr_commander y ->
       FindBestCommanders.fr_source x = "both" ->
       FindBestCommanders.fr_source y = "average" ->
       (i < j)%nat).
Proof.
  apply (@merged_list_order ascii_text no_page (fun _ => []) sample_inv_map
           sample_inv_source_map sample_commanders_by_count
           sample_flat_by_count).
  - vm_compute. reflexivity.
  - discriminate.
Defined.

(** The commander with two cards comes before the commander with one,
    though its name is the larger; and the rows of the first sample come
    out as the theorem says. *)
Example export_puts_more_cards_first :
  match @FindBestCommanders.export_rows ascii_text no_page (fun _ => [])
          sample_inv_map sample_inv_source_map sample_commanders_by_count with
  | Returns out =>
      map (fun r => (FindBestCommanders.fr_commander r,
                     FindBestCommanders.fr_card r)) out
  | Raises => []
  end
  = [("Muldrotha, the Gravetide", "Sol Ring");
     ("Muldrotha, the Gravetide", "Arcane Signet");
     ("Atraxa, Praetors' Voice", "Sol Ring")] /\
  map (cards_for sample_flat_by_count)
    ["Muldrotha, the Gravetide"; "Atraxa, Praetors' Voice"] = [2%Z; 1%Z].
Proof. split; vm_compute; reflexivity. Qed.

(** ** Inventory *)

Section Inventory.
Context {U : PyLib}.

Lemma complete_deck_add_row_find m name quantity source key :
  assoc_find key (CompleteDeck.add_row m (name, quantity, source))
  = if String.eqb (str_lower name) key
    then Some
           match assoc_find key m with
           | Some e =>
               {| CompleteDeck.inv_name := CompleteDeck.inv_name e;
                  CompleteDeck.inv_quantity :=
                    CompleteDeck.inv_quantity e + quantity;
                  CompleteDeck.inv_collections :=
                    (CompleteDeck.inv_collections e ++ [source])%list |}
           | None =>
               {| CompleteDeck.inv_name := name;
                  CompleteDeck.inv_quantity := 0 + quantity;
                  CompleteDeck.inv_collections := [source] |}
           end
    else assoc_find key m.
Proof.
  unfold CompleteDeck.add_row, assoc_has.
  destruct (String.eqb (str_lower name) key) eqn:E.
  - apply String.eqb_eq in E. subst key.
    destruct (assoc_find (str_lower name) m) as [e|] eqn:F.
    + rewrite F, assoc_find_set, String.eqb_refl. reflexivity.
    + rewrite !assoc_find_set, String.eqb_refl.
      rewrite assoc_find_set, String.eqb_refl. reflexivity.
  - destruct (assoc_find (str_lower name) m) as [e|] eqn:F.
    + rewrite F, assoc_find_set, E. reflexivity.
    + rewrite assoc_find_set, String.eqb_refl, !assoc_find_set, E.
      reflexivity.
Qed.

(** What the index of [complete_deck.py] holds under a key: the name of
    the first row, the sum of the quantities and the label of every row, in
    file order. *)
Lemma complete_deck_inventory_from rows : forall m key e0,
  assoc_find key m = Some e0 ->
  exists e,
    assoc_find key (fold_left CompleteDeck.add_row rows m) = Some e /\
    CompleteDeck.inv_name e = CompleteDeck.inv_name e0 /\
    CompleteDeck.inv_quantity e
    = (CompleteDeck.inv_quantity e0
       + Zsum (map row_quantity (rows_for key rows)))%Z /\
    CompleteDeck.inv_collections e
    = (CompleteDeck.inv_collections e0
       ++ map row_source (rows_for key rows))%list.
Proof.
  induction rows as [|[[n q] s] r IH]; intros m key e0 H.
  - exists e0. cbn. rewrite app_nil_r. repeat split; auto. lia.
  - cbn [fold_left rows_for filter fst snd].
    pose proof (complete_deck_add_row_find m n q s key) as F.
    rewrite H in F. fold (rows_for key r).
    destruct (String.eqb (str_lower n) key).
    + destruct (IH _ _ _ F) as (e & He & Hn & Hq & Hc).
      exists e. cbn [CompleteDeck.inv_name CompleteDeck.inv_quantity
                     CompleteDeck.inv_collections] in *.
      repeat split; auto.
      * rewrite Hq. cbn [map Zsum fold_right row_quantity fst snd].
        unfold Zsum. lia.
      * rewrite Hc, <- app_assoc. reflexivity.
    + destruct (IH _ _ _ F) as (e & He & Hn & Hq & Hc).
      exists e. auto.
Qed.

(** X1: The index that [load_inventory] of [complete_deck.py] builds holds a
    card exactly when the file has a row for it, letter case apart; its
    entry then carries the name of the first such row, the sum of the
    quantities of those rows and the source of every one of them, in file
    order. *)
Lemma complete_deck_inventory_sums rows key :
  match rows_for key rows with
  | [] => assoc_find key (CompleteDeck.load_inventory rows) = None
  | first :: _ =>
      exists e,
        assoc_find key (CompleteDeck.load_inventory rows) = Some e /\
        CompleteDeck.inv_name e = fst (fst first) /\
        CompleteDeck.inv_quantity e
        = Zsum (map row_quantity (rows_for key rows)) /\
        CompleteDeck.inv_collections e
        = map row_source (rows_for key rows)
  end.
Proof.
  unfold CompleteDeck.load_inventory.
  assert (forall m, assoc_find key m = None ->
    match rows_for key rows with
    | [] => assoc_find key (fold_left CompleteDeck.add_row rows m) = None
    | first :: _ =>
        exists e,
          assoc_find key (fold_left CompleteDeck.add_row rows m) = Some e /\
          CompleteDeck.inv_name e = fst (fst first) /\
          CompleteDeck.inv_quantity e
          = Zsum (map row_quantity (rows_for key rows)) /\
          CompleteDeck.inv_collections e
          = map row_source (rows_for key rows)
    end) as G; [|now apply G].
  induction rows as [|[[n q] s] r IH]; intros m H; [exact H|].
  cbn [fold_left rows_for filter fst snd].
  pose proof (complete_deck_add_row_find m n q s key) as F.
  rewrite H in F. fold (rows_for key r).
  destruct (String.eqb (str_lower n) key).
  - destruct (complete_deck_inventory_from r _ _ _ F)
      as (e & He & Hn & Hq & Hc).
    exists e. cbn [CompleteDeck.inv_name CompleteDeck.inv_quantity
                   CompleteDeck.inv_collections] in *.
    repeat split; auto.
  - now apply IH.
Qed.

Lemma add_collection_tags_add_row_find m name quantity source key :
  assoc_find key (AddCollectionTags.add_row m (name, quantity, source))
  = if String.eqb (str_lower name) key
    then Some
           (let cs := match assoc_find key m with
                      | Some cs => cs
                      | None => []
                      end in
            if str_in source cs then cs else (cs ++ [source])%list)
    else assoc_find key m.
Proof.
  unfold AddCollectionTags.add_row, assoc_has.
  destruct (String.eqb (str_lower name) key) eqn:E.
  - apply String.eqb_eq in E. subst key.
    destruct (assoc_find (str_lower name) m) as [cs|] eqn:F.
    + rewrite F. cbn zeta. destruct (str_in source cs); [exact F|].
      now rewrite assoc_find_set, String.eqb_refl.
    + rewrite assoc_find_set, String.eqb_refl. cbn [str_in existsb].
      now rewrite assoc_find_set, String.eqb_refl.
  - destruct (assoc_find (str_lower name) m) as [cs|] eqn:F.
    + rewrite F. destruct (str_in source cs); [reflexivity|].
      now rewrite assoc_find_set, E.
    + rewrite assoc_find_set, String.eqb_refl. cbn [str_in existsb].
      now rewrite !assoc_find_set, E.
Qed.

(** The label lists of [add_collection_tags.py] never repeat a label. *)
Lemma add_collection_tags_inventory_nodup rows key cs :
  assoc_find key (AddCollectionTags.load_inventory rows) = Some cs ->
  NoDup cs.
Proof.
  unfold AddCollectionTags.load_inventory.
  assert (forall m,
            (forall cs, assoc_find key m = Some cs -> NoDup cs) ->
            forall cs,
              assoc_find key (fold_left AddCollectionTags.add_row rows m)
                = Some cs -> NoDup cs) as G.
  { induction rows as [|[[n q] s] r IH]; intros m Hm; [exact Hm|].
    cbn [fold_left]. apply IH. intros cs0.
    rewrite add_collection_tags_add_row_find.
    destruct (String.eqb (str_lower n) key); [|apply Hm].
    intros [= <-].
    assert (NoDup match assoc_find key m with Some c => c | None => [] end)
      as Hnd by (destruct (assoc_find key m); [now apply Hm|constructor]).
    cbn zeta. destruct (str_in s _) eqn:E; [exact Hnd|].
    apply NoDup_app; [exact Hnd|repeat constructor; auto|].
    intros x Hx [<-|[]]. apply str_in_In in Hx. congruence. }
  apply G. discriminate.
Qed.

End Inventory.

(** Property 3 of the specification: quantity 3 under the key [sol ring],
    and the two labels. *)
Example inventory_example :
  @CompleteDeck.load_inventory ascii_text two_label_rows
  = [("sol ring",
      {| CompleteDeck.inv_name := "Sol Ring";
         CompleteDeck.inv_quantity := 3;
         CompleteDeck.inv_collections := ["SetA"; "SetB"] |})] /\
  @AddCollectionTags.load_inventory ascii_text two_label_rows
  = [("sol ring", ["SetA"; "SetB"])].
Proof. split; reflexivity. Qed.

(** C8 on two rows of one collection: the key is the lower-cased name and
    the quantities are summed, but the index of [complete_deck.py] keeps
    the label twice, where [add_collection_tags.py] keeps it once. *)
Lemma complete_deck_inventory_repeats_labels :
  @CompleteDeck.load_inventory ascii_text repeated_label_rows
  = [("sol ring",
      {| CompleteDeck.inv_name := "Sol Ring";
         CompleteDeck.inv_quantity := 3;
         CompleteDeck.inv_collections := ["SetA"; "SetA"] |})] /\
  @AddCollectionTags.load_inventory ascii_text repeated_label_rows
  = [("sol ring", ["SetA"])].
Proof. split; reflexivity. Qed.

(** * Further properties of the scripts *)

(** ** Tags and links *)

(** X2: A tag is a fixed point of the sanitizer: sanitizing twice changes
    nothing. *)
Theorem sanitize_collection_name_idempotent s :
  AddCollectionTags.sanitize_collection_name
    (AddCollectionTags.sanitize_collection_name s)
  = AddCollectionTags.sanitize_collection_name s.
Proof.
  destruct (sanitize_chars s) as [K W]. rewrite no_white_free in W.
  set (t := AddCollectionTags.sanitize_collection_name s) in *.
  rewrite sanitize_unfold, (clean_label_keeps _ K).
  destruct t as [|c r] eqn:E; [reflexivity|]. rewrite <- E in *.
  rewrite split_single; [reflexivity | now rewrite E | exact W].
Qed.

Lemma str_app_inv_head (p x y : string) : p ++ x = p ++ y -> x = y.
Proof.
  induction p as [|c p IH]; cbn [append]; [auto|].
  intros [= H]. auto.
Qed.

Lemma str_app_inv_tail (x y : string) c :
  x ++ String c EmptyString = y ++ String c EmptyString -> x = y.
Proof.
  revert y. induction x as [|a x IH]; intros [|b y] E; cbn [append] in E.
  - reflexivity.
  - injection E as E1 E2. destruct y; discriminate.
  - injection E as E1 E2. destruct x; discriminate.
  - injection E as -> E. f_equal. now apply IH.
Qed.

Lemma url_quote_app a b : url_quote (a ++ b) = url_quote a ++ url_quote b.
Proof.
  induction a as [|c r IH]; [reflexivity|].
  cbn [append url_quote]. rewrite IH.
  destruct (is_quote_safe c); reflexivity.
Qed.

Lemma url_unquote_quote s : url_unquote (url_quote s) = s.
Proof.
  induction s as [|c r IH]; [reflexivity|].
  cbn [url_quote]. destruct (is_quote_safe c) eqn:E.
  - cbn [url_unquote].
    assert (Ascii.eqb c "%" = false) as -> by (revert E; by_ascii_cases c).
    now rewrite IH.
  - cbn [url_unquote]. rewrite IH. f_equal. clear. by_ascii_cases c.
Qed.

(** X3: The quoted form of a text holds only unreserved characters, slashes and
    percent signs, a text of such safe characters is left as it is, and
    the quoted form can be read back: two names never share a link. *)
Theorem url_quote_safe_and_reversible :
  (forall s,
     str_forall (fun c => is_quote_safe c || Ascii.eqb c "%") (url_quote s)
       = true) /\
  (forall s, str_forall is_quote_safe s = true -> url_quote s = s) /\
  (forall s, url_unquote (url_quote s) = s) /\
  (forall a b,
     CompleteDeck.generate_scryfall_url a = CompleteDeck.generate_scryfall_url b
     -> a = b).
Proof.
  split; [|split; [|split]].
  - induction s as [|c r IH]; [reflexivity|].
    cbn [url_quote]. destruct (is_quote_safe c) eqn:E.
    + cbn [str_forall]. now rewrite E, IH.
    + cbn [str_forall]. rewrite IH, !andb_true_r. clear. by_ascii_cases c.
  - induction s as [|c r IH]; [reflexivity|].
    cbn [str_forall url_quote]. intros H. apply andb_prop in H.
    destruct H as [Hc Hr]. now rewrite Hc, IH.
  - exact url_unquote_quote.
  - intros a b H. unfold CompleteDeck.generate_scryfall_url in H.
    apply str_app_inv_head in H.
    apply (f_equal url_unquote) in H. rewrite !url_unquote_quote in H.
    cbn [append] in H. injection H as H.
    now apply str_app_inv_tail in H.
Qed.

(** ** What the walks return *)

Section WalkResults.
Context {U : PyLib}.

Lemma link_scan_sound target o : forall found r,
  Shared.link_scan target o found = Returns r ->
  r = found \/ exists d, In d (dict_nodes o) /\ links_target target r d.
Proof.
  induction o as [|b|q|str|l IH|d IH] using json_nested_ind; intros found r;
    try (cbn [Shared.link_scan]; destruct (truthy found);
         intros [= <-]; now left).
  - cbn [Shared.link_scan dict_nodes].
    destruct (truthy found); [intros [= <-]; now left|].
    revert found.
    induction IH as [|x rest Hx Hr IHr]; intros found.
    + intros [= <-]. now left.
    + destruct (Shared.link_scan target x found) as [f1|] eqn:E;
        [|discriminate].
      cbn [bind]. intros H.
      destruct (IHr _ H) as [->|(d & Hd & L)].
      * destruct (Hx _ _ E) as [->|(d & Hd & L)]; [now left|].
        right. exists d. split; [apply in_or_app; now left|exact L].
      * right. exists d. split; [apply in_or_app; now right|exact L].
  - cbn [Shared.link_scan dict_nodes].
    destruct (truthy found); [intros [= <-]; now left|].
    assert (forall found r,
      (fix values (vs : list (string * json)) (found : json) :=
         match vs with
         | [] => Returns found
         | (_, v) :: r =>
             found' <- Shared.link_scan target v found ;; values r found'
         end) d found = Returns r ->
      r = found \/
      exists n, In n ((fix values (vs : list (string * json)) :=
                         match vs with
                         | [] => []
                         | (_, v) :: r => (dict_nodes v ++ values r)%list
                         end) d) /\ links_target target r n) as Hvalues.
    { clear found r.
      induction IH as [|[k v] rest Hx Hr IHr]; intros found r.
      - intros [= <-]. now left.
      - destruct (Shared.link_scan target v found) as [f1|] eqn:E;
          [|discriminate].
        cbn [bind]. intros H. cbn [snd] in Hx.
        destruct (IHr _ _ H) as [->|(n & Hn & L)].
        + destruct (Hx _ _ E) as [->|(n & Hn & L)]; [now left|].
          right. exists n. split; [apply in_or_app; now left|exact L].
        + right. exists n. split; [apply in_or_app; now right|exact L]. }
    assert (forall r,
      (fix values (vs : list (string * json)) (found : json) :=
         match vs with
         | [] => Returns found
         | (_, v) :: r =>
             found' <- Shared.link_scan target v found ;; values r found'
         end) d found = Returns r ->
      r = found \/
      exists n, In n (d :: (fix values (vs : list (string * json)) :=
                         match vs with
                         | [] => []
                         | (_, v) :: r => (dict_nodes v ++ values r)%list
                         end) d) /\ links_target target r n) as Hrest.
    { intros r0 H. destruct (Hvalues _ _ H) as [->|(n & Hn & L)];
        [now left|]. right. exists n. split; [now right|exact L]. }
    destruct (truthy (dict_get "name" d)); [|apply Hrest].
    destruct (dict_get "name" d) as [| | |nm| |] eqn:En; try discriminate.
    destruct (String.eqb (str_lower nm) target) eqn:Et; [|apply Hrest].
    destruct (dict_find "scryfall_uri" d) as [uri|] eqn:Eu; [|apply Hrest].
    intros [= <-]. right. exists d. split; [now left|].
    split; [|exact Eu]. exists nm. split; [exact En|].
    now apply String.eqb_eq.
Qed.

(** X4: The link that [find_scryfall_for_card] returns is [None], or it is the
    [scryfall_uri] of a mapping node of the payload whose name is the
    card's, letter case apart: it never hands out the link of another
    card.  Without a payload it returns [None]. *)
Theorem own_link_is_the_cards data card r :
  FindBestCommanders.find_scryfall_for_card data card = Returns r ->
  r = JNull \/
  exists t d, data = Some t /\ In d (dict_nodes t) /\
              links_target (str_lower card) r d.
Proof.
  destruct data as [t|]; cbn [FindBestCommanders.find_scryfall_for_card].
  - intros H. destruct (link_scan_sound _ _ _ _ H) as [->|(d & Hd & L)];
      [now left|]. right. now exists t, d.
  - intros [= <-]. now left.
Qed.

Lemma find_color_identity_sound t : forall depth,
  CompleteDeck.find_color_identity t depth = JNull \/
  exists d, In d (dict_nodes t) /\
            exposes_colors (CompleteDeck.find_color_identity t depth) d.
Proof.
  induction t as [|b|q|str|l IH|fs IH] using json_nested_ind; intros depth;
    try (cbn [CompleteDeck.find_color_identity];
         destruct (10 <? depth)%nat; now left).
  - cbn [CompleteDeck.find_color_identity dict_nodes].
    destruct (10 <? depth)%nat; [now left|].
    induction IH as [|x rest Hx Hr IHr]; [now left|].
    destruct (truthy (CompleteDeck.find_color_identity x (depth + 1))).
    + destruct (Hx (depth + 1)%nat) as [E|(d & Hd & X)]; [now left|].
      right. exists d. split; [apply in_or_app; now left|exact X].
    + destruct IHr as [E|(d & Hd & X)]; [now left|].
      right. exists d. split; [apply in_or_app; now right|exact X].
  - cbn [CompleteDeck.find_color_identity dict_nodes].
    destruct (10 <? depth)%nat; [now left|].
    destruct (dict_find "coloridentity" fs) as [v|] eqn:Ec.
    { right. exists fs. split; [now left|]. now left. }
    assert (
      (fix values (vs : list (string * json)) : json :=
         match vs with
         | [] => JNull
         | (_, v) :: r =>
             if truthy (CompleteDeck.find_color_identity v (depth + 1))
             then CompleteDeck.find_color_identity v (depth + 1)
             else values r
         end) fs = JNull \/
      exists d,
        In d ((fix values (vs : list (string * json)) :=
                 match vs with
                 | [] => []
                 | (_, v) :: r => (dict_nodes v ++ values r)%list
                 end) fs) /\
        exposes_colors
          ((fix values (vs : list (string * json)) : json :=
              match vs with
              | [] => JNull
              | (_, v) :: r =>
                  if truthy (CompleteDeck.find_color_identity v (depth + 1))
                  then CompleteDeck.find_color_identity v (depth + 1)
                  else values r
              end) fs) d) as Hinner.
    { clear Ec.
      induction IH as [|[k v] rest Hx Hr IHr]; [now left|].
      cbn [snd] in Hx.
      destruct (truthy (CompleteDeck.find_color_identity v (depth + 1))).
      - destruct (Hx (depth + 1)%nat) as [E|(d & Hd & X)]; [now left|].
        right. exists d. split; [apply in_or_app; now left|exact X].
      - destruct IHr as [E|(d & Hd & X)]; [now left|].
        right. exists d. split; [apply in_or_app; now right|exact X]. }
    assert (
      (fix values (vs : list (string * json)) : json :=
         match vs with
         | [] => JNull
         | (_, v) :: r =>
             if truthy (CompleteDeck.find_color_identity v (depth + 1))
             then CompleteDeck.find_color_identity v (depth + 1)
             else values r
         end) fs = JNull \/
      exists d,
        In d (fs :: (fix values (vs : list (string * json)) :=
                       match vs with
                       | [] => []
                       | (_, v) :: r => (dict_nodes v ++ values r)%list
                       end) fs) /\
        exposes_colors
          ((fix values (vs : list (string * json)) : json :=
              match vs with
              | [] => JNull
              | (_, v) :: r =>
                  if truthy (CompleteDeck.find_color_identity v (depth + 1))
                  then CompleteDeck.find_color_identity v (depth + 1)
                  else values r
              end) fs) d) as Hvalues.
    { destruct Hinner as [E|(d & Hd & X)]; [now left|].
      right. exists d. split; [now right|exact X]. }
    destruct (dict_find "colors" fs) as [[| | | |l|]|] eqn:El;
      try exact Hvalues.
    right. exists fs. split; [now left|]. right. split; [exact El|].
    now exists l.
Qed.

(** X5: The colour identity that [find_color_identity] returns is [None], or it
    is the [coloridentity] field, or the [colors] field that is a list, of
    a mapping node of the payload. *)
Theorem color_identity_comes_from_a_field t :
  CompleteDeck.find_color_identity t 0 = JNull \/
  exists d, In d (dict_nodes t) /\
            exposes_colors (CompleteDeck.find_color_identity t 0) d.
Proof. apply find_color_identity_sound. Qed.

End WalkResults.

Lemma own_link_is_the_cards_witness :
  @FindBestCommanders.find_scryfall_for_card ascii_text (Some sol_ring_node)
    "SOL RING"
  = Returns (JStr "https://scryfall.com/card/sol-ring") /\
  (JStr "https://scryfall.com/card/sol-ring" = JNull \/
   exists t d, Some sol_ring_node = Some t /\ In d (dict_nodes t) /\
               @links_target ascii_text (@str_lower ascii_text "SOL RING")
                 (JStr "https://scryfall.com/card/sol-ring") d).
Proof.
  split; [reflexivity|].
  apply (@own_link_is_the_cards ascii_text (Some sol_ring_node) "SOL RING"
           (JStr "https://scryfall.com/card/sol-ring") eq_refl).
Defined.

(** ** The label index of add_collection_tags.py *)

Section InventoryLabels.
Context {U : PyLib}.

Lemma add_collection_tags_labels_from rows key : forall m,
  (forall cs, assoc_find key m = Some cs -> NoDup cs) ->
  match assoc_find key (fold_left AddCollectionTags.add_row rows m) with
  | Some cs =>
      NoDup cs /\
      forall s, In s cs <->
        In s (match assoc_find key m with Some c => c | None => [] end) \/
        In s (map row_source (rows_for key rows))
  | None => assoc_find key m = None /\ rows_for key rows = []
  end.
Proof.
  induction rows as [|[[n q] s] r IH]; intros m Hm.
  - cbn [fold_left rows_for filter map].
    destruct (assoc_find key m) as [cs|] eqn:E; [|now split].
    split; [now apply Hm|]. intros x. cbn [In]. tauto.
  - cbn [fold_left rows_for filter fst snd]. fold (rows_for key r).
    specialize (IH (AddCollectionTags.add_row m (n, q, s))).
    rewrite add_collection_tags_add_row_find in IH.
    destruct (String.eqb (str_lower n) key) eqn:E.
    + set (base := match assoc_find key m with Some c => c | None => [] end)
        in *.
      assert (NoDup base) as Hb
        by (subst base; destruct (assoc_find key m);
            [now apply Hm|constructor]).
      cbn zeta in IH.
      assert (NoDup (if str_in s base then base else (base ++ [s])%list))
        as Hstep.
      { destruct (str_in s base) eqn:Es; [exact Hb|].
        apply NoDup_app; [exact Hb|repeat constructor; auto|].
        intros x Hx [<-|[]]. apply str_in_In in Hx. congruence. }
      specialize (IH ltac:(now intros cs0 [= <-])).
      destruct (assoc_find key
                  (fold_left AddCollectionTags.add_row r
                     (AddCollectionTags.add_row m (n, q, s)))) as [cs|];
        [|now destruct IH].
      destruct IH as [Hn Hi]. split; [exact Hn|]. intros x. rewrite Hi.
      cbn [map In row_source snd].
      destruct (str_in s base) eqn:Es.
      * apply str_in_In in Es. split; [tauto|]. intros [H|[<-|H]]; auto.
      * rewrite in_app_iff. cbn [In]. tauto.
    + apply IH, Hm.
Qed.

Lemma add_collection_tags_no_row rows key : forall m,
  rows_for key rows = [] ->
  assoc_find key (fold_left AddCollectionTags.add_row rows m)
  = assoc_find key m.
Proof.
  induction rows as [|[[n q] s] r IH]; intros m H; [reflexivity|].
  cbn [fold_left rows_for filter fst snd] in *. fold (rows_for key r) in H.
  destruct (String.eqb (str_lower n) key) eqn:E; [discriminate|].
  rewrite (IH _ H), add_collection_tags_add_row_find. now rewrite E.
Qed.

(** X6: The index that [load_inventory] of [add_collection_tags.py] builds
    holds a card exactly when the file has a row for it, letter case
    apart: without such a row the key is absent, and with one the key is
    present and its labels are the sources of those rows, each one
    once. *)
Theorem add_collection_tags_inventory_labels rows key :
  match rows_for key rows with
  | [] => assoc_find key (AddCollectionTags.load_inventory rows) = None
  | _ :: _ =>
      exists cs,
        assoc_find key (AddCollectionTags.load_inventory rows) = Some cs /\
        NoDup cs /\
        forall s, In s cs <-> In s (map row_source (rows_for key rows))
  end.
Proof.
  unfold AddCollectionTags.load_inventory.
  pose proof (add_collection_tags_labels_from rows key []) as H.
  pose proof (add_collection_tags_no_row rows key []) as N.
  cbn [assoc_find] in H, N.
  destruct (rows_for key rows) as [|row rest] eqn:Er; [now apply N|].
  destruct (assoc_find key (fold_left AddCollectionTags.add_row rows []))
    as [cs|].
  - destruct H as [Hn Hi]; [discriminate|]. exists cs.
    split; [reflexivity|]. split; [exact Hn|].
    intros s. rewrite Hi. cbn [In]. tauto.
  - destruct H as [_ F]; [discriminate|]. discriminate F.
Qed.

End InventoryLabels.

(** ** The shape of an analysis *)

Lemma StronglySorted_firstn {A : Type} (R : A -> A -> Prop) l : forall n,
  StronglySorted R l -> StronglySorted R (firstn n l).
Proof.
  induction l as [|x r IH]; intros [|n] H; cbn [firstn]; try constructor.
  - apply IH. now inversion H.
  - inversion H as [|? ? _ Hx]; subst. apply Forall_forall. intros y Hy.
    rewrite Forall_forall in Hx. apply Hx. eapply firstn_incl, Hy.
Qed.

Lemma StronglySorted_weaken {A : Type} (P Q : A -> A -> Prop) l :
  (forall x y, P x y -> Q x y) -> StronglySorted P l -> StronglySorted Q l.
Proof.
  intros PQ. induction 1 as [|x r Hr IH Hx]; constructor; [exact IH|].
  eapply Forall_impl; [apply PQ|exact Hx].
Qed.

Lemma sorted_by_Q_desc {A : Type} (f : A -> Q) l :
  StronglySorted (fun x y => f y <= f x)
    (sort_stable (fun x y => Qgtb (f x) (f y)) l).
Proof.
  assert (forall a b, Qgtb a b = Qltb b a) as G by reflexivity.
  apply (StronglySorted_weaken
           (not_after (fun x y => Qgtb (f x) (f y)))).
  - intros x y. unfold not_after. rewrite G. now intros E%Qltb_false.
  - apply sort_stable_sorted.
    + intros x y. rewrite !G. intros E%Qltb_true. apply Qltb_false.
      now apply Qlt_le_weak.
    + intros x y z. rewrite !G. intros E1%Qltb_false E2%Qltb_false.
      apply Qltb_false. eapply Qle_trans; eauto.
Qed.

Section AnalysisShape.
Context {U : PyLib} {R : PyRepr}.
Variables average_deck_page card_page scryfall_named : string -> response.
Variable inventory : list (string * CompleteDeck.inventory_entry).

Lemma edhrec_step_key_cards edhrec_cards current st item st' :
  In item edhrec_cards ->
  Forall (unowned_staple edhrec_cards current inventory) (snd st) ->
  CompleteDeck.edhrec_step current inventory st item = Returns st' ->
  Forall (unowned_staple edhrec_cards current inventory) (snd st').
Proof.
  destruct st as [checks keys], item as [key info]. cbn [snd].
  intros Hin Hst. unfold CompleteDeck.edhrec_step.
  destruct (str_in key current) eqn:Ec; [now intros [= <-]|].
  destruct (assoc_has key inventory) eqn:Ei; cbn [negb];
    [now intros [= <-]|].
  destruct (Qle_bool CompleteDeck.KEY_CARD_INCLUSION_MIN _) eqn:E40;
    [|now intros [= <-]].
  destruct (as_number _) as [price|] eqn:Ep; [|discriminate].
  destruct (Qle_bool price _) eqn:E2; [|now intros [= <-]].
  intros [= <-]. cbn [snd]. apply Forall_app. split; [exact Hst|].
  constructor; [|constructor].
  exists key, info, price.
  cbn [CompleteDeck.kc_name CompleteDeck.kc_inclusion CompleteDeck.kc_price].
  repeat split; auto; now apply Qle_bool_iff.
Qed.

(** X7: An analysis that returns names the deck's commander; its current size
    and the cards needed add up to 64; it lists at most 50 suggestions, by
    falling score, and at most 20 key cards, by falling inclusion; and
    every key card is an entry of the average or budget deck that is
    neither in the deck nor in the collection, played in at least 40% of
    the decks and priced at no more than 2. *)
Theorem analysis_shape d colors a :
  CompleteDeck.analyze_and_complete_deck average_deck_page card_page
    scryfall_named d inventory colors = Returns a ->
  CompleteDeck.an_commander a = CompleteDeck.deck_commander d /\
  (CompleteDeck.an_current_size a + CompleteDeck.an_cards_needed a = 64)%Z /\
  (List.length (CompleteDeck.an_suggestions a) <= 50)%nat /\
  StronglySorted
    (fun x y => CompleteDeck.sg_score y <= CompleteDeck.sg_score x)
    (CompleteDeck.an_suggestions a) /\
  (List.length (CompleteDeck.an_key_cards_missing a) <= 20)%nat /\
  StronglySorted
    (fun x y => CompleteDeck.kc_inclusion y <= CompleteDeck.kc_inclusion x)
    (CompleteDeck.an_key_cards_missing a) /\
  exists edhrec_cards,
    CompleteDeck.get_average_and_budget_deck average_deck_page
      (CompleteDeck.deck_commander d) = Returns edhrec_cards /\
    Forall (unowned_staple edhrec_cards
              (map str_lower (CompleteDeck.deck_cards d)) inventory)
      (CompleteDeck.an_key_cards_missing a).
Proof.
  unfold CompleteDeck.analyze_and_complete_deck,
    CompleteDeck.compile_suggestions.
  set (current := map str_lower (CompleteDeck.deck_cards d)).
  destruct (CompleteDeck.get_average_and_budget_deck _ _)
    as [edhrec_cards|]; [|discriminate].
  cbn [bind].
  destruct (CompleteDeck.accumulate_synergies _ _) as [all|];
    [|discriminate].
  cbn [bind].
  destruct (fold_outcome (CompleteDeck.edhrec_step current inventory)
              edhrec_cards ([], [])) as [[checks keys]|] eqn:E1;
    [|discriminate].
  cbn [bind].
  match goal with
  | |- bind (bind (fold_outcome ?f ?l []) _) _ = _ -> _ =>
      destruct (fold_outcome f l []) as [sugs|]; [|discriminate]
  end.
  cbn [bind].
  remember (64 - Z.of_nat (List.length (CompleteDeck.deck_cards d)))%Z
    as needed eqn:En.
  intros H. injection H as <-.
  split; [reflexivity|].
  split; [unfold CompleteDeck.an_current_size, CompleteDeck.an_cards_needed;
          lia|].
  split; [apply (firstn_le_length 50)|].
  split; [apply (StronglySorted_firstn _ _ 50), sorted_by_Q_desc|].
  split; [apply (firstn_le_length 20)|].
  split; [apply (StronglySorted_firstn _ _ 20), sorted_by_Q_desc|].
  exists edhrec_cards. split; [reflexivity|].
  apply Forall_forall. intros k Hk.
  apply (firstn_incl 20) in Hk. apply sort_stable_In in Hk. revert k Hk.
  apply Forall_forall. change keys with (snd (checks, keys)).
  revert E1.
  apply (fold_outcome_invariant
           (fun st => Forall (unowned_staple edhrec_cards current inventory)
                        (snd st))).
  - intros st item st' Hin. now apply edhrec_step_key_cards.
  - constructor.
Qed.

End AnalysisShape.

Lemma analysis_shape_witness :
  CompleteDeck.an_commander sample_analysis
  = CompleteDeck.deck_commander deck_of_2 /\
  (CompleteDeck.an_current_size sample_analysis
   + CompleteDeck.an_cards_needed sample_analysis = 64)%Z /\
  (List.length (CompleteDeck.an_suggestions sample_analysis) <= 50)%nat /\
  StronglySorted
    (fun x y => CompleteDeck.sg_score y <= CompleteDeck.sg_score x)
    (CompleteDeck.an_suggestions sample_analysis) /\
  (List.length (CompleteDeck.an_key_cards_missing sample_analysis)
   <= 20)%nat /\
  StronglySorted
    (fun x y => CompleteDeck.kc_inclusion y <= CompleteDeck.kc_inclusion x)
    (CompleteDeck.an_key_cards_missing sample_analysis) /\
  exists edhrec_cards,
    @CompleteDeck.get_average_and_budget_deck ascii_text sample_repr
      only_atraxa (CompleteDeck.deck_commander deck_of_2)
      = Returns edhrec_cards /\
    Forall (unowned_staple edhrec_cards
              (map (@str_lower ascii_text) (CompleteDeck.deck_cards deck_of_2))
              sample_inventory)
      (CompleteDeck.an_key_cards_missing sample_analysis).
Proof.
  apply (@analysis_shape ascii_text sample_repr only_atraxa only_sol_ring
           (identity_lookup []) sample_inventory deck_of_2 atraxa_colors
           sample_analysis).
  vm_compute. reflexivity.
Defined.

(** ** The table of the average and budget deck *)

Section AverageDeckTable.
Context {U : PyLib} {R : PyRepr}.
Variable average_deck_page : string -> response.

(** A property of the table that every step keeps is kept by the walk. *)
Lemma cardviews_scan_invariant
    (P : list (string * CompleteDeck.card_info) -> Prop) :
  (forall b s card s', P s ->
     CompleteDeck.cardview_step b s card = Returns s' -> P s') ->
  forall o b s s',
    P s -> CompleteDeck.cardviews_scan o b s = Returns s' -> P s'.
Proof.
  intros Hstep.
  induction o as [|b0|q|str|l IH|d IH] using json_nested_ind;
    intros b s s' Hs; try (simpl; now intros [= <-]).
  - simpl. revert s Hs.
    induction IH as [|x r Hx Hr IHr]; intros s Hs.
    + now intros [= <-].
    + destruct (CompleteDeck.cardviews_scan x b s) as [s1|] eqn:E;
        [|discriminate].
      cbn [bind]. apply IHr. eapply Hx; eauto.
  - cbn [CompleteDeck.cardviews_scan].
    set (is_budget := (contains "budget" _ || b)%bool).
    match goal with |- bind ?m _ = _ -> _ => destruct m as [s1|] eqn:E end;
      [|discriminate].
    cbn [bind].
    assert (P s1) as Hs1.
    { destruct (dict_find "cardviews" d) as [views|];
        [|now injection E as <-].
      destruct (py_iter views) as [cards|]; [|discriminate].
      cbn [bind] in E. revert E. apply fold_outcome_invariant; eauto. }
    clear E Hs. revert s1 Hs1. generalize is_budget. intros b1.
    induction IH as [|[k v] r Hx Hr IHr]; intros s1 Hs1.
    + now intros [= <-].
    + destruct (CompleteDeck.cardviews_scan v b1 s1) as [s2|] eqn:E;
        [|discriminate].
      cbn [bind]. apply IHr. simpl in Hx. eapply Hx; eauto.
Qed.

Lemma Qgtb_true a b : Qgtb a b = true <-> b < a.
Proof. change (Qgtb a b) with (Qltb b a). apply Qltb_true. Qed.

Lemma Qgtb_false a b : Qgtb a b = false <-> a <= b.
Proof. change (Qgtb a b) with (Qltb b a). apply Qltb_false. Qed.

Lemma cardview_step_keeps b s card s' :
  NoDup (map fst s) /\ Forall card_info_ok s ->
  CompleteDeck.cardview_step b s card = Returns s' ->
  NoDup (map fst s') /\ Forall card_info_ok s'.
Proof.
  intros Hs. unfold CompleteDeck.cardview_step.
  destruct card as [| | | | |c]; try discriminate.
  destruct (truthy (dict_get "name" c)); cbn [negb]; [|now intros [= <-]].
  destruct (dict_get "name" c) as [| | |nm| |]; try discriminate.
  match goal with
  | |- context [assoc_find (str_lower nm) ?t] =>
      set (table := t);
      assert (NoDup (map fst table) /\ Forall card_info_ok table) as Ht
  end.
  { subst table. destruct (assoc_has (str_lower nm) s); [exact Hs|].
    destruct Hs as [Hn Hf]. split; [now apply assoc_set_nodup|].
    apply Forall_forall. intros x Hx.
    destruct (assoc_set_In _ _ _ _ Hx) as [->|Hin].
    - repeat split; cbn; try reflexivity; apply Qle_refl.
    - rewrite Forall_forall in Hf. now apply Hf. }
  clearbody table. destruct Ht as [Hn Hf].
  destruct (assoc_find (str_lower nm) table) as [e|] eqn:Ee;
    [|discriminate].
  destruct (as_number _) as [inc|]; [|discriminate].
  destruct (as_number _) as [nd|]; [|discriminate].
  intros [= <-]. split; [now apply assoc_set_nodup|].
  apply Forall_forall. intros x Hx.
  destruct (assoc_set_In _ _ _ _ Hx) as [->|Hin];
    [|rewrite Forall_forall in Hf; now apply Hf].
  apply assoc_find_In in Ee. rewrite Forall_forall in Hf.
  destruct (Hf _ Ee) as (Hk & Hi & Hd & Hy). cbn [fst snd] in *.
  unfold card_info_ok.
  cbn [fst snd CompleteDeck.ci_name CompleteDeck.ci_inclusion
       CompleteDeck.ci_num_decks CompleteDeck.ci_synergy].
  repeat split; auto.
  - destruct (Qgtb inc _) eqn:G; [|exact Hi].
    apply Qgtb_true in G. lra.
  - destruct (Qgtb nd _) eqn:G; [|exact Hd].
    apply Qgtb_true in G. lra.
Qed.

(** X8: The table that [get_average_and_budget_deck] returns has one entry for
    each key; every entry is filed under the lower-cased form of the name
    it carries, its inclusion and deck counts are not negative, and its
    synergy field is 0. *)
Theorem average_deck_table commander table :
  CompleteDeck.get_average_and_budget_deck average_deck_page commander
    = Returns table ->
  NoDup (map fst table) /\ Forall card_info_ok table.
Proof.
  unfold CompleteDeck.get_average_and_budget_deck.
  assert (NoDup (map fst (@nil (string * CompleteDeck.card_info))) /\
          Forall card_info_ok (@nil (string * CompleteDeck.card_info)))
    as H0 by (split; constructor).
  destruct (average_deck_page _) as [|status body]; [now intros [= <-]|].
  destruct (status =? 200)%Z; [|now intros [= <-]].
  destruct body as [data|]; [|now intros [= <-]].
  apply (cardviews_scan_invariant
           (fun s => NoDup (map fst s) /\ Forall card_info_ok s));
    [|exact H0].
  intros b s card s'. apply cardview_step_keeps.
Qed.

End AverageDeckTable.


Lemma average_deck_table_witness :
  NoDup (map fst sample_average_table) /\
  Forall (@card_info_ok ascii_text) sample_average_table.
Proof.
  apply (@average_deck_table ascii_text sample_repr only_atraxa
           (CompleteDeck.deck_commander deck_of_2)).
  vm_compute. reflexivity.
Defined.

(** ** Synergy totals are significant *)

Section SynergyTotals.
Context {U : PyLib}.
Variable card_page : string -> response.

Lemma add_synergy_keeps all item :
  CompleteDeck.MIN_SYNERGY_SCORE < CompleteDeck.syn_synergy (snd item) ->
  NoDup (map fst all) /\
  Forall (fun kv => CompleteDeck.MIN_SYNERGY_SCORE
                    < CompleteDeck.tot_score (snd kv)) all ->
  NoDup (map fst (CompleteDeck.add_synergy all item)) /\
  Forall (fun kv => CompleteDeck.MIN_SYNERGY_SCORE
                    < CompleteDeck.tot_score (snd kv))
    (CompleteDeck.add_synergy all item).
Proof.
  destruct item as [k e]. cbn [snd]. intros He [Hn Hf].
  unfold CompleteDeck.add_synergy.
  split; [now apply assoc_set_nodup|].
  apply Forall_forall. intros x Hx.
  destruct (assoc_set_In _ _ _ _ Hx) as [->|Hin];
    [|rewrite Forall_forall in Hf; now apply Hf].
  cbn [snd CompleteDeck.tot_score]. unfold CompleteDeck.total_of.
  destruct (assoc_find k all) as [t|] eqn:Et.
  - apply assoc_find_In in Et. rewrite Forall_forall in Hf.
    specialize (Hf _ Et). cbn [snd] in Hf.
    unfold CompleteDeck.MIN_SYNERGY_SCORE in *. lra.
  - cbn [CompleteDeck.tot_score].
    unfold CompleteDeck.MIN_SYNERGY_SCORE in *. lra.
Qed.

(** X9: The table of accumulated synergies has one entry for each key, and
    every total in it is strictly above 0.1: a card enters the table only
    with a reported synergy above the threshold, and totals only grow. *)
Theorem synergy_totals_are_significant cards all :
  CompleteDeck.accumulate_synergies card_page cards = Returns all ->
  NoDup (map fst all) /\
  Forall (fun kv => CompleteDeck.MIN_SYNERGY_SCORE
                    < CompleteDeck.tot_score (snd kv)) all.
Proof.
  unfold CompleteDeck.accumulate_synergies.
  apply (fold_outcome_invariant
           (fun all => NoDup (map fst all) /\
              Forall (fun kv => CompleteDeck.MIN_SYNERGY_SCORE
                                < CompleteDeck.tot_score (snd kv)) all));
    [|split; constructor].
  intros all0 card all1 _ H0.
  destruct (CompleteDeck.get_card_synergies card_page card) as [syn|] eqn:E;
    [|discriminate].
  cbn [bind]. intros [= <-].
  assert (Forall (fun kv => Qgtb (CompleteDeck.syn_synergy (snd kv))
                              CompleteDeck.MIN_SYNERGY_SCORE = true) syn) as A.
  { apply Forall_forall. intros [k e] Hin. cbn [snd].
    pose proof (get_card_synergies_nodup card_page _ _ E) as Hnd.
    apply (get_card_synergies_above card_page card syn k e E).
    clear E. induction syn as [|[k0 e0] r IH]; [destruct Hin|].
    cbn [assoc_find]. cbn [map fst] in Hnd.
    inversion Hnd as [|? ? Hk Hr]; subst.
    destruct Hin as [[= -> ->]|Hin]; [now rewrite String.eqb_refl|].
    destruct (String.eqb k0 k) eqn:Ek; [|now apply IH].
    apply String.eqb_eq in Ek. subst k0. exfalso. apply Hk.
    apply in_map_iff. now exists (k, e). }
  apply (fold_left_invariant
           (fun all => NoDup (map fst all) /\
              Forall (fun kv => CompleteDeck.MIN_SYNERGY_SCORE
                                < CompleteDeck.tot_score (snd kv)) all));
    [|exact H0].
  intros s x Hx Hs. apply add_synergy_keeps; [|exact Hs].
  rewrite Forall_forall in A. apply Qgtb_true, A, Hx.
Qed.

End SynergyTotals.

Lemma synergy_totals_are_significant_witness :
  NoDup (map fst sample_totals) /\
  Forall (fun kv => CompleteDeck.MIN_SYNERGY_SCORE
                    < CompleteDeck.tot_score (snd kv)) sample_totals.
Proof.
  apply (@synergy_totals_are_significant ascii_text only_sol_ring
           (map (@str_lower ascii_text) (CompleteDeck.deck_cards deck_of_2))).
  vm_compute. reflexivity.
Defined.

(** ** The two kinds of suggestion *)

Section SuggestionKinds.
Context {U : PyLib} {R : PyRepr}.
Variables average_deck_page card_page scryfall_named : string -> response.
Variable inventory : list (string * CompleteDeck.inventory_entry).

Lemma edhrec_step_above current st item st' :
  Forall above_threshold (fst st) ->
  CompleteDeck.edhrec_step current inventory st item = Returns st' ->
  Forall above_threshold (fst st').
Proof.
  destruct st as [checks keys], item as [key info]. cbn [fst].
  intros Hst. unfold CompleteDeck.edhrec_step.
  destruct (str_in key current); [now intros [= <-]|].
  destruct (assoc_has key inventory); cbn [negb].
  - intros [= <-]. cbn [fst]. apply Forall_app. split; [exact Hst|].
    now repeat constructor.
  - destruct (Qle_bool _ _); [|now intros [= <-]].
    destruct (as_number _); [|discriminate].
    destruct (Qle_bool _ _); now intros [= <-].
Qed.

Lemma synergy_candidate_step_above edhrec_cards current checks item :
  Forall above_threshold checks ->
  Forall above_threshold
    (CompleteDeck.synergy_candidate_step current edhrec_cards inventory
       checks item).
Proof.
  destruct item as [key t]. intros Hst.
  unfold CompleteDeck.synergy_candidate_step.
  destruct (str_in key current); [exact Hst|].
  destruct (assoc_has key edhrec_cards); [exact Hst|].
  destruct (assoc_has key inventory); cbn [negb]; [|exact Hst].
  destruct (Qgtb _ _) eqn:G; [|exact Hst].
  apply Forall_app. split; [exact Hst|].
  constructor; [|constructor]. cbn [above_threshold].
  now apply Qgtb_true.
Qed.

Lemma check_step_marked all colors sugs c sugs' :
  above_threshold c ->
  Forall marked_suggestion sugs ->
  CompleteDeck.check_step scryfall_named inventory all colors sugs c
    = Returns sugs' ->
  Forall marked_suggestion sugs'.
Proof.
  intros Hc Hs. unfold CompleteDeck.check_step.
  match goal with |- bind ?m _ = _ -> _ => destruct m as [name|] end;
    [|discriminate].
  cbn [bind].
  match goal with |- bind ?m _ = _ -> _ => destruct m as [legal|] end;
    [|discriminate].
  cbn [bind]. destruct legal; cbn [negb]; [|now intros [= <-]].
  destruct (CompleteDeck.score_candidate inventory all c) as [[sg|]|] eqn:E;
    cbn [bind]; try discriminate; intros [= <-]; [|exact Hs].
  apply Forall_app. split; [exact Hs|]. constructor; [|constructor].
  destruct c as [key info|key t]; cbn [CompleteDeck.score_candidate] in E.
  - destruct (Qltb _ _) eqn:G; [discriminate|].
    destruct (assoc_find key inventory); [|discriminate].
    injection E as <-. left. split; [reflexivity|].
    cbn [CompleteDeck.sg_score]. now apply Qltb_false.
  - destruct (Qltb _ _); [discriminate|].
    destruct (assoc_find key inventory); [|discriminate].
    injection E as <-. right. cbn [above_threshold] in Hc.
    cbn [CompleteDeck.sg_source CompleteDeck.sg_score
         CompleteDeck.sg_inclusion CompleteDeck.sg_is_budget].
    repeat split; auto. apply Q.le_min_r.
Qed.

(** X10: Every suggestion of an analysis that returns is marked [EDHREC], with
    a score of at least 5, or [Sinergia]; a suggestion marked [Sinergia]
    has a score strictly above 5 and at most 50, an inclusion of 0 and no
    budget mark: a synergy score of exactly 5 is not suggested. *)
Theorem suggestions_are_marked d colors a :
  CompleteDeck.analyze_and_complete_deck average_deck_page card_page
    scryfall_named d inventory colors = Returns a ->
  Forall marked_suggestion (CompleteDeck.an_suggestions a).
Proof.
  unfold CompleteDeck.analyze_and_complete_deck,
    CompleteDeck.compile_suggestions.
  set (current := map str_lower (CompleteDeck.deck_cards d)).
  destruct (CompleteDeck.get_average_and_budget_deck _ _)
    as [edhrec_cards|]; [|discriminate].
  cbn [bind].
  destruct (CompleteDeck.accumulate_synergies _ _) as [all|];
    [|discriminate].
  cbn [bind].
  destruct (fold_outcome (CompleteDeck.edhrec_step current inventory)
              edhrec_cards ([], [])) as [[checks keys]|] eqn:E1;
    [|discriminate].
  cbn [bind].
  match goal with
  | |- bind (bind (fold_outcome ?f ?l []) _) _ = _ -> _ =>
      destruct (fold_outcome f l []) as [sugs|] eqn:E2; [|discriminate];
      assert (Forall above_threshold l) as Hl
  end.
  { apply fold_left_invariant.
    - intros s x _. apply synergy_candidate_step_above.
    - change checks with (fst (checks, keys)).
      revert E1.
      apply (fold_outcome_invariant
               (fun st => Forall above_threshold (fst st))).
      + intros st item st' _. apply edhrec_step_above.
      + constructor. }
  cbn [bind]. intros H. injection H as <-.
  apply Forall_forall. intros s Hs.
  apply (firstn_incl 50) in Hs. apply sort_stable_In in Hs.
  revert s Hs. apply Forall_forall. revert E2.
  apply (fold_outcome_invariant (Forall marked_suggestion)); [|constructor].
  intros sugs0 c sugs' Hc Hsugs. rewrite Forall_forall in Hl.
  apply check_step_marked; [now apply Hl|exact Hsugs].
Qed.

End SuggestionKinds.

Lemma suggestions_are_marked_witness :
  Forall marked_suggestion (CompleteDeck.an_suggestions sample_analysis).
Proof.
  apply (@suggestions_are_marked ascii_text sample_repr only_atraxa
           only_sol_ring (identity_lookup []) sample_inventory deck_of_2
           atraxa_colors sample_analysis).
  vm_compute. reflexivity.
Defined.

(** ** Cards a card works well with *)

Section SynergyCards.
Context {U : PyLib} {R : PyRepr}.

Lemma synergy_cards_scan_invariant card
    (P : list FindBestCommanders.synergy_card -> Prop) :
  (forall s cv s', P s ->
     FindBestCommanders.synergy_card_step card s cv = Returns s' -> P s') ->
  forall o s s',
    P s -> FindBestCommanders.synergy_cards_scan card o s = Returns s' ->
    P s'.
Proof.
  intros Hstep.
  induction o as [|b0|q|str|l IH|d IH] using json_nested_ind;
    intros s s' Hs; try (simpl; now intros [= <-]).
  - simpl. revert s Hs.
    induction IH as [|x r Hx Hr IHr]; intros s Hs.
    + now intros [= <-].
    + destruct (FindBestCommanders.synergy_cards_scan card x s) as [s1|] eqn:E;
        [|discriminate].
      cbn [bind]. apply IHr. eapply Hx; eauto.
  - cbn [FindBestCommanders.synergy_cards_scan].
    match goal with |- bind ?m _ = _ -> _ => destruct m as [s1|] eqn:E end;
      [|discriminate].
    cbn [bind].
    assert (P s1) as Hs1.
    { destruct (_ || _)%bool; [|now injection E as <-].
      destruct (dict_find "cardviews" d) as [views|];
        [|now injection E as <-].
      destruct (py_iter views) as [cards|]; [|discriminate].
      cbn [bind] in E. revert E. apply fold_outcome_invariant; eauto. }
    clear E Hs. revert s1 Hs1.
    induction IH as [|[k v] r Hx Hr IHr]; intros s1 Hs1.
    + now intros [= <-].
    + destruct (FindBestCommanders.synergy_cards_scan card v s1)
        as [s2|] eqn:E; [|discriminate].
      cbn [bind]. apply IHr. simpl in Hx. eapply Hx; eauto.
Qed.

Lemma extract_synergy_cards_records data card l :
  FindBestCommanders.extract_synergy_cards data card = Returns l ->
  Forall (synergy_record_ok card) l.
Proof.
  unfold FindBestCommanders.extract_synergy_cards.
  destruct (FindBestCommanders.find_scryfall_for_card _ _); [|discriminate].
  cbn [bind].
  apply (synergy_cards_scan_invariant card
           (Forall (synergy_record_ok card))); [|constructor].
  intros s cv s' Hs. unfold FindBestCommanders.synergy_card_step.
  destruct cv as [| | | | |c]; try discriminate.
  destruct (truthy (dict_get "name" c)) eqn:T; [|now intros [= <-]].
  destruct (as_number _) as [x|]; [|discriminate].
  destruct (Qgtb x (1 # 10)) eqn:G; intros [= <-]; [|exact Hs].
  apply Forall_app. split; [exact Hs|]. constructor; [|constructor].
  repeat split; [exact T|]. now apply Qgtb_true.
Qed.

(** X11: Every record that [extract_synergy_cards] returns names a card, has a
    synergy strictly above 0.1 and carries, as [with_card], the card the
    page was asked for. *)
Theorem synergy_records data card l :
  FindBestCommanders.extract_synergy_cards data card = Returns l ->
  Forall (synergy_record_ok card) l.
Proof. apply extract_synergy_cards_records. Qed.

(** X12: The link that [find_scryfall_in_data] of [complete_deck.py] returns is
    the empty string, or the [scryfall_uri] of a mapping node of the
    payload whose name is the card's, letter case apart. *)
Theorem deck_link_is_the_cards data card r :
  CompleteDeck.find_scryfall_in_data data card = Returns r ->
  r = JStr EmptyString \/
  exists d, In d (dict_nodes data) /\ links_target (str_lower card) r d.
Proof.
  unfold CompleteDeck.find_scryfall_in_data.
  destruct data; try (intros [= <-]; now left); apply link_scan_sound.
Qed.

End SynergyCards.

Lemma synergy_records_witness :
  Forall (synergy_record_ok "Sol Ring") sol_ring_synergy_cards.
Proof.
  apply (@synergy_records ascii_text sample_repr sol_ring_page "Sol Ring").
  vm_compute. reflexivity.
Defined.

Lemma deck_link_is_the_cards_witness :
  JStr "https://scryfall.com/card/sol-ring" = JStr EmptyString \/
  exists d, In d (dict_nodes sol_ring_node) /\
            @links_target ascii_text (@str_lower ascii_text "sol ring")
              (JStr "https://scryfall.com/card/sol-ring") d.
Proof.
  apply (@deck_link_is_the_cards ascii_text sol_ring_node "sol ring"
           (JStr "https://scryfall.com/card/sol-ring") eq_refl).
Defined.

(** ** The merge, row by row *)

Lemma same_but_mark_refl x : same_but_mark x x.
Proof. unfold same_but_mark. repeat split; auto. Qed.

Lemma same_but_mark_trans x y z :
  same_but_mark x y -> same_but_mark y z -> same_but_mark x z.
Proof.
  unfold same_but_mark.
  intros (A1 & A2 & A3 & A4 & A5 & A6) (B1 & B2 & B3 & B4 & B5 & B6).
  repeat split; try congruence.
  destruct B6 as [B6|B6]; [|now right].
  destruct A6 as [A6|A6]; [left|right]; congruence.
Qed.

Lemma Forall2_refl {A : Type} (P : A -> A -> Prop) l :
  (forall x, P x x) -> Forall2 P l l.
Proof. intros H. induction l; constructor; auto. Qed.

Lemma Forall2_trans {A : Type} (P : A -> A -> Prop) :
  (forall x y z, P x y -> P y z -> P x z) ->
  forall l1 l2 l3, Forall2 P l1 l2 -> Forall2 P l2 l3 -> Forall2 P l1 l3.
Proof.
  intros T l1 l2 l3 H. revert l3.
  induction H as [|x y r1 r2 Hxy Hr IH]; intros l3 H3;
    inversion H3; subst; constructor; eauto.
Qed.

Section MergeRows.
Context {U : PyLib}.
Variable card_page : string -> response.
Variable fetch_average_deck : string -> list string.
Variable inv_map : list (string * Z).
Variable inv_source_map : list (string * string).

Lemma mark_both_same commander lower flat :
  Forall2 same_but_mark flat
    (FindBestCommanders.mark_both commander lower flat).
Proof.
  induction flat as [|x r IH]; cbn [FindBestCommanders.mark_both];
    [constructor|].
  destruct (FindBestCommanders.same_card commander lower x).
  - constructor; [|apply Forall2_refl, same_but_mark_refl].
    unfold same_but_mark. cbn. repeat split; auto.
  - constructor; [apply same_but_mark_refl|exact IH].
Qed.

(** X13: The merged list is the list of the commander analysis, row for row
    and in its order, followed by the rows that the average decks add;
    the merge changes nothing in a row but its source mark, and that only
    to [both].  Every added row is an owned card of the average deck of
    one of the commanders, and carries no percentage. *)
Theorem merged_rows_structure df flat :
  FindBestCommanders.merged_rows card_page fetch_average_deck inv_map
    inv_source_map df = Returns flat ->
  exists added,
    Forall2 same_but_mark
      (FindBestCommanders.edhrec_rows inv_source_map df ++ added)%list flat /\
    Forall (added_row fetch_average_deck inv_map inv_source_map df) added.
Proof.
  unfold FindBestCommanders.merged_rows.
  set (base := FindBestCommanders.edhrec_rows inv_source_map df).
  set (Inv := fun flat =>
    exists added,
      Forall2 same_but_mark (base ++ added)%list flat /\
      Forall (added_row fetch_average_deck inv_map inv_source_map df) added).
  apply (fold_outcome_invariant Inv).
  - intros flat0 row flat1 Hrow H0.
    apply (fold_outcome_invariant Inv); [|exact H0].
    intros f card f' Hcard (added & H2 & Ha).
    unfold FindBestCommanders.average_step.
    destruct (assoc_has (str_lower card) inv_map) eqn:Eo; cbn [negb];
      [|intros [= <-]; now exists added].
    destruct (FindBestCommanders.find_scryfall_for_card _ _) as [scry|];
      [|discriminate].
    cbn [bind]. destruct (existsb _ f); intros [= <-].
    + exists added. split; [|exact Ha].
      eapply Forall2_trans; [apply same_but_mark_trans|exact H2|].
      apply mark_both_same.
    + eexists (added ++ [_])%list. split.
      * rewrite app_assoc. apply Forall2_app; [exact H2|].
        constructor; [apply same_but_mark_refl|constructor].
      * apply Forall_app. split; [exact Ha|].
        constructor; [|constructor].
        unfold added_row. cbn. repeat split; auto.
        exists row. auto.
  - exists []. split; [|constructor]. rewrite app_nil_r.
    apply Forall2_refl, same_but_mark_refl.
Qed.

End MergeRows.

Lemma merged_rows_structure_witness :
  exists added,
    Forall2 same_but_mark
      (@FindBestCommanders.edhrec_rows ascii_text sample_inv_source_map
         sample_commanders ++ added)%list sample_flat /\
    Forall (@added_row ascii_text sample_average_deck sample_inv_map
              sample_inv_source_map sample_commanders) added.
Proof.
  apply (@merged_rows_structure ascii_text no_page sample_average_deck
           sample_inv_map sample_inv_source_map sample_commanders sample_flat).
  vm_compute. reflexivity.
Defined.

(** ** The selection of commanders *)

Lemma py_range_bounds lo hi i : In i (py_range lo hi) -> (lo <= i < hi)%Z.
Proof.
  unfold py_range. intros H. apply in_map_iff in H.
  destruct H as (k & <- & Hk). apply in_seq in Hk. lia.
Qed.

Lemma py_range_sorted lo hi : StronglySorted Z.lt (py_range lo hi).
Proof.
  unfold py_range. generalize (Z.to_nat (hi - lo)) as n. generalize 0%nat.
  intros s n. revert s. induction n as [|n IH]; intros s; cbn [seq map].
  - constructor.
  - constructor; [apply IH|]. apply Forall_forall. intros x Hx.
    apply in_map_iff in Hx. destruct Hx as (k & <- & Hk).
    apply in_seq in Hk. lia.
Qed.

Lemma set_add_In x s y : In y (set_add x s) <-> y = x \/ In y s.
Proof.
  unfold set_add. destruct (existsb (Z.eqb x) s) eqn:E.
  - split; [now right|]. intros [->|H]; [|exact H].
    apply existsb_exists in E. destruct E as (z & Hz & Ez).
    apply Z.eqb_eq in Ez. now subst.
  - rewrite in_app_iff. cbn [In]. intuition congruence.
Qed.

Lemma set_add_nodup x s : NoDup s -> NoDup (set_add x s).
Proof.
  unfold set_add. intros H. destruct (existsb (Z.eqb x) s) eqn:E; [exact H|].
  apply NoDup_app; [exact H|repeat constructor; auto|].
  intros y Hy [->|[]].
  assert (existsb (Z.eqb y) s = true) as F; [|congruence].
  apply existsb_exists. exists y. split; [exact Hy|apply Z.eqb_refl].
Qed.

Lemma set_update_keeps (P : Z -> Prop) xs : forall s,
  Forall P xs -> NoDup s /\ Forall P s ->
  NoDup (set_update s xs) /\ Forall P (set_update s xs).
Proof.
  unfold set_update. induction xs as [|x r IH]; intros s Hxs Hs; [exact Hs|].
  cbn [fold_left]. inversion Hxs as [|? ? Hx Hr]; subst.
  apply IH; [exact Hr|]. destruct Hs as [Hn Hf].
  split; [now apply set_add_nodup|].
  apply Forall_forall. intros y Hy. apply set_add_In in Hy.
  destruct Hy as [->|Hy]; [exact Hx|].
  rewrite Forall_forall in Hf. now apply Hf.
Qed.

Lemma sorted_distinct_is_strict l :
  StronglySorted Z.le l -> NoDup l -> StronglySorted Z.lt l.
Proof.
  induction 1 as [|x r Hr IH Hx]; intros Hn; constructor.
  - apply IH. now inversion Hn.
  - inversion Hn as [|? ? Hnx _]; subst.
    apply Forall_forall. intros y Hy. rewrite Forall_forall in Hx.
    specialize (Hx _ Hy).
    assert (x <> y) by (intros ->; contradiction). lia.
Qed.

Lemma sort_Z_sorted l : StronglySorted Z.le (sort_stable Z.ltb l).
Proof.
  apply (StronglySorted_weaken (not_after Z.ltb)).
  - intros x y. unfold not_after. intros H%Z.ltb_ge. exact H.
  - apply sort_stable_sorted.
    + intros x y H%Z.ltb_lt. apply Z.ltb_ge. lia.
    + intros x y z H1%Z.ltb_ge H2%Z.ltb_ge. apply Z.ltb_ge. lia.
Qed.

Section SelectionProperties.
Context {U : PyLib} {T : PyText}.

Lemma selection_part_keeps max_index indices part indices' :
  FindBestCommanders.selection_part max_index indices part = Some indices' ->
  NoDup indices /\ Forall (fun i => (0 <= i < max_index)%Z) indices ->
  NoDup indices' /\ Forall (fun i => (0 <= i < max_index)%Z) indices'.
Proof.
  unfold FindBestCommanders.selection_part. intros H Hs.
  destruct (contains "-" (str_strip part)).
  - destruct (str_split_on "-" (str_strip part)) as [|a [|b [|c r]]];
      try discriminate.
    destruct (py_int (str_strip a)) as [s|]; [|discriminate].
    destruct (py_int (str_strip b)) as [e|]; [|discriminate].
    cbn zeta in H.
    destruct ((s - 1 <? 0)%Z || (max_index <=? e - 1)%Z
              || (e - 1 <? s - 1)%Z)%bool eqn:G; [discriminate|].
    injection H as <-.
    apply orb_false_elim in G. destruct G as [G G3].
    apply orb_false_elim in G. destruct G as [G1 G2].
    apply Z.ltb_ge in G1. apply Z.leb_gt in G2.
    apply set_update_keeps; [|exact Hs].
    apply Forall_forall. intros i Hi. apply py_range_bounds in Hi. lia.
  - destruct (py_int (str_strip (str_strip part))) as [n|]; [|discriminate].
    cbn zeta in H.
    destruct ((n - 1 <? 0)%Z || (max_index <=? n - 1)%Z)%bool eqn:G;
      [discriminate|].
    injection H as <-.
    apply orb_false_elim in G. destruct G as [G1 G2].
    apply Z.ltb_ge in G1. apply Z.leb_gt in G2.
    destruct Hs as [Hn Hf]. split; [now apply set_add_nodup|].
    apply Forall_forall. intros y Hy. apply set_add_In in Hy.
    destruct Hy as [->|Hy]; [lia|].
    rewrite Forall_forall in Hf. now apply Hf.
Qed.

Lemma selection_parts_keeps max_index parts : forall indices indices',
  FindBestCommanders.selection_parts max_index parts indices
    = Some indices' ->
  NoDup indices /\ Forall (fun i => (0 <= i < max_index)%Z) indices ->
  NoDup indices' /\ Forall (fun i => (0 <= i < max_index)%Z) indices'.
Proof.
  induction parts as [|p r IH]; intros indices indices';
    cbn [FindBestCommanders.selection_parts].
  - now intros [= <-].
  - destruct (FindBestCommanders.selection_part max_index indices p)
      as [i1|] eqn:E; [|discriminate].
    intros H Hs. apply (IH _ _ H).
    eapply selection_part_keeps; eauto.
Qed.

Lemma selection_parts_rejects max_index part parts : forall indices,
  In part parts ->
  (forall indices,
     FindBestCommanders.selection_part max_index indices part = None) ->
  FindBestCommanders.selection_parts max_index parts indices = None.
Proof.
  induction parts as [|p r IH]; intros indices Hin Hbad; [destruct Hin|].
  cbn [FindBestCommanders.selection_parts].
  destruct Hin as [->|Hin]; [now rewrite Hbad|].
  destruct (FindBestCommanders.selection_part max_index indices p);
    [now apply IH|reflexivity].
Qed.

Lemma parse_selection_bounds selection max_index :
  Forall (fun i => (0 <= i < max_index)%Z)
    (FindBestCommanders.parse_selection selection max_index) /\
  StronglySorted Z.lt
    (FindBestCommanders.parse_selection selection max_index).
Proof.
  unfold FindBestCommanders.parse_selection.
  destruct (String.eqb (str_lower selection) "all").
  - split; [|apply py_range_sorted].
    apply Forall_forall. intros i Hi. now apply py_range_bounds in Hi.
  - destruct (FindBestCommanders.selection_parts max_index
                (str_split_on "," selection) []) as [indices|] eqn:E;
      [|split; constructor].
    destruct (selection_parts_keeps _ _ _ _ E) as [Hn Hf];
      [split; constructor|].
    split.
    + apply Forall_forall. intros i Hi. apply sort_stable_In in Hi.
      rewrite Forall_forall in Hf. now apply Hf.
    + apply sorted_distinct_is_strict; [apply sort_Z_sorted|].
      eapply Permutation_NoDup; [apply sort_stable_perm|exact Hn].
Qed.

(** X14: Whatever the text, [parse_selection] returns indices that lie between
    0 and [max_index - 1] and stand in strictly rising order, so none
    occurs twice. *)
Theorem parse_selection_indices selection max_index :
  Forall (fun i => (0 <= i < max_index)%Z)
    (FindBestCommanders.parse_selection selection max_index) /\
  StronglySorted Z.lt
    (FindBestCommanders.parse_selection selection max_index).
Proof. apply parse_selection_bounds. Qed.

(** X15: One part that cannot be accepted empties the whole selection: when
    the text is not [all] and one of its comma-separated parts is not a
    number or a range inside the list, [parse_selection] returns no index
    at all, whatever the other parts are. *)
Theorem parse_selection_all_or_nothing selection max_index part :
  String.eqb (str_lower selection) "all" = false ->
  In part (str_split_on "," selection) ->
  (forall indices,
     FindBestCommanders.selection_part max_index indices part = None) ->
  FindBestCommanders.parse_selection selection max_index = [].
Proof.
  intros Hall Hin Hbad. unfold FindBestCommanders.parse_selection.
  rewrite Hall. now rewrite (selection_parts_rejects _ _ _ _ Hin Hbad).
Qed.

Lemma pick_indices (commander_list : list string) idx : forall acc,
  Forall (fun i => (0 <= i < Z.of_nat (List.length commander_list))%Z) idx ->
  exists sel,
    fold_outcome
      (fun acc i =>
         c <- FindBestCommanders.py_list_item commander_list i ;;
         Returns (acc ++ [c])%list)
      idx acc = Returns (acc ++ sel)%list /\
    Forall2 (fun i c => nth_error commander_list (Z.to_nat i) = Some c)
      idx sel.
Proof.
  induction idx as [|i r IH]; intros acc H.
  - exists []. split; [now rewrite app_nil_r|constructor].
  - inversion H as [|? ? Hi Hr]; subst. cbn [fold_outcome].
    unfold FindBestCommanders.py_list_item at 1.
    assert ((i <? 0)%Z = false) as -> by (apply Z.ltb_ge; lia).
    assert ((i <? 0)%Z = false) as -> by (apply Z.ltb_ge; lia).
    destruct (nth_error commander_list (Z.to_nat i)) as [c|] eqn:E.
    + cbn [bind]. destruct (IH (acc ++ [c])%list Hr) as (sel & Hsel & H2).
      exists (c :: sel). split.
      * rewrite Hsel, <- app_assoc. reflexivity.
      * constructor; [exact E|exact H2].
    + apply nth_error_None in E. lia.
Qed.

(** X16: The interactive selection never fails on an index: either it gives
    up because no index was selected, or it passes on, for every selected
    index in rising order, the commander that stands at that place of the
    list. *)
Theorem selected_commanders_are_listed commander_list selection :
  exists r,
    FindBestCommanders.generate_decklists_interactive commander_list
      selection = Returns r /\
    match r with
    | None =>
        FindBestCommanders.parse_selection (str_strip selection)
          (Z.of_nat (List.length commander_list)) = []
    | Some selected =>
        Forall2 (fun i c => nth_error commander_list (Z.to_nat i) = Some c)
          (FindBestCommanders.parse_selection (str_strip selection)
             (Z.of_nat (List.length commander_list)))
          selected
    end.
Proof.
  unfold FindBestCommanders.generate_decklists_interactive.
  destruct (parse_selection_bounds (str_strip selection)
              (Z.of_nat (List.length commander_list))) as [Hb _].
  destruct (FindBestCommanders.parse_selection (str_strip selection)
              (Z.of_nat (List.length commander_list))) as [|i r] eqn:E.
  - exists None. split; reflexivity.
  - destruct (pick_indices commander_list (i :: r) [] Hb)
      as (sel & Hsel & H2).
    exists (Some sel). rewrite Hsel. cbn [bind app]. split; [reflexivity|].
    exact H2.
Qed.

End SelectionProperties.

Lemma parse_selection_all_or_nothing_witness :
  @FindBestCommanders.parse_selection ascii_text ascii_numbers "1, 9, 2-3" 3
  = [].
Proof.
  apply (@parse_selection_all_or_nothing ascii_text ascii_numbers
           "1, 9, 2-3" 3 " 9").
  - reflexivity.
  - vm_compute. auto.
  - intros indices. reflexivity.
Defined.

Example parse_selection_examples :
  @FindBestCommanders.parse_selection ascii_text ascii_numbers "3, 1-2,2" 5
  = [0; 1; 2]%Z /\
  @FindBestCommanders.parse_selection ascii_text ascii_numbers "ALL" 3
  = [0; 1; 2]%Z /\
  @FindBestCommanders.parse_selection ascii_text ascii_numbers "2-1" 5 = [] /\
  @FindBestCommanders.parse_selection ascii_text ascii_numbers "0" 5 = [] /\
  @FindBestCommanders.parse_selection ascii_text ascii_numbers "1-2-3" 5
  = [].
Proof. repeat split; vm_compute; reflexivity. Qed.

(** ** The colours of a commander *)

Section CommanderColors.
Context {U : PyLib} {R : PyRepr}.
Variable commander_page : string -> response.

Lemma guess_colors_letters name :
  Forall (fun c => In c [JStr "W"; JStr "U"; JStr "B"; JStr "R"; JStr "G"])
    (CompleteDeck.guess_colors_from_name name) /\
  truthy (JList (CompleteDeck.guess_colors_from_name name)) = true.
Proof.
  unfold CompleteDeck.guess_colors_from_name.
  repeat match goal with
         | |- context [if ?b then _ else _] => destruct b
         end;
    (split; [repeat constructor; cbn [In]; tauto|reflexivity]).
Qed.

Lemma container_colors_without_mappings data :
  dict_nodes data = [] ->
  CompleteDeck.container_colors data (CompleteDeck.find_color_identity data 0)
  = Raises \/
  CompleteDeck.container_colors data (CompleteDeck.find_color_identity data 0)
  = Returns JNull.
Proof.
  intros H.
  assert (CompleteDeck.find_color_identity data 0 = JNull) as ->.
  { apply find_color_identity_absent. unfold has_color_field.
    now rewrite H. }
  unfold CompleteDeck.container_colors. cbn [truthy].
  destruct data as [|b|q|s|l|d]; cbn [CompleteDeck.py_in bind];
    try (now left); try discriminate.
  - destruct (contains "container" s); cbn; auto.
  - destruct (existsb _ l); cbn; auto.
Qed.

(** X17: [get_commander_colors] never returns an empty identity.  Its answer
    is the guess from the name, which holds colour letters only, or the
    non-empty list that the page gives, found by the walk or under
    [container.json_dict.card.color_identity], with its texts in upper
    case.  A page without any mapping always ends in the guess. *)
Theorem commander_colors_are_never_empty name :
  truthy (JList (CompleteDeck.get_commander_colors commander_page name))
    = true /\
  Forall (fun c => In c [JStr "W"; JStr "U"; JStr "B"; JStr "R"; JStr "G"])
    (CompleteDeck.guess_colors_from_name name) /\
  (CompleteDeck.get_commander_colors commander_page name
     = CompleteDeck.guess_colors_from_name name \/
   exists data c r,
     commander_page (Shared.slug name) = Response 200 (Some data) /\
     CompleteDeck.container_colors data
       (CompleteDeck.find_color_identity data 0) = Returns (JList (c :: r)) /\
     CompleteDeck.get_commander_colors commander_page name
       = map CompleteDeck.upper_if_text (c :: r)) /\
  (forall data,
     commander_page (Shared.slug name) = Response 200 (Some data) ->
     dict_nodes data = [] ->
     CompleteDeck.get_commander_colors commander_page name
       = CompleteDeck.guess_colors_from_name name).
Proof.
  destruct (guess_colors_letters name) as [Hl Ht].
  unfold CompleteDeck.get_commander_colors.
  destruct (commander_page (Shared.slug name)) as [|status body] eqn:Ep.
  { repeat split; auto. }
  destruct (status =? 200)%Z eqn:Es; cbn [negb]; [|repeat split; auto].
  apply Z.eqb_eq in Es. subst status.
  destruct body as [data|]; [|repeat split; auto].
  destruct (CompleteDeck.container_colors data
              (CompleteDeck.find_color_identity data 0))
    as [[| | | |[|c r]|]|] eqn:Ec;
    try (repeat split; auto; fail).
  repeat split; auto.
  - right. exists data, c, r. auto.
  - intros data' [= <-] Hn.
    destruct (container_colors_without_mappings _ Hn) as [F|F];
      rewrite F in Ec; discriminate.
Qed.

End CommanderColors.

Example commander_colors_examples :
  @CompleteDeck.get_commander_colors ascii_text no_page "Korvold, Fae-Cursed King"
  = [JStr "B"; JStr "R"; JStr "G"] /\
  @CompleteDeck.get_commander_colors ascii_text
    (fun _ => Response 200
                (Some (JDict [("card", JDict [("colors",
                                               JList [JStr "w"; JStr "u"])])])))
    "Unknown Commander"
  = [JStr "W"; JStr "U"] /\
  @CompleteDeck.get_commander_colors ascii_text
    (fun _ => Response 200
                (Some (JDict [("container",
                   JDict [("json_dict",
                      JDict [("card",
                         JDict [("color_identity", JList [JStr "g"])])])])])))
    "Unknown Commander"
  = [JStr "G"] /\
  @CompleteDeck.get_commander_colors ascii_text
    (fun _ => Response 200 (Some (JDict [("coloridentity", JList [])])))
    "Unknown Commander"
  = [JStr "W"; JStr "U"; JStr "B"; JStr "R"; JStr "G"].
Proof. repeat split; vm_compute; reflexivity. Qed.

(** ** Themes *)

Lemma assoc_find_of_In {V : Type} k (v : V) l :
  NoDup (map fst l) -> In (k, v) l -> assoc_find k l = Some v.
Proof.
  induction l as [|[k' w] r IH]; [intros _ []|].
  cbn [map fst assoc_find]. intros Hn [[= -> ->]|Hin].
  - now rewrite String.eqb_refl.
  - inversion Hn as [|? ? Hk Hr]; subst.
    destruct (String.eqb k' k) eqn:E; [|now apply IH].
    apply String.eqb_eq in E. subst k'. exfalso. apply Hk.
    apply in_map_iff. now exists (k, v).
Qed.

Lemma firstn_snoc_capped {A : Type} n (l : list A) x :
  firstn n (l ++ [x])
  = if (List.length (firstn n l) <? n)%nat then (firstn n l ++ [x])%list
    else firstn n l.
Proof.
  rewrite firstn_app, length_firstn.
  destruct (Nat.ltb_spec (Nat.min n (List.length l)) n) as [H|H].
  - replace (n - List.length l)%nat with (S (n - S (List.length l)))
      by lia.
    cbn [firstn]. now rewrite firstn_nil.
  - replace (n - List.length l)%nat with 0%nat by lia.
    cbn [firstn]. apply app_nil_r.
Qed.

Section Themes.
Context {U : PyLib}.

Lemma theme_step_find card name st t kws :
  map fst (fst (FindBestCommanders.theme_step card name st (t, kws)))
    = map fst (fst st) /\
  map fst (snd (FindBestCommanders.theme_step card name st (t, kws)))
    = map fst (snd st) /\
  (forall c,
     assoc_find c (fst (FindBestCommanders.theme_step card name st (t, kws)))
     = if String.eqb t c then bump_score kws name (assoc_find c (fst st))
       else assoc_find c (fst st)) /\
  (forall c,
     assoc_find c (snd (FindBestCommanders.theme_step card name st (t, kws)))
     = if String.eqb t c
       then bump_cards kws card name (assoc_find c (snd st))
       else assoc_find c (snd st)).
Proof.
  destruct st as [scores cards].
  unfold FindBestCommanders.theme_step, bump_score, bump_cards.
  destruct (FindBestCommanders.has_keyword kws name); cbn [fst snd].
  - repeat split.
    + destruct (assoc_find t scores) eqn:E; [|reflexivity].
      rewrite assoc_set_keys. unfold assoc_has. now rewrite E.
    + destruct (assoc_find t cards) eqn:E; [|reflexivity].
      destruct (_ <? _)%nat; [|reflexivity].
      rewrite assoc_set_keys. unfold assoc_has. now rewrite E.
    + intros c. destruct (String.eqb t c) eqn:Et.
      * apply String.eqb_eq in Et. subst c.
        destruct (assoc_find t scores) eqn:E; [|exact E].
        now rewrite assoc_find_set, String.eqb_refl.
      * destruct (assoc_find t scores); [|reflexivity].
        now rewrite assoc_find_set, Et.
    + intros c. destruct (String.eqb t c) eqn:Et.
      * apply String.eqb_eq in Et. subst c.
        destruct (assoc_find t cards) eqn:E; [|exact E].
        cbn [option_map]. destruct (_ <? _)%nat; [|exact E].
        now rewrite assoc_find_set, String.eqb_refl.
      * destruct (assoc_find t cards); [|reflexivity].
        destruct (_ <? _)%nat; [|reflexivity].
        now rewrite assoc_find_set, Et.
  - repeat split; intros c; destruct (String.eqb t c); reflexivity.
Qed.

Lemma theme_steps_find card name items : forall st,
  NoDup (map fst items) ->
  map fst (fst (fold_left (FindBestCommanders.theme_step card name) items st))
    = map fst (fst st) /\
  (forall c,
     assoc_find c
       (fst (fold_left (FindBestCommanders.theme_step card name) items st))
     = match assoc_find c items with
       | Some kws => bump_score kws name (assoc_find c (fst st))
       | None => assoc_find c (fst st)
       end) /\
  (forall c,
     assoc_find c
       (snd (fold_left (FindBestCommanders.theme_step card name) items st))
     = match assoc_find c items with
       | Some kws => bump_cards kws card name (assoc_find c (snd st))
       | None => assoc_find c (snd st)
       end).
Proof.
  induction items as [|[t kws] r IH]; intros st Hn; [now repeat split|].
  cbn [fold_left map fst] in *. inversion Hn as [|? ? Ht Hr]; subst.
  destruct (theme_step_find card name st t kws) as (K1 & _ & F1 & F2).
  destruct (IH (FindBestCommanders.theme_step card name st (t, kws)) Hr)
    as (K & G1 & G2).
  split; [now rewrite K|].
  split; intros c; cbn [assoc_find]; [rewrite G1, F1|rewrite G2, F2];
    (destruct (String.eqb t c) eqn:Et; [|reflexivity]);
    apply String.eqb_eq in Et; subst c;
    now rewrite (assoc_find_none _ _ Ht).
Qed.

Lemma theme_keywords_nodup :
  NoDup (map fst FindBestCommanders.theme_keywords).
Proof.
  apply (NoDup_count_occ' string_dec). intros x Hx.
  cbn in Hx.
  repeat (destruct Hx as [<-|Hx]; [vm_compute; reflexivity|]).
  destruct Hx.
Qed.

Lemma theme_matches_snoc kws done r :
  theme_matches kws (done ++ [r])
  = (theme_matches kws done ++
     (if FindBestCommanders.has_keyword kws
           (str_lower (FindBestCommanders.fr_card r))
      then [FindBestCommanders.fr_card r] else []))%list.
Proof.
  unfold theme_matches. rewrite filter_app, map_app. cbn [filter].
  destruct (FindBestCommanders.has_keyword _ _); reflexivity.
Qed.

Lemma theme_state_after flat : forall done st,
  (map fst (fst st) = map fst FindBestCommanders.theme_keywords /\
   forall theme kws,
     In (theme, kws) FindBestCommanders.theme_keywords ->
     assoc_find theme (fst st)
       = Some (Z.of_nat (List.length (theme_matches kws done))) /\
     assoc_find theme (snd st)
       = Some (firstn 10 (theme_matches kws done))) ->
  let st' := fold_left FindBestCommanders.theme_card_step flat st in
  map fst (fst st') = map fst FindBestCommanders.theme_keywords /\
  forall theme kws,
    In (theme, kws) FindBestCommanders.theme_keywords ->
    assoc_find theme (fst st')
      = Some (Z.of_nat (List.length (theme_matches kws (done ++ flat)))) /\
    assoc_find theme (snd st')
      = Some (firstn 10 (theme_matches kws (done ++ flat))).
Proof.
  induction flat as [|r rest IH]; intros done st Hst.
  - cbn [fold_left]. now rewrite app_nil_r.
  - cbn [fold_left]. cbn zeta.
    replace (done ++ r :: rest)%list with ((done ++ [r]) ++ rest)%list
      by now rewrite <- app_assoc.
    apply IH. unfold FindBestCommanders.theme_card_step.
    destruct Hst as [Hk Hst].
    destruct (theme_steps_find (FindBestCommanders.fr_card r)
                (str_lower (FindBestCommanders.fr_card r))
                FindBestCommanders.theme_keywords st theme_keywords_nodup)
      as (K & G1 & G2).
    split; [now rewrite K|].
    intros theme kws Hin. rewrite G1, G2.
    rewrite (assoc_find_of_In _ _ _ theme_keywords_nodup Hin).
    destruct (Hst _ _ Hin) as [-> ->].
    rewrite theme_matches_snoc. unfold bump_score, bump_cards.
    destruct (FindBestCommanders.has_keyword kws _); cbn [option_map].
    + split.
      * f_equal. rewrite length_app. cbn [List.length]. lia.
      * f_equal. symmetry. apply firstn_snoc_capped.
    + now rewrite app_nil_r.
Qed.

Lemma theme_state flat :
  let st :=
    fold_left FindBestCommanders.theme_card_step flat
      (map (fun item => (fst item, 0%Z)) FindBestCommanders.theme_keywords,
       map (fun item => (fst item, @nil string))
         FindBestCommanders.theme_keywords) in
  map fst (fst st) = map fst FindBestCommanders.theme_keywords /\
  forall theme kws,
    In (theme, kws) FindBestCommanders.theme_keywords ->
    assoc_find theme (fst st)
      = Some (Z.of_nat (List.length (theme_matches kws flat))) /\
    assoc_find theme (snd st) = Some (firstn 10 (theme_matches kws flat)).
Proof.
  apply (theme_state_after flat []).
  cbn [fst snd]. split; [now rewrite map_map|].
  intros theme kws Hin. cbn [theme_matches filter map List.length firstn].
  split; apply assoc_find_of_In;
    try (rewrite map_map; apply theme_keywords_nodup);
    apply in_map_iff; now exists (theme, kws).
Qed.

Lemma theme_rows_spec flat :
  Forall (theme_row_ok flat) (FindBestCommanders.theme_rows flat) /\
  NoDup (map FindBestCommanders.th_theme (FindBestCommanders.theme_rows flat)) /\
  forall theme kws,
    In (theme, kws) FindBestCommanders.theme_keywords ->
    (3 <= Z.of_nat (List.length (theme_matches kws flat)))%Z ->
    exists row,
      In row (FindBestCommanders.theme_rows flat) /\
      FindBestCommanders.th_theme row = theme.
Proof.
  unfold FindBestCommanders.theme_rows.
  pose proof (theme_state flat) as H. cbn zeta in H.
  destruct (fold_left FindBestCommanders.theme_card_step flat _)
    as [scores cards].
  cbn [fst snd] in H. destruct H as [Hk Hst].
  assert (NoDup (map fst scores)) as Hn
    by (rewrite Hk; apply theme_keywords_nodup).
  split; [|split].
  - apply Forall_flat_map, Forall_forall. intros [theme score] Hin.
    destruct (3 <=? score)%Z eqn:E3; constructor; [|constructor].
    assert (In theme (map fst FindBestCommanders.theme_keywords)) as Ht
      by (rewrite <- Hk; apply in_map_iff; now exists (theme, score)).
    apply in_map_iff in Ht. destruct Ht as ([t kws] & Et & Hkw).
    cbn [fst] in Et. subst t.
    destruct (Hst _ _ Hkw) as [Hs Hc].
    rewrite (assoc_find_of_In _ _ _ Hn Hin) in Hs. injection Hs as Hs.
    exists kws. cbn [FindBestCommanders.th_theme
      FindBestCommanders.th_detected FindBestCommanders.th_examples
      FindBestCommanders.th_potential].
    rewrite Hc, firstn_firstn. cbn [Nat.min].
    repeat split; auto. now apply Z.leb_le.
  - clear Hk Hst. induction scores as [|[theme score] r IH];
      [constructor|].
    cbn [flat_map map fst] in *. inversion Hn as [|? ? Ht Hr]; subst.
    destruct (3 <=? score)%Z; cbn [app map]; [|now apply IH].
    constructor; [|now apply IH].
    cbn [FindBestCommanders.th_theme]. intros F. apply Ht.
    apply in_map_iff in F. destruct F as (row & Er & Hrow).
    apply in_flat_map in Hrow. destruct Hrow as ([t s] & Hts & Hrow).
    destruct (3 <=? s)%Z; [|destruct Hrow].
    destruct Hrow as [<-|[]]. cbn [FindBestCommanders.th_theme] in Er.
    subst t. apply in_map_iff. now exists (theme, s).
  - intros theme kws Hin H3. destruct (Hst _ _ Hin) as [Hs _].
    apply assoc_find_In in Hs.
    eexists. split.
    + apply in_flat_map. eexists. split; [exact Hs|].
      cbn beta iota. apply Z.leb_le in H3. rewrite H3. now left.
    + reflexivity.
Qed.

(** X18: Every row of the theme frame belongs to one of the fifteen themes,
    each at most once; its count is the number of cards of the list whose
    lower-cased name holds a keyword of the theme, and is at least 3; its
    examples are the first five of those cards, in list order; its label
    is [Alto] from 10 cards, [Medio] from 6, else [Bajo].  A theme with
    three matching cards or more has a row, and the rows come by falling
    count. *)
Theorem themes_detected flat out :
  FindBestCommanders.analyze_themes flat out ->
  Forall (theme_row_ok flat) out /\
  NoDup (map FindBestCommanders.th_theme out) /\
  (forall theme kws,
     In (theme, kws) FindBestCommanders.theme_keywords ->
     (3 <= Z.of_nat (List.length (theme_matches kws flat)))%Z ->
     exists row, In row out /\ FindBestCommanders.th_theme row = theme) /\
  StronglySorted
    (fun x y => (FindBestCommanders.th_detected y
                 <= FindBestCommanders.th_detected x)%Z) out.
Proof.
  intros [Hp Hs]. destruct (theme_rows_spec flat) as (Hf & Hn & He).
  split; [|split; [|split; [|exact Hs]]].
  - apply Forall_forall. intros row Hrow. rewrite Forall_forall in Hf.
    apply Hf. eapply Permutation_in; [apply Permutation_sym, Hp|exact Hrow].
  - eapply Permutation_NoDup; [apply Permutation_map, Hp|exact Hn].
  - intros theme kws Hin H3. destruct (He _ _ Hin H3) as (row & Hrow & Ht).
    exists row. split; [|exact Ht]. eapply Permutation_in; eauto.
Qed.

End Themes.

Example sample_theme_frame_rows :
  sample_theme_frame
  = [ {| FindBestCommanders.th_theme := "Artifacts";
         FindBestCommanders.th_detected := 3;
         FindBestCommanders.th_examples :=
           "Treasure Map, Treasure Vault, Treasure Cruise";
         FindBestCommanders.th_potential := "Bajo" |} ].
Proof. reflexivity. Qed.

Lemma themes_detected_witness :
  Forall (@theme_row_ok ascii_text sample_theme_cards) sample_theme_frame /\
  NoDup (map FindBestCommanders.th_theme sample_theme_frame) /\
  (forall theme kws,
     In (theme, kws) FindBestCommanders.theme_keywords ->
     (3 <= Z.of_nat (List.length
                       (@theme_matches ascii_text kws sample_theme_cards)))%Z ->
     exists row,
       In row sample_theme_frame /\
       FindBestCommanders.th_theme row = theme) /\
  StronglySorted
    (fun x y => (FindBestCommanders.th_detected y
                 <= FindBestCommanders.th_detected x)%Z) sample_theme_frame.
Proof.
  apply (@themes_detected ascii_text sample_theme_cards sample_theme_frame).
  split; [apply Permutation_refl|].
  repeat constructor.
Defined.

(** ** The ranking of commanders *)

Lemma Qsum_above a l :
  Forall (fun x => a < x) l -> l <> [] ->
  a * inject_Z (Z.of_nat (List.length l)) < Qsum l.
Proof.
  induction 1 as [|x r Hx Hr IH]; [congruence|]. intros _.
  cbn [List.length Qsum fold_right]. fold (Qsum r).
  rewrite Nat2Z.inj_succ. unfold Z.succ. rewrite inject_Z_plus.
  destruct r as [|y r'].
  - cbn [List.length Qsum fold_right Z.of_nat]. 
    change (inject_Z 0) with 0. change (inject_Z 1) with 1. lra.
  - assert (a * inject_Z (Z.of_nat (List.length (y :: r'))) < Qsum (y :: r'))
      as H by (apply IH; discriminate).
    change (inject_Z 1) with 1. lra.
Qed.

Lemma weak_order_avg : weak_order avg_ltb avg_eqb.
Proof.
  split.
  - intros [a|] [b|]; cbn; try congruence.
    intros H%Qgtb_true. apply Qgtb_false. lra.
  - intros [a|] [b|] [c|]; cbn; try congruence.
    intros H1%Qgtb_false H2%Qgtb_false. apply Qgtb_false. lra.
  - intros [a|] [b|]; cbn; try (split; [discriminate|intros [? ?]; congruence]);
      [|tauto].
    rewrite Qeq_bool_iff, !Qgtb_false. split.
    + intros H. rewrite H. split; apply Qle_refl.
    + intros [H1 H2]. now apply Qle_antisym.
Qed.

Lemma ranked_before_lex x y :
  FindBestCommanders.ranked_before x y
  = lex_ltb (fun a b => (b <? a)%Z) Z.eqb avg_ltb
      (FindBestCommanders.rk_matches x, FindBestCommanders.rk_avg_percent x)
      (FindBestCommanders.rk_matches y, FindBestCommanders.rk_avg_percent y).
Proof. reflexivity. Qed.

Lemma ranked_sorted rows :
  StronglySorted ranked_order
    (sort_stable FindBestCommanders.ranked_before rows).
Proof.
  pose proof (weak_order_lex _ _ _ _ weak_order_Z_desc weak_order_avg) as W.
  apply (StronglySorted_weaken (not_after FindBestCommanders.ranked_before)).
  - intros x y. unfold not_after, ranked_order,
      FindBestCommanders.ranked_before.
    intros H. apply orb_false_elim in H. destruct H as [H1 H2].
    apply Z.ltb_ge in H1.
    destruct (Z.eq_dec (FindBestCommanders.rk_matches x)
                (FindBestCommanders.rk_matches y)) as [E|E]; [|left; lia].
    right. split; [exact E|]. intros a b Ha Hb.
    rewrite Ha, Hb, E, Z.eqb_refl in H2. cbn [andb] in H2.
    now apply Qgtb_false in H2.
  - apply sort_stable_sorted.
    + intros x y. rewrite !ranked_before_lex. apply (wo_asym _ _ W).
    + intros x y z. rewrite !ranked_before_lex. apply (wo_trans _ _ W).
Qed.

Section Ranking.
Context {U : PyLib} {R : PyRepr}.
Variable card_page : string -> response.
Variable inv_unique : list (string * string).
Variable inv_map : list (string * Z).

Lemma commander_of_node_percent scry d new :
  FindBestCommanders.commander_of_node scry d = Returns new ->
  Forall (fun a => 2 # 10 < FindBestCommanders.att_percent a) new.
Proof.
  unfold FindBestCommanders.commander_of_node.
  destruct (dict_get "url" d); try (intros [= <-]; constructor).
  destruct (contains _ _); [|intros [= <-]; constructor].
  destruct (_ && _)%bool; [|intros [= <-]; constructor].
  destruct (py_div _ _) as [p|]; [|discriminate]. cbn [bind].
  destruct (Qgtb p (2 # 10)) eqn:G; intros [= <-]; constructor;
    [|constructor].
  now apply Qgtb_true.
Qed.

Lemma commanders_scan_percent scry o : forall acc acc',
  Forall (fun a => 2 # 10 < FindBestCommanders.att_percent a) acc ->
  FindBestCommanders.commanders_scan scry o acc = Returns acc' ->
  Forall (fun a => 2 # 10 < FindBestCommanders.att_percent a) acc'.
Proof.
  induction o as [|b|q|str|l IH|d IH] using json_nested_ind;
    intros acc acc' Hacc; try (simpl; now intros [= <-]).
  - simpl. revert acc Hacc.
    induction IH as [|x r Hx Hr IHr]; intros acc Hacc.
    + now intros [= <-].
    + destruct (FindBestCommanders.commanders_scan scry x acc) as [a1|] eqn:E;
        [|discriminate].
      cbn [bind]. apply IHr. eapply Hx; eauto.
  - cbn [FindBestCommanders.commanders_scan].
    destruct (FindBestCommanders.commander_of_node scry d) as [new|] eqn:E;
      [|discriminate].
    cbn [bind].
    assert (Forall (fun a => 2 # 10 < FindBestCommanders.att_percent a)
              (acc ++ new)%list) as H1.
    { apply Forall_app. split; [exact Hacc|].
      eapply commander_of_node_percent; eauto. }
    revert H1. generalize (acc ++ new)%list. clear E Hacc.
    induction IH as [|[k v] r Hx Hr IHr]; intros a1 H1.
    + now intros [= <-].
    + destruct (FindBestCommanders.commanders_scan scry v a1) as [a2|] eqn:E;
        [|discriminate].
      cbn [bind]. apply IHr. simpl in Hx. eapply Hx; eauto.
Qed.

Lemma process_card_result card lower res :
  FindBestCommanders.process_card card_page card lower
    = Returns (Some res) ->
  str_in lower FindBestCommanders.BASIC_LANDS = false /\
  Forall (fun a => 2 # 10 < FindBestCommanders.att_percent a)
    (FindBestCommanders.res_commanders res) /\
  Forall (synergy_record_ok card) (FindBestCommanders.res_synergies res).
Proof.
  unfold FindBestCommanders.process_card.
  destruct (str_in lower _); [discriminate|].
  destruct (FindBestCommanders.fetch_card_json _ _) as [data|];
    [|discriminate].
  destruct (FindBestCommanders.extract_commanders_from_card_json data card)
    as [coms|] eqn:Ec; [|discriminate].
  cbn [bind].
  destruct (FindBestCommanders.extract_synergy_cards data card)
    as [syn|] eqn:Es; [|discriminate].
  cbn [bind]. intros [= <-].
  cbn [FindBestCommanders.res_commanders FindBestCommanders.res_synergies].
  split; [reflexivity|]. split.
  - unfold FindBestCommanders.extract_commanders_from_card_json in Ec.
    destruct (FindBestCommanders.find_scryfall_for_card _ _) as [scry|];
      [|discriminate].
    cbn [bind] in Ec. eapply commanders_scan_percent; [|exact Ec].
    constructor.
  - exact (extract_synergy_cards_records data card syn Es).
Qed.

Lemma stats_find_In key l v :
  FindBestCommanders.stats_find key l = Some v -> exists k, In (k, v) l.
Proof.
  induction l as [|[k w] r IH]; [discriminate|].
  cbn [FindBestCommanders.stats_find].
  destruct (FindBestCommanders.key_eqb k key).
  - intros [= ->]. exists k. now left.
  - intros H. destruct (IH H) as (k' & Hk). exists k'. now right.
Qed.

Lemma stats_set_In key v l x :
  In x (FindBestCommanders.stats_set key v l) ->
  (snd x = v /\ (fst x = key \/ In (fst x) (map fst l))) \/ In x l.
Proof.
  induction l as [|[k w] r IH]; cbn [FindBestCommanders.stats_set].
  - intros [<-|[]]. left. cbn. auto.
  - destruct (FindBestCommanders.key_eqb k key).
    + intros [<-|H]; [|right; now right].
      left. cbn. auto.
    + intros [<-|H]; [right; now left|].
      destruct (IH H) as [(Hv & [Hk|Hk])|Hin]; cbn [map fst In]; tauto.
Qed.

Lemma commander_step_keeps card lower stats c stats' :
  In (card, lower) inv_unique ->
  str_in lower FindBestCommanders.BASIC_LANDS = false ->
  2 # 10 < FindBestCommanders.att_percent c ->
  Forall (commander_stat_ok inv_unique) stats ->
  FindBestCommanders.commander_step card stats c = Returns stats' ->
  Forall (commander_stat_ok inv_unique) stats'.
Proof.
  intros Hin Hb Hp Hs. unfold FindBestCommanders.commander_step.
  destruct (FindBestCommanders.key_hashable
              (FindBestCommanders.att_commander c)) eqn:Hh; cbn [negb];
    [|discriminate].
  match goal with
  | |- context [FindBestCommanders.stats_find _ ?t] =>
      match t with
      | stats => fail 1
      | _ => set (stats1 := t);
             assert (Forall (commander_stat_ok inv_unique) stats1) as H1
      end
  end.
  { subst stats1.
    destruct (FindBestCommanders.stats_find _ stats); [exact Hs|].
    apply Forall_forall. intros x Hx. rewrite Forall_forall in Hs.
    destruct (stats_set_In _ _ _ _ Hx) as [(Hv & Hk)|Hx']; [|now apply Hs].
    destruct x as [k v]. cbn [fst snd] in *. subst v.
    unfold commander_stat_ok. cbn. repeat split; try reflexivity.
    - destruct Hk as [->|Hk]; [exact Hh|].
      apply in_map_iff in Hk. destruct Hk as (y & <- & Hy).
      apply (Hs _ Hy).
    - constructor. }
  clearbody stats1.
  destruct (FindBestCommanders.stats_find _ stats1) as [entry|] eqn:Ef;
    intros [= <-]; [|exact H1].
  destruct (stats_find_In _ _ _ Ef) as (k0 & Hk0).
  rewrite Forall_forall in H1.
  destruct (H1 _ Hk0) as (_ & Em & Ec & Es & Ecards). cbn [fst snd] in *.
  apply Forall_forall. intros x Hx.
  destruct (stats_set_In _ _ _ _ Hx) as [(Hv & Hk)|Hx']; [|now apply H1].
  destruct x as [k v]. cbn [fst snd] in *. subst v.
  unfold commander_stat_ok.
  cbn [fst snd FindBestCommanders.st_matches
       FindBestCommanders.st_percent_count FindBestCommanders.st_percent_sum
       FindBestCommanders.st_cards].
  repeat split.
  - destruct Hk as [->|Hk]; [exact Hh|].
    apply in_map_iff in Hk. destruct Hk as (y & <- & Hy).
    apply (H1 _ Hy).
  - rewrite length_app, Em. cbn [List.length]. lia.
  - now rewrite Ec.
  - rewrite map_app. unfold Qsum in *. rewrite fold_right_app.
    cbn [map fold_right FindBestCommanders.stc_percent].
    rewrite Es. clear.
    induction (map FindBestCommanders.stc_percent
                 (FindBestCommanders.st_cards entry)) as [|y r IH];
      cbn [fold_right]; [ring|].
    rewrite <- IH. ring.
  - apply Forall_app. split; [exact Ecards|].
    constructor; [|constructor].
    unfold ranked_card_ok. cbn. repeat split; auto.
    exists lower. auto.
Qed.

Lemma recommendation_step_keeps card lower recs syn recs' :
  In (card, lower) inv_unique ->
  str_in lower FindBestCommanders.BASIC_LANDS = false ->
  synergy_record_ok card syn ->
  Forall (recommendation_ok inv_unique inv_map) recs ->
  FindBestCommanders.recommendation_step inv_map card recs syn
    = Returns recs' ->
  Forall (recommendation_ok inv_unique inv_map) recs'.
Proof.
  intros Hin Hb (_ & Hsyn & _) Hr.
  unfold FindBestCommanders.recommendation_step.
  destruct (FindBestCommanders.sc_card syn); try discriminate.
  destruct (assoc_has _ inv_map) eqn:Eo; intros [= <-]; [|exact Hr].
  apply Forall_app. split; [exact Hr|]. constructor; [|constructor].
  unfold recommendation_ok. cbn. repeat split; auto.
  exists lower. auto.
Qed.

Lemma inventory_step_keeps st row st' :
  In row inv_unique ->
  Forall (commander_stat_ok inv_unique) (fst st) /\
  Forall (recommendation_ok inv_unique inv_map) (snd st) ->
  FindBestCommanders.inventory_step card_page inv_map st row = Returns st' ->
  Forall (commander_stat_ok inv_unique) (fst st') /\
  Forall (recommendation_ok inv_unique inv_map) (snd st').
Proof.
  destruct st as [stats recs], row as [card lower]. cbn [fst snd].
  intros Hin [Hs Hr]. unfold FindBestCommanders.inventory_step.
  destruct (FindBestCommanders.process_card card_page card lower)
    as [[res|]|] eqn:Ep; cbn [bind]; try discriminate;
    [|intros [= <-]; now split].
  destruct (process_card_result _ _ _ Ep) as (Hb & Hc & Hy).
  destruct (fold_outcome (FindBestCommanders.commander_step card) _ stats)
    as [stats1|] eqn:E1; [|discriminate].
  cbn [bind].
  destruct (fold_outcome (FindBestCommanders.recommendation_step inv_map card)
              _ recs) as [recs1|] eqn:E2; [|discriminate].
  cbn [bind]. intros [= <-]. cbn [fst snd]. split.
  - revert E1.
    apply (fold_outcome_invariant (Forall (commander_stat_ok inv_unique)));
      [|exact Hs].
    intros s c s' Hcin Hs0. rewrite Forall_forall in Hc.
    apply (commander_step_keeps card lower); auto.
  - revert E2.
    apply (fold_outcome_invariant
             (Forall (recommendation_ok inv_unique inv_map))); [|exact Hr].
    intros s syn s' Hsin Hs0. rewrite Forall_forall in Hy.
    apply (recommendation_step_keeps card lower); auto.
Qed.

Lemma ranked_rows_ok stats :
  Forall (commander_stat_ok inv_unique) stats ->
  Forall (ranked_row_ok inv_unique) (FindBestCommanders.ranked_rows stats).
Proof.
  intros Hs. unfold FindBestCommanders.ranked_rows.
  apply Forall_flat_map. eapply Forall_impl; [|exact Hs].
  intros [k info] (Hh & Hm & Hc & Hsum & Hcards). cbn [fst snd] in *.
  destruct (FindBestCommanders.st_matches info
            <? FindBestCommanders.MIN_MATCHES)%Z eqn:E; constructor;
    [|constructor].
  apply Z.ltb_ge in E. unfold FindBestCommanders.MIN_MATCHES in *.
  unfold ranked_row_ok.
  cbn [FindBestCommanders.rk_commander FindBestCommanders.rk_matches
       FindBestCommanders.rk_avg_percent FindBestCommanders.rk_cards].
  repeat split; auto.
  rewrite Hc.
  assert ((FindBestCommanders.st_matches info =? 0)%Z = false) as ->
    by (apply Z.eqb_neq; lia).
  eexists. split; [reflexivity|]. split; [now rewrite Hsum|].
  apply Qlt_shift_div_l.
  - change 0 with (inject_Z 0). rewrite <- Zlt_Qlt. lia.
  - rewrite Hsum, Hm.
    rewrite <- (length_map FindBestCommanders.stc_percent).
    apply Qsum_above.
    + apply Forall_map. eapply Forall_impl; [|exact Hcards].
      intros c (_ & Hp & _). exact Hp.
    + intros F. apply map_eq_nil in F. rewrite F in Hm. cbn in Hm. lia.
Qed.

(** X19: When [analyze_inventory] returns, the ranking is not empty: with no
    commander at ten cards it raises instead.  Every ranked commander has
    at least ten cards, as many as its row lists; each of them is a card
    of the inventory that is not a basic land, marked [edhrec], played
    with the commander in more than 20% of its decks; the mean of these
    percentages is the row's average, and is above 20% too.  The rows
    come by falling number of cards, then by falling average.  Every
    recommended pair joins such a card with an owned card of a synergy
    above 0.1. *)
Theorem inventory_ranking rows recs :
  FindBestCommanders.analyze_inventory card_page inv_unique inv_map
    = Returns (rows, recs) ->
  (0 < List.length rows)%nat /\
  Forall (ranked_row_ok inv_unique) rows /\
  StronglySorted ranked_order rows /\
  Forall (recommendation_ok inv_unique inv_map) recs.
Proof.
  unfold FindBestCommanders.analyze_inventory.
  destruct (fold_outcome _ inv_unique _) as [[stats recs0]|] eqn:E;
    [|discriminate].
  cbn [bind].
  assert (Forall (commander_stat_ok inv_unique) stats /\
          Forall (recommendation_ok inv_unique inv_map) recs0) as [Hs Hr].
  { change stats with (fst (stats, recs0)).
    change recs0 with (snd (stats, recs0)) at 2.
    revert E.
    apply (fold_outcome_invariant
             (fun st => Forall (commander_stat_ok inv_unique) (fst st) /\
                        Forall (recommendation_ok inv_unique inv_map)
                          (snd st))).
    - intros st row st' Hin. now apply inventory_step_keeps.
    - split; constructor. }
  pose proof (ranked_rows_ok _ Hs) as Hrows.
  destruct (FindBestCommanders.ranked_rows stats) as [|r0 rest] eqn:Er;
    [discriminate|].
  remember (sort_stable FindBestCommanders.ranked_before (r0 :: rest))
    as out eqn:Eo.
  intros H. injection H as <- <-. subst out.
  split; [|split; [|split; [apply (ranked_sorted (r0 :: rest))|exact Hr]]].
  - rewrite <- (Permutation_length
                  (sort_stable_perm FindBestCommanders.ranked_before
                     (r0 :: rest))).
    cbn [List.length]. lia.
  - apply Forall_forall. intros x Hx. apply sort_stable_In in Hx.
    rewrite Forall_forall in Hrows. now apply Hrows.
Qed.

End Ranking.

Lemma inventory_ranking_witness :
  (0 < List.length (fst sample_ranking))%nat /\
  Forall (ranked_row_ok ten_cards) (fst sample_ranking) /\
  StronglySorted ranked_order (fst sample_ranking) /\
  Forall (@recommendation_ok ascii_text ten_cards []) (snd sample_ranking).
Proof.
  apply (@inventory_ranking ascii_text sample_repr atraxa_everywhere
           ten_cards [] (fst sample_ranking) (snd sample_ranking)).
  vm_compute. reflexivity.
Defined.

Example ranking_needs_ten_cards :
  map (fun r => (FindBestCommanders.rk_commander r,
                 FindBestCommanders.rk_matches r))
    (fst sample_ranking)
  = [(JStr "Atraxa, Praetors' Voice", 10%Z)] /\
  @FindBestCommanders.analyze_inventory ascii_text sample_repr
    atraxa_everywhere (firstn 9 ten_cards) [] = Raises.
Proof. split; vm_compute; reflexivity. Qed.
